(** * ImageModify backend: the badge compositor, the sheet row processor and
    the user table, embedded from the Python sources.

    Badge colours, price texts, sheet cells, emails and keys are strings of
    8-bit code points (Latin-1) in the modules that come first; where a
    property is about every Python [str] (what [int(s, 16)] accepts, how long
    a UTF-8 encoding is) the string is the list of its Unicode code points,
    module [PyStr]. Integers are [Z] or [nat], Python floats that only hold
    exact quotients are rationals. *)

From Stdlib Require Import Ascii String ZArith QArith Reals Lra.
From stdpp Require Import gmap strings list pretty.

Local Open Scope string_scope.
Local Open Scope Z_scope.

(** ** Python built-ins used by the sources *)
Module Py.

(** [str.isspace] on code points below 256; it is the set [str.strip()]
    removes. *)
Definition isspace (c : ascii) : bool :=
  let n := nat_of_ascii c in
  ((9 <=? n) && (n <=? 13) || (28 <=? n) && (n <=? 32)
   || (n =? 133) || (n =? 160))%nat.

(** The white space [int(s, base)] skips around the literal: the file,
    group, record and unit separators (28..31) are not part of it. *)
Definition int_space (c : ascii) : bool :=
  let n := nat_of_ascii c in
  ((9 <=? n) && (n <=? 13) || (n =? 32) || (n =? 133) || (n =? 160))%nat.

Fixpoint lstrip_with (sp : ascii -> bool) (s : string) : string :=
  match s with
  | EmptyString => EmptyString
  | String c s' => if sp c then lstrip_with sp s' else s
  end.

Fixpoint rstrip_with (sp : ascii -> bool) (s : string) : string :=
  match s with
  | EmptyString => EmptyString
  | String c s' =>
      match rstrip_with sp s' with
      | EmptyString => if sp c then EmptyString else String c EmptyString
      | r => String c r
      end
  end.

(** [s.strip()] *)
Definition strip (s : string) : string := rstrip_with isspace (lstrip_with isspace s).

(** [s.split(sep)] for a one-character separator: empty fields are kept. *)
Fixpoint split (sep : ascii) (s : string) : list string :=
  match s with
  | EmptyString => [EmptyString]
  | String c s' =>
      if Ascii.eqb c sep then EmptyString :: split sep s'
      else match split sep s' with
           | w :: ws => String c w :: ws
           | [] => [String c EmptyString]
           end
  end.

(** [s.replace(c, empty)] for a one-character [c]: every [c] is removed. *)
Fixpoint remove_char (x : ascii) (s : string) : string :=
  match s with
  | EmptyString => EmptyString
  | String c s' => if Ascii.eqb c x then remove_char x s' else String c (remove_char x s')
  end.

(** Truth value of a string: [if s:] *)
Definition truthy (s : string) : bool :=
  match s with EmptyString => false | _ => true end.

(** [s[i:j]] for [0 <= i <= j] *)
Definition slice (i j : nat) (s : string) : string := substring i (j - i) s.

Definition hex_digit (c : ascii) : option Z :=
  let n := nat_of_ascii c in
  if ((48 <=? n) && (n <=? 57))%nat then Some (Z.of_nat n - 48)
  else if ((97 <=? n) && (n <=? 102))%nat then Some (Z.of_nat n - 87)
  else if ((65 <=? n) && (n <=? 70))%nat then Some (Z.of_nat n - 55)
  else None.

Definition is_hex (c : ascii) : bool :=
  match hex_digit c with Some _ => true | None => false end.

(** Digits of a base-16 literal; a single underscore may stand between two
    digits. [prev] tells whether the previous character was a digit. *)
Fixpoint int16_digits (s : string) (acc : Z) (prev : bool) : option Z :=
  match s with
  | EmptyString => if prev then Some acc else None
  | String c s' =>
      if Ascii.eqb c "_" then
        if prev then int16_digits s' acc false else None
      else match hex_digit c with
           | Some d => int16_digits s' (16 * acc + d) true
           | None => None
           end
  end.

Definition drop_prefix16 (s : string) : string :=
  match s with
  | String "0" (String "x" r) | String "0" (String "X" r) =>
      match r with
      | String "_" r' => r'
      | _ => r
      end
  | _ => s
  end.

(** [int(s, 16)] for a string of code points below 256, which is how
    [PyLong_FromString] reads the ASCII string that [int] makes of a
    [str]; [None] stands for [ValueError]. White space around the
    literal, a sign and a [0x] prefix are accepted, as Python does.
    [PyStr.int16] below is [int(s, 16)] on every [str]. *)
Definition int16 (s : string) : option Z :=
  let s := rstrip_with int_space (lstrip_with int_space s) in
  let '(neg, s) :=
    match s with
    | String "+" r => (false, r)
    | String "-" r => (true, r)
    | _ => (false, s)
    end in
  match int16_digits (drop_prefix16 s) 0 false with
  | Some v => Some (if neg then - v else v)
  | None => None
  end.

(** Every 8-bit code point, to decide facts about characters by running
    through them. *)
Definition all_ascii : list ascii := map ascii_of_nat (seq 0 256).

Definition option_Z_eqb (a b : option Z) : bool :=
  match a, b with
  | Some x, Some y => Z.eqb x y
  | None, None => true
  | _, _ => false
  end.

(** [os.path.join(a, b)] of [posixpath] for two components *)
Definition os_path_join (a b : string) : string :=
  match b with
  | String "/" _ => b
  | _ =>
      match a with
      | EmptyString => b
      | _ => if String.eqb (substring (String.length a - 1) 1 a) "/"
             then a ++ b else a ++ "/" ++ b
      end
  end.

(** [s.lower()] on code points below 256: the ASCII capitals and the
    Latin-1 capitals (all of 192..222 but the multiplication sign). *)
Definition lower_char (c : ascii) : ascii :=
  let n := nat_of_ascii c in
  if ((65 <=? n) && (n <=? 90)
      || (192 <=? n) && (n <=? 222) && negb (n =? 215))%nat
  then ascii_of_nat (n + 32) else c.

Fixpoint lower (s : string) : string :=
  match s with
  | EmptyString => EmptyString
  | String c s' => String (lower_char c) (lower s')
  end.

End Py.

(** ** Python's [str] over all of Unicode

    [int(s, 16)] and [s.encode("utf-8")] on every [str]. [Py.int16] above is
    the restriction of [PyStr.int16] to code points below 256. *)
Module PyStr.

(** A [str]: the sequence of its code points, each from 0 to 0x10FFFF. *)
Definition str : Type := list N.

(** The [str] of a string of code points below 256. *)
Definition of_latin1 (s : string) : str := map N_of_ascii (list_ascii_of_string s).

(** The code points for which [Py_UNICODE_ISSPACE] holds. *)
Definition whitespace : list N :=
  [
   0x9; 0xA; 0xB; 0xC; 0xD; 0x1C; 0x1D; 0x1E;
   0x1F; 0x20; 0x85; 0xA0; 0x1680; 0x2000; 0x2001; 0x2002;
   0x2003; 0x2004; 0x2005; 0x2006; 0x2007; 0x2008; 0x2009; 0x200A;
   0x2028; 0x2029; 0x202F; 0x205F; 0x3000
  ]%N.

Definition isspace (ch : N) : bool := existsb (N.eqb ch) whitespace.

(** The digit zero of every run of ten decimal digits (category Nd) of
    Unicode 14.0, the tables of CPython 3.11: ASCII, Arabic-Indic, ...,
    fullwidth, ..., the mathematical digits. Later versions of Unicode
    add runs. *)
Definition decimal_zeros_14 : list N :=
  [
   0x30; 0x660; 0x6F0; 0x7C0; 0x966; 0x9E6; 0xA66; 0xAE6;
   0xB66; 0xBE6; 0xC66; 0xCE6; 0xD66; 0xDE6; 0xE50; 0xED0;
   0xF20; 0x1040; 0x1090; 0x17E0; 0x1810; 0x1946; 0x19D0; 0x1A80;
   0x1A90; 0x1B50; 0x1BB0; 0x1C40; 0x1C50; 0xA620; 0xA8D0; 0xA900;
   0xA9D0; 0xA9F0; 0xAA50; 0xABF0; 0xFF10; 0x104A0; 0x10D30; 0x11066;
   0x110F0; 0x11136; 0x111D0; 0x112F0; 0x11450; 0x114D0; 0x11650; 0x116C0;
   0x11730; 0x118E0; 0x11950; 0x11C50; 0x11D50; 0x11DA0; 0x16A60; 0x16AC0;
   0x16B50; 0x1D7CE; 0x1D7D8; 0x1D7E2; 0x1D7EC; 0x1D7F6; 0x1E140; 0x1E2F0;
   0x1E950; 0x1FBF0
  ]%N.

(** [ch] is one of the ten digits that start at [zero]. *)
Definition in_run (ch zero : N) : bool := ((zero <=? ch) && (ch <? zero + 10))%N.

(** What the tables of every version have: the digits 0 to 9 are the only
    decimal digits below 256, and no white space is a decimal digit. *)
Definition decimal_zeros_ok (zeros : list N) : bool :=
  existsb (N.eqb 48) zeros
  && forallb (fun zero => (zero =? 48) || (256 <=? zero))%N zeros
  && forallb (fun ch => negb (existsb (in_run ch) zeros)) whitespace.

Section Decimal.
(** The digit zeros in the Unicode tables of the interpreter. *)
Variable decimal_zeros : list N.

(** [Py_UNICODE_TODECIMAL(ch)]: a decimal digit has the value of its place
    in its run; [None] is the -1 of the other code points. *)
Definition to_decimal (ch : N) : option N :=
  match List.find (in_run ch) decimal_zeros with
  | Some zero => Some (ch - zero)%N
  | None => None
  end.

(** The loop of [_PyUnicode_TransformDecimalAndSpaceToASCII]: a code point
    below 127 is kept, a white space becomes a blank, a decimal digit its
    ASCII digit; at any other code point the output ends with a question
    mark. *)
Fixpoint transform_loop (s : str) : string :=
  match s with
  | [] => EmptyString
  | ch :: s' =>
      if (ch <? 127)%N then String (ascii_of_N ch) (transform_loop s')
      else if isspace ch then String " " (transform_loop s')
      else match to_decimal ch with
           | Some decimal => String (ascii_of_N (48 + decimal)) (transform_loop s')
           | None => String "?" EmptyString
           end
  end.

(** The character the loop writes for [ch]. *)
Definition transform_char (ch : N) : ascii :=
  if (ch <? 127)%N then ascii_of_N ch
  else if isspace ch then " "%char
  else match to_decimal ch with
       | Some decimal => ascii_of_N (48 + decimal)
       | None => "?"%char
       end.

Definition is_ascii (s : str) : bool := forallb (fun ch => (ch <? 128)%N) s.

(** [_PyUnicode_TransformDecimalAndSpaceToASCII(s)]: a string that is
    already ASCII is returned as it is. *)
Definition transform (s : str) : string :=
  if is_ascii s then string_of_list_ascii (map ascii_of_N s) else transform_loop s.

(** [int(s, 16)], [PyLong_FromUnicodeObject]: the literal is read from the
    transformed string; [None] stands for [ValueError]. *)
Definition int16 (s : str) : option Z := Py.int16 (transform s).

End Decimal.

(** [s.replace(c, empty)] for a one-character [c] *)
Fixpoint remove_char (x : N) (s : str) : str :=
  match s with
  | [] => []
  | ch :: s' => if (ch =? x)%N then remove_char x s' else ch :: remove_char x s'
  end.

(** [s[i:j]] for [0 <= i <= j] *)
Definition slice (i j : nat) (s : str) : str := take (j - i) (drop i s).

(** [chr(ch).encode("utf-8")]; [None] is the [UnicodeEncodeError] of a
    surrogate. *)
Definition encode_char (ch : N) : option (list N) :=
  if (ch <? 0x80)%N then Some [ch]
  else if (ch <? 0x800)%N then Some [0xC0 + ch / 64; 0x80 + ch mod 64]%N
  else if ((0xD800 <=? ch) && (ch <=? 0xDFFF))%N then None
  else if (ch <? 0x10000)%N then
    Some [0xE0 + ch / 4096; 0x80 + (ch / 64) mod 64; 0x80 + ch mod 64]%N
  else
    Some [0xF0 + ch / 262144; 0x80 + (ch / 4096) mod 64; 0x80 + (ch / 64) mod 64;
          0x80 + ch mod 64]%N.

(** [s.encode("utf-8")], a byte as its value. *)
Fixpoint encode_utf8 (s : str) : option (list N) :=
  match s with
  | [] => Some []
  | ch :: s' =>
      match encode_char ch, encode_utf8 s' with
      | Some b, Some bs => Some (b ++ bs)%list
      | _, _ => None
      end
  end.

Definition is_surrogate (ch : N) : bool := ((0xD800 <=? ch) && (ch <=? 0xDFFF))%N.

End PyStr.

(** ** modules/badge_shapes.py *)
Module BadgeShapes.

(** The pair [(kind, data)] that [get_polygon_for_shape] returns. *)
Inductive shape : Type :=
  | circle (cx cy r : Z)
  | polygon (points : list (R * R))
  | none.

(** Body of the loop [for i in range(30)]: the point appended for [i].
    Python's floats are read as the real numbers they approximate. *)
Definition starburst_point (center_x center_y size : Z) (i : nat) : R * R :=
  let angle := (INR i / 30 * 2 * PI)%R in
  let r := if (i mod 2 =? 0)%nat then (IZR size * (5 / 10))%R
           else (IZR size * (35 / 100))%R in
  let px := (IZR center_x + r * cos angle)%R in
  let py := (IZR center_y + r * sin angle)%R in
  (px, py).

Fixpoint starburst_loop (center_x center_y size : Z) (range : list nat)
    (points : list (R * R)) : list (R * R) :=
  match range with
  | [] => points
  | i :: range' =>
      starburst_loop center_x center_y size range'
        (points ++ [starburst_point center_x center_y size i])
  end.

Definition get_polygon_for_shape (shape_type : string) (x y size : Z) : shape :=
  if String.eqb (Py.lower shape_type) "circle" then
    let cx := x + size / 2 in
    let cy := y + size / 2 in
    circle cx cy (size / 2)
  else if String.eqb (Py.lower shape_type) "starburst_15" then
    let center_x := x + size / 2 in
    let center_y := y + size / 2 in
    polygon (starburst_loop center_x center_y size (seq 0 30) [])
  else if String.eqb (Py.lower shape_type) "none" then
    none
  else
    let cx := x + size / 2 in
    let cy := y + size / 2 in
    circle cx cy (size / 2).

Definition points_of (s : shape) : list (R * R) :=
  match s with
  | polygon points => points
  | _ => []
  end.

(** The vertex the specification describes: at angle [2 pi i / 30] from the
    centre [(x + size/2, y + size/2)] of the size-by-size box anchored at
    [(x, y)], at radius [0.5 size] for even [i] and [0.35 size] for odd [i]. *)
Definition box_center_vertex (x y size : Z) (i : nat) : R * R :=
  let r := if Nat.even i then (5 / 10 * IZR size)%R else (35 / 100 * IZR size)%R in
  let angle := (2 * PI * INR i / 30)%R in
  ((IZR x + IZR size / 2) + r * cos angle, (IZR y + IZR size / 2) + r * sin angle)%R.

End BadgeShapes.

(** ** modules/image_composer.py *)
Module ImageComposer.

Definition BADGE_SIZE : Z := 200.
Definition FONT_SIZE : Z := 70.
Definition TWO_LINE_FONT_SIZE : Z := 50.

Definition Qgt_bool (a b : Q) : bool := negb (Qle_bool a b).

(** [get_contrast_color(hex_color)]. The quotient [brightness] is kept
    exact: the float Python computes is the double nearest to it, and
    rounding to nearest is monotone and leaves 160 fixed, so the test
    [brightness > 160] has the same outcome. Both [except] exits and the
    length test return ["white"]. *)
Definition get_contrast_color (hex_color : string) : string :=
  let hex_color := Py.remove_char "#" hex_color in
  if negb (String.length hex_color =? 6)%nat then "white"
  else
    match Py.int16 (Py.slice 0 2 hex_color),
          Py.int16 (Py.slice 2 4 hex_color),
          Py.int16 (Py.slice 4 6 hex_color) with
    | Some r, Some g, Some b =>
        let brightness := ((r * 299 + g * 587 + b * 114) # 1000)%Q in
        if Qgt_bool brightness 160 then "black" else "white"
    | _, _, _ => "white"
    end.

(** The two-character strings [int(s, 16)] accepts: two hexadecimal digits,
    or one digit after a sign or a white space, or one digit before a white
    space. *)
Definition int16_accepts2 (s : string) : bool :=
  match s with
  | String c1 (String c2 EmptyString) =>
      Py.is_hex c1 && Py.is_hex c2
      || (Py.int_space c1 || Ascii.eqb c1 "+" || Ascii.eqb c1 "-") && Py.is_hex c2
      || Py.is_hex c1 && Py.int_space c2
  | _ => false
  end.

(** The luminance of the specification, [0.299 R + 0.587 G + 0.114 B]. *)
Definition luminance (r g b : Z) : Q :=
  ((299 # 1000) * inject_Z r + (587 # 1000) * inject_Z g + (114 # 1000) * inject_Z b)%Q.

(** A font object: a loaded TrueType face or PIL's built-in face. *)
Inductive font : Type :=
  | truetype (file : string) (size : Z)
  | load_default.

(** State of the loop of [split_two_lines]. *)
Record wrap_state : Type := WrapState { lines : list string; current : string }.

Section TextLayout.
(** [draw.textlength(text, font=font)], the rendered width in pixels. *)
Variable textlength : string -> font -> Q.

(** One iteration of [for w in words], up to the test for [break]. *)
Definition place_word (f : font) (max_width : Q) (st : wrap_state) (w : string)
    : wrap_state :=
  let test := Py.strip (current st ++ " " ++ w) in
  if Qle_bool (textlength test f) max_width then
    WrapState (lines st) test
  else
    WrapState (if Py.truthy (current st) then (lines st ++ [current st])%list else lines st) w.

(** The loop with its [if len(lines) == 2: break]. *)
Fixpoint wrap_words (f : font) (max_width : Q) (words : list string)
    (st : wrap_state) : wrap_state :=
  match words with
  | [] => st
  | w :: words' =>
      let st' := place_word f max_width st w in
      if (length (lines st') =? 2)%nat then st'
      else wrap_words f max_width words' st'
  end.

Definition split_two_lines (text : string) (f : font) (max_width : Q) : list string :=
  let words := Py.split " " text in
  let st := wrap_words f max_width words (WrapState [] EmptyString) in
  let lines' :=
    if Py.truthy (current st) && (length (lines st) <? 2)%nat
    then (lines st ++ [current st])%list else lines st in
  take 2 lines'.

(** The greedy wrap of the specification, without a cap on the number of
    lines: extend the current line word by word while it fits; when the
    next word would overflow, close the current line and start a new one
    with that word. Used to say which lines [split_two_lines] keeps. *)
Definition greedy_wrap_spec (text : string) (f : font) (max_width : Q) : list string :=
  let st := foldl (place_word f max_width) (WrapState [] EmptyString) (Py.split " " text) in
  if Py.truthy (current st) then (lines st ++ [current st])%list else lines st.

(** Step 4 of [compose_image], up to the choice of the font: the [try]
    around the two [ImageFont.truetype] calls, where [truetype_ok] tells
    whether the font file loads. *)
Definition load_price_fonts (truetype_ok : bool) : font * font :=
  if truetype_ok
  then (truetype "arialbd.ttf" FONT_SIZE, truetype "arialbd.ttf" TWO_LINE_FONT_SIZE)
  else (load_default, load_default).

(** Step 4 of [compose_image], "Decide font": the font used and the lines
    drawn for [price_text]. *)
Definition compose_image_price_lines (truetype_ok : bool) (price_text : string)
    : font * list string :=
  let '(font_main, font_small) := load_price_fonts truetype_ok in
  let badge_size := BADGE_SIZE in
  let max_w := (inject_Z badge_size * (75 # 100))%Q in
  let lines := split_two_lines price_text font_main max_w in
  let use_font := if (length lines =? 2)%nat then font_small else font_main in
  let lines := split_two_lines price_text use_font max_w in
  (use_font, lines).

End TextLayout.

(** A width measure to run the layout on: every character is 0.6 of the
    font size wide, 6 pixels in the built-in face. *)
Definition fixed_pitch (text : string) (f : font) : Q :=
  match f with
  | truetype _ size => (inject_Z (Z.of_nat (String.length text)) * inject_Z size * (6 # 10))%Q
  | load_default => (inject_Z (Z.of_nat (String.length text)) * 6)%Q
  end.

(** The text has no space, so it is a single word. *)
Definition no_space (text : string) : bool :=
  forallb (fun c => negb (Ascii.eqb c " ")) (list_ascii_of_string text).

(** What the specification asks of a layout: every word of the text stands
    on one of the lines. *)
Definition every_word_placed (text : string) (ls : list string) : bool :=
  forallb (fun w => existsb (fun l => existsb (String.eqb w) (Py.split " " l)) ls)
          (Py.split " " text).

End ImageComposer.

(** ** modules/image_composer.py: [get_contrast_color] on every [str] *)
Module ContrastColor.
Import ImageComposer.

(** A hexadecimal digit: 0-9, a-f, A-F. *)
Definition is_hex (ch : N) : bool :=
  ((48 <=? ch) && (ch <=? 57) || (97 <=? ch) && (ch <=? 102)
   || (65 <=? ch) && (ch <=? 70))%N.

(** Exactly six hexadecimal digits. *)
Definition six_hex_digits (s : PyStr.str) : bool :=
  (length s =? 6)%nat && forallb is_hex s.

(** The white space [int(s, 16)] skips: of the ASCII characters the
    characters 9 to 13 and the blank, and every white space from 127 on. *)
Definition int_space (ch : N) : bool :=
  ((9 <=? ch) && (ch <=? 13) || (ch =? 32) || (127 <=? ch) && PyStr.isspace ch)%N.

Section Decimal.
(** The digit zeros in the Unicode tables of the interpreter. *)
Variable decimal_zeros : list N.

(** [get_contrast_color(hex_color)] for a [hex_color] of any code points;
    [ImageComposer.get_contrast_color] is its restriction to code points
    below 256. *)
Definition get_contrast_color (hex_color : PyStr.str) : string :=
  let hex_color := PyStr.remove_char 35 hex_color in
  if negb (length hex_color =? 6)%nat then "white"
  else
    match PyStr.int16 decimal_zeros (PyStr.slice 0 2 hex_color),
          PyStr.int16 decimal_zeros (PyStr.slice 2 4 hex_color),
          PyStr.int16 decimal_zeros (PyStr.slice 4 6 hex_color) with
    | Some r, Some g, Some b =>
        let brightness := ((r * 299 + g * 587 + b * 114) # 1000)%Q in
        if Qgt_bool brightness 160 then "black" else "white"
    | _, _, _ => "white"
    end.

(** A digit [int(s, 16)] reads: a hexadecimal digit, or a decimal digit of
    any script. *)
Definition is_digit16 (ch : N) : bool :=
  is_hex ch || match PyStr.to_decimal decimal_zeros ch with Some _ => true | None => false end.

(** The two-character strings [int(s, 16)] accepts: two digits, or one
    digit after a sign or a white space, or one digit before a white
    space. *)
Definition int16_accepts2 (s : PyStr.str) : bool :=
  match s with
  | [c1; c2] =>
      is_digit16 c1 && is_digit16 c2
      || (int_space c1 || (c1 =? 43)%N || (c1 =? 45)%N) && is_digit16 c2
      || is_digit16 c1 && int_space c2
  | _ => false
  end.

End Decimal.

End ContrastColor.

(** ** modules/processor.py *)
Module Processor.

(** Exceptions of class [Exception]: the [IndexError] of a list index out of
    range, and whatever [compose_image] or [sheet.update_cell] raise, kept by
    its message [str(e)]. *)
Inductive exn : Type :=
  | IndexError
  | Exception (msg : string).

Definition str_exn (e : exn) : string :=
  match e with
  | IndexError => "list index out of range"
  | Exception msg => msg
  end.

(** Calls that reach outside the process, in the order they are made. *)
Inductive event : Type :=
  | Ev_makedirs (path : string)
  | Ev_compose_image (image_path price_text output_path : string)
  | Ev_update_cell (row col : nat) (value : string)
  | Ev_print (msg : string).

(** The sheet's cells by (row, column), both 1-based, and the calls made. *)
Record world : Type := World {
  cells : gmap (nat * nat) string;
  trace : list event
}.

(** State and exception monad of the module. *)
Definition M (A : Type) : Type := world -> world * (exn + A).

Definition ret {A} (a : A) : M A := fun w => (w, inr a).
Definition raise {A} (e : exn) : M A := fun w => (w, inl e).
Definition bind {A B} (m : M A) (k : A -> M B) : M B :=
  fun w => match m w with
           | (w', inl e) => (w', inl e)
           | (w', inr a) => k a w'
           end.
(** [try: body except Exception as e: handler(e)] *)
Definition try_except {A} (body : M A) (handler : exn -> M A) : M A :=
  fun w => match body w with
           | (w', inl e) => handler e w'
           | (w', inr a) => (w', inr a)
           end.
Definition emit (ev : event) : M unit :=
  fun w => (World (cells w) (trace w ++ [ev]), inr tt).

Notation "'let*' x ':=' m 'in' k" := (bind m (fun x => k))
  (at level 10, x name, m at level 100, k at level 200).
Notation "m '>>' k" := (bind m (fun _ => k))
  (at level 60, right associativity).

(** [row[i]] *)
Definition index (row : list string) (i : nat) : M string :=
  match row !! i with
  | Some v => ret v
  | None => raise IndexError
  end.

Definition print (msg : string) : M unit := emit (Ev_print msg).

Definition IMAGE_URL_COL : nat := 1.
Definition PRICE_COL : nat := 2.
Definition OUTPUT_COL : nat := 3.
Definition edited_folder : string := "images/edited".

(** The row has the two cells the loop reads, columns A and B. *)
Definition has_columns (row : list string) : Prop := (2 <= length row)%nat.

Section ProcessSheet.
(** [sheet.get_all_values()] as a function of the cells. *)
Variable get_all_values : gmap (nat * nat) string -> list (list string).
(** Whether a call raises, and with which message. In one run every call
    of [compose_image] has its own output path and every call of
    [update_cell] its own row, so the arguments identify the call. *)
Variable compose_image_raises : string -> string -> string -> option string.
Variable update_cell_raises : nat -> nat -> string -> option string.

(** [compose_image(image_path=.., price_text=.., output_path=..)] *)
Definition compose_image (image_path price_text output_path : string) : M unit :=
  emit (Ev_compose_image image_path price_text output_path) >>
  match compose_image_raises image_path price_text output_path with
  | Some msg => raise (Exception msg)
  | None => ret tt
  end.

(** [sheet.update_cell(row, col, value)]; a call that raises leaves the
    cell as it was. *)
Definition update_cell (row col : nat) (value : string) : M unit :=
  emit (Ev_update_cell row col value) >>
  match update_cell_raises row col value with
  | Some msg => raise (Exception msg)
  | None => fun w => (World (<[(row, col) := value]> (cells w)) (trace w), inr tt)
  end.

Definition output_filename (row_index : nat) : string :=
  "edited_" ++ pretty row_index ++ ".png".

Definition public_url (BASE_URL : string) (row_index : nat) : string :=
  BASE_URL ++ "/images/edited/" ++ output_filename row_index.

(** Body of the loop over the rows. *)
Definition process_row (BASE_URL : string) (row_index : nat) (row : list string)
    : M unit :=
  let* image_url := index row (IMAGE_URL_COL - 1) in
  let* price_text := index row (PRICE_COL - 1) in
  if negb (Py.truthy image_url) then ret tt
  else
    let output_path := Py.os_path_join edited_folder (output_filename row_index) in
    try_except
      (compose_image image_url price_text output_path >>
       update_cell row_index OUTPUT_COL (public_url BASE_URL row_index) >>
       print ("Row " ++ pretty row_index ++ ": Updated " ++ public_url BASE_URL row_index))
      (fun e => print ("Error processing row " ++ pretty row_index ++ ": " ++ str_exn e)).

(** The path and the cells, calls and result of one iteration, case by
    case; [process_row_result] shows it is what [process_row] does. *)
Definition output_path (row_index : nat) : string :=
  Py.os_path_join edited_folder (output_filename row_index).

Definition row_result (BASE_URL : string) (i : nat) (row : list string)
    (c : gmap (nat * nat) string)
    : gmap (nat * nat) string * list event * (exn + unit) :=
  match row !! 0%nat, row !! 1%nat with
  | Some url, Some price =>
      if negb (Py.truthy url) then (c, [], inr tt)
      else
        match compose_image_raises url price (output_path i) with
        | Some msg =>
            (c, [Ev_compose_image url price (output_path i);
                 Ev_print ("Error processing row " ++ pretty i ++ ": " ++ msg)],
             inr tt)
        | None =>
            match update_cell_raises i OUTPUT_COL (public_url BASE_URL i) with
            | Some msg =>
                (c, [Ev_compose_image url price (output_path i);
                     Ev_update_cell i OUTPUT_COL (public_url BASE_URL i);
                     Ev_print ("Error processing row " ++ pretty i ++ ": " ++ msg)],
                 inr tt)
            | None =>
                (<[(i, OUTPUT_COL) := public_url BASE_URL i]> c,
                 [Ev_compose_image url price (output_path i);
                  Ev_update_cell i OUTPUT_COL (public_url BASE_URL i);
                  Ev_print ("Row " ++ pretty i ++ ": Updated " ++ public_url BASE_URL i)],
                 inr tt)
            end
        end
  | _, _ => (c, [], inl IndexError)
  end.

Fixpoint rows_result (BASE_URL : string) (i : nat) (values : list (list string))
    (c : gmap (nat * nat) string)
    : gmap (nat * nat) string * list event * (exn + unit) :=
  match values with
  | [] => (c, [], inr tt)
  | row :: values' =>
      match row_result BASE_URL i row c with
      | (c1, evs1, inl e) => (c1, evs1, inl e)
      | (c1, evs1, inr _) =>
          let '(c2, evs2, out) := rows_result BASE_URL (S i) values' c1 in
          (c2, (evs1 ++ evs2)%list, out)
      end
  end.

(** [for row_index, row in enumerate(values, start=row_index)] *)
Fixpoint for_rows (BASE_URL : string) (row_index : nat) (values : list (list string))
    : M unit :=
  match values with
  | [] => ret tt
  | row :: values' =>
      process_row BASE_URL row_index row >>
      for_rows BASE_URL (S row_index) values'
  end.

(** [process_sheet(sheet, BASE_URL)], from the point where
    [sheet.get_all_values()] and [os.makedirs] have returned. *)
Definition process_sheet (BASE_URL : string) : M unit :=
  fun w =>
    let values := get_all_values (cells w) in
    (emit (Ev_makedirs edited_folder) >>
     for_rows BASE_URL 1 values >>
     print "Processing completed.") w.

(** Run on a sheet with the given cells. *)
Definition run_process_sheet (BASE_URL : string) (sheet : gmap (nat * nat) string)
    : world * (exn + unit) :=
  process_sheet BASE_URL (World sheet []).

End ProcessSheet.

(** Sheets and a compositor to run the model on: the three rows of the
    specification's end-to-end example, a sheet with column A only, rows of
    unequal length, and a [compose_image] that cannot open one file. *)
Definition three_rows : list (list string) :=
  [["imgA.png"; "$19.99"]; [EmptyString; "$5"]; ["imgB.png"; "$100"]].
Definition column_A_only : list (list string) := [["imgA.png"]; ["imgB.png"]].
Definition ragged_rows : list (list string) :=
  [["imgA.png"; "$19.99"]; ["imgB.png"]; ["imgC.png"; "$5"]].
Definition cannot_open (file : string) (image_path price_text output_path : string)
    : option string :=
  if String.eqb image_path file then Some "cannot identify image file" else None.
Definition never_raises {A B C} (a : A) (b : B) (c : C) : option string := None.

End Processor.

(** ** app/database.py *)
Module Database.

(** A row of the table [users] ([id] and [created_at] are never read). *)
Record User : Type := mkUser {
  email : string;
  hashed_password : string;
  api_key : string;
  monthly_edits : Z;
  total_edits : Z;
  plan_name : string;
  plan_renewal_date : option string
}.

Inductive exn : Type :=
  | ValueError (msg : string)
  | IntegrityError.

(** Result of a call; [Diverged] when the fuel given to the [while True]
    loop of [_generate_api_key] is used up. *)
Inductive outcome (A : Type) : Type :=
  | Returned (a : A)
  | Raised (e : exn)
  | Diverged.
Arguments Returned {A} a.
Arguments Raised {A} e.
Arguments Diverged {A}.

(** [db.query(User).filter(p).first()] *)
Definition query_first (p : User -> bool) (rows : list User) : option User :=
  List.find p rows.

Definition has_email (e : string) (u : User) : bool := String.eqb (email u) e.
Definition has_api_key (k : string) (u : User) : bool := String.eqb (api_key u) k.

(** The row [first()] returned, changed in place by [f]. *)
Fixpoint update_first (p : User -> bool) (f : User -> User) (rows : list User)
    : list User :=
  match rows with
  | [] => []
  | u :: rows' => if p u then f u :: rows' else u :: update_first p f rows'
  end.

(** The rows other than the one [first()] returned. *)
Fixpoint others (p : User -> bool) (rows : list User) : list User :=
  match rows with
  | [] => []
  | u :: rows' => if p u then rows' else u :: others p rows'
  end.

(** The UNIQUE indexes on [email] and [api_key], checked at [commit]. *)
Definition violates_unique (u : User) (rows : list User) : bool :=
  existsb (has_email (email u)) rows || existsb (has_api_key (api_key u)) rows.

Definition set_api_key (k : string) (u : User) : User :=
  mkUser (email u) (hashed_password u) k (monthly_edits u) (total_edits u)
         (plan_name u) (plan_renewal_date u).

Definition add_edits (edits : Z) (u : User) : User :=
  mkUser (email u) (hashed_password u) (api_key u) (monthly_edits u + edits)
         (total_edits u + edits) (plan_name u) (plan_renewal_date u).

Section Operations.
(** The values [secrets.token_hex(24)] returns, by number of the draw. *)
Variable token_hex : nat -> string.
Variable hash_password : string -> string.

(** [_generate_api_key(session)]: [drawn] counts the draws made so far;
    the result is the key and the new count. *)
Fixpoint _generate_api_key (fuel : nat) (rows : list User) (drawn : nat)
    : option (string * nat) :=
  match fuel with
  | O => None
  | S fuel' =>
      let key := token_hex drawn in
      match query_first (has_api_key key) rows with
      | Some _ => _generate_api_key fuel' rows (S drawn)
      | None => Some (key, S drawn)
      end
  end.

Definition create_user (fuel : nat) (email password : string)
    (rows : list User) (drawn : nat) : list User * nat * outcome User :=
  match query_first (has_email email) rows with
  | Some _ => (rows, drawn, Raised (ValueError "User already exists"))
  | None =>
      match _generate_api_key fuel rows drawn with
      | None => (rows, drawn, Diverged)
      | Some (key, drawn') =>
          let user := mkUser email (hash_password password) key 0 0 "Free" None in
          if violates_unique user rows then
            (rows, drawn',
             Raised (ValueError "User already exists or database constraint violated"))
          else ((rows ++ [user])%list, drawn', Returned user)
      end
  end.

Definition get_user_by_email (email : string) (rows : list User) : option User :=
  query_first (has_email email) rows.

Definition regenerate_api_key (fuel : nat) (email : string)
    (rows : list User) (drawn : nat) : list User * nat * outcome string :=
  match query_first (has_email email) rows with
  | None => (rows, drawn, Raised (ValueError "User not found"))
  | Some user =>
      match _generate_api_key fuel rows drawn with
      | None => (rows, drawn, Diverged)
      | Some (new_key, drawn') =>
          if existsb (has_api_key new_key) (others (has_email email) rows) then
            (rows, drawn', Raised IntegrityError)
          else (update_first (has_email email) (set_api_key new_key) rows,
                drawn', Returned new_key)
      end
  end.

End Operations.

(** [increment_usage(email, edits)], for counters that stay SQLite
    INTEGERs; [Commit.increment_usage] below has the commit that raises
    otherwise. *)
Definition increment_usage (email : string) (edits : Z) (rows : list User) : list User :=
  match query_first (has_email email) rows with
  | None => rows
  | Some _ => update_first (has_email email) (add_edits edits) rows
  end.

End Database.

(** ** app/integrations/automation_client.py and app/main.py *)
Module Main.
Import Database.

(** The JSON a handler returns, or the detail of an [HTTPException]. *)
Inductive body : Type :=
  | automation_body (status : string) (automationResponse : bool)
  | detail_body (detail : string).

Record response : Type := Response { status_code : nat; content : body }.

Section Handlers.
(** [decode_access_token(token)]: the claims of the payload, [None] on a
    [JWTError]. *)
Variable decode_access_token : string -> option (list (string * string)).
(** [client.post(AUTOMATION_URL, headers)] by the [x-api-key] sent: the
    status code of the answer, [None] when the call raises. *)
Variable post_automation : string -> option nat.

Definition trigger_automation (user_api_key : string) : bool :=
  match post_automation user_api_key with
  | Some code => (code =? 200)%nat
  | None => false
  end.

Definition payload_get (key : string) (payload : list (string * string)) : option string :=
  match List.find (fun kv => String.eqb (fst kv) key) payload with
  | Some kv => Some (snd kv)
  | None => None
  end.

(** [get_current_user]: [inl] is the [HTTPException] raised. *)
Definition get_current_user (token : string) (rows : list User) : response + User :=
  match decode_access_token token with
  | None | Some [] => inl (Response 401 (detail_body "Invalid authentication credentials"))
  | Some payload =>
      match payload_get "sub" payload with
      | None => inl (Response 404 (detail_body "User not found"))
      | Some email =>
          match get_user_by_email email rows with
          | None => inl (Response 404 (detail_body "User not found"))
          | Some user => inr user
          end
      end
  end.

Definition automation_run (current_user : User) (rows : list User)
    : list User * body :=
  let api_key := api_key current_user in
  let result := trigger_automation api_key in
  let rows' := increment_usage (email current_user) 1 rows in
  (rows', automation_body "started" result).

(** [POST /automation/run]: the dependency [get_current_user], then the
    handler, whose return value is sent with status 200. *)
Definition post_automation_run (token : string) (rows : list User)
    : list User * response :=
  match get_current_user token rows with
  | inl err => (rows, err)
  | inr current_user =>
      let '(rows', b) := automation_run current_user rows in
      (rows', Response 200 b)
  end.

End Handlers.

(** A table, a token decoder and automation services to run the handler
    on. *)
Definition alice : User := mkUser "alice@example.com" "hash" "key-1" 4 9 "Free" None.
Definition bob : User := mkUser "bob@example.com" "hash" "key-2" 0 0 "Free" None.
Definition decode_demo (token : string) : option (list (string * string)) :=
  if String.eqb token "token-alice" then Some [("sub", "alice@example.com")] else None.
Definition service_answers (code : nat) (user_api_key : string) : option nat := Some code.
Definition service_unreachable (user_api_key : string) : option nat := None.

(** A status that tells the caller of a failure: an error code, or a
    [status] field other than ["started"]. *)
Definition failure_status (r : response) : bool :=
  (400 <=? status_code r)%nat
  || match content r with
     | automation_body status _ => negb (String.eqb status "started")
     | detail_body _ => true
     end.

End Main.

(** ** modules/badge_shapes.py: drawing *)
Module BadgeDraw.
Import BadgeShapes.

(** The calls [draw_shape] makes on the [ImageDraw] object. *)
Inductive draw_call : Type :=
  | draw_ellipse (x0 y0 x1 y1 : Z) (fill : string)
  | draw_polygon (points : list (R * R)) (fill : string).

Definition draw_shape (shape_type fill_color : string) (x y size : Z) : list draw_call :=
  match get_polygon_for_shape shape_type x y size with
  | circle cx cy r => [draw_ellipse (cx - r) (cy - r) (cx + r) (cy + r) fill_color]
  | polygon data => [draw_polygon data fill_color]
  | none => []
  end.

End BadgeDraw.

(** ** modules/image_composer.py: drawing the price text *)
Module PriceText.
Import ImageComposer.

Definition LINE_SPACING : Z := 4.
Definition CANVAS_SIZE : Z * Z := (1080, 1080).
Definition MARGIN : Z := 40.
Definition DISCLAIMER_TEXT : string := "*Prices are subject to change at any time.".

(** A call [draw.text((x, y), line, fill=.., font=..)]. *)
Record text_call : Type := TextCall {
  text_x : Q;
  text_y : Q;
  text_line : string;
  text_fill : string;
  text_font : font
}.

Section Drawing.
Variable textlength : string -> font -> Q.
(** [font.getbbox(line)[3] - font.getbbox(line)[1]] *)
Variable line_height : string -> font -> Q.

(** [sum(height(line) for line in lines) + (len(lines) - 1) * LINE_SPACING] *)
Definition total_height (use_font : font) (lines : list string) : Q :=
  (foldl (fun acc line => acc + line_height line use_font) 0 lines
   + inject_Z (Z.of_nat (length lines) - 1) * inject_Z LINE_SPACING)%Q.

(** The loop [for line in lines] that draws the text. *)
Fixpoint draw_lines (bx badge_size : Z) (text_color : string) (use_font : font)
    (lines : list string) (start_y : Q) : list text_call :=
  match lines with
  | [] => []
  | line :: lines' =>
      let w := textlength line use_font in
      TextCall (inject_Z bx + (inject_Z badge_size - w) / 2) start_y line text_color use_font
      :: draw_lines bx badge_size text_color use_font lines'
           (start_y + (line_height line use_font + inject_Z LINE_SPACING))
  end%Q.

(** Steps 3 and 4 of [compose_image] after the choice of the font: the
    badge position, the text colour, and the text calls. *)
Definition draw_price_text (badge_color : string) (use_font : font)
    (lines : list string) : list text_call :=
  let badge_size := BADGE_SIZE in
  let bx := fst CANVAS_SIZE - badge_size - MARGIN in
  let by_ := MARGIN in
  let text_color := get_contrast_color badge_color in
  let total_h := total_height use_font lines in
  let start_y := (inject_Z by_ + (inject_Z badge_size - total_h) / 2)%Q in
  draw_lines bx badge_size text_color use_font lines start_y.

(** Step 4 of [compose_image] as a whole. *)
Definition compose_image_text (truetype_ok : bool) (badge_color price_text : string)
    : list text_call :=
  let '(use_font, lines) := compose_image_price_lines textlength truetype_ok price_text in
  draw_price_text badge_color use_font lines.

(** Step 5 of [compose_image], the disclaimer; [arial_ok] tells whether
    [ImageFont.truetype("arial.ttf", 24)] loads. *)
Definition draw_disclaimer (arial_ok : bool) : list text_call :=
  let small_font := if arial_ok then truetype "arial.ttf" 24 else load_default in
  let dw := textlength DISCLAIMER_TEXT small_font in
  [TextCall (inject_Z (fst CANVAS_SIZE) - dw - inject_Z MARGIN)%Q
            (inject_Z (snd CANVAS_SIZE - 50)) DISCLAIMER_TEXT "#777" small_font].

(** Every [draw.text] call of a run of [compose_image] that gets as far as
    step 5, in order: those of step 4, then the disclaimer. *)
Definition compose_image_draw_text (truetype_ok arial_ok : bool)
    (badge_color price_text : string) : list text_call :=
  (compose_image_text truetype_ok badge_color price_text ++ draw_disclaimer arial_ok)%list.

End Drawing.

End PriceText.

(** ** modules/composer_utils.py *)
Module ComposerUtils.
Import ImageComposer.

(** [s.split()]: the maximal runs of characters that are not white space. *)
Fixpoint split_ws (s : string) : list string :=
  match s with
  | EmptyString => []
  | String c s' =>
      if Py.isspace c then split_ws s'
      else
        match s' with
        | EmptyString => [String c EmptyString]
        | String c' _ =>
            if Py.isspace c' then String c EmptyString :: split_ws s'
            else match split_ws s' with
                 | w :: ws => String c w :: ws
                 | [] => [String c EmptyString]
                 end
        end
  end.

(** A word: not empty and without a white-space character. *)
Definition is_word (w : string) : bool :=
  Py.truthy w && forallb (fun c => negb (Py.isspace c)) (list_ascii_of_string w).

(** [" ".join(words)] *)
Fixpoint join_words (words : list string) : string :=
  match words with
  | [] => EmptyString
  | [w] => w
  | w :: words' => w ++ " " ++ join_words words'
  end.

Section WrapText.
Variable textlength : string -> font -> Q.

(** One iteration of the loop of [wrap_text]: the current line is closed
    even when it is empty. *)
Definition wrap_step (f : font) (max_width : Q) (st : wrap_state) (w : string)
    : wrap_state :=
  let test := Py.strip (current st ++ " " ++ w) in
  if Qle_bool (textlength test f) max_width then
    WrapState (lines st) test
  else
    WrapState (lines st ++ [current st])%list w.

Definition wrap_text (text : string) (f : font) (max_width : Q) : list string :=
  let words := split_ws text in
  let st := foldl (wrap_step f max_width) (WrapState [] EmptyString) words in
  if Py.truthy (current st) then (lines st ++ [current st])%list else lines st.

End WrapText.

End ComposerUtils.

(** ** modules/processor.py: the calls of a run *)
Module ProcessorCalls.
Import Processor.

(** The arguments of the [compose_image] calls of a trace, in order. *)
Fixpoint compose_calls (tr : list event) : list (string * string * string) :=
  match tr with
  | [] => []
  | Ev_compose_image p t o :: tr' => (p, t, o) :: compose_calls tr'
  | _ :: tr' => compose_calls tr'
  end.

(** The rows with a non-empty image URL, with the arguments [compose_image]
    gets for them; [i] is the index of the first row. *)
Fixpoint rows_with_image (i : nat) (values : list (list string))
    : list (string * string * string) :=
  match values with
  | [] => []
  | row :: values' =>
      match row !! 0%nat, row !! 1%nat with
      | Some url, Some price =>
          if Py.truthy url
          then (url, price, output_path i) :: rows_with_image (S i) values'
          else rows_with_image (S i) values'
      | _, _ => rows_with_image (S i) values'
      end
  end.

End ProcessorCalls.

(** ** app/config.py *)
Module Config.

(** The value of a class attribute of [Settings]. *)
Inductive value : Type :=
  | env_value (v : option string)
  | str_value (s : string)
  | timedelta_minutes (minutes : Z).

Section Settings.
(** [os.getenv("SECRET_KEY")], [int(os.getenv("ACCESS_TOKEN_EXPIRE", "60"))]
    and [os.getenv("AUTOMATION_API_URL")] *)
Variable SECRET_KEY : option string.
Variable ACCESS_TOKEN_EXPIRE : Z.
Variable AUTOMATION_API_URL : option string.

(** The attributes of the class [Settings], by name; its instance
    [settings] has no others. *)
Definition settings : list (string * value) :=
  [("SECRET_KEY", env_value SECRET_KEY);
   ("ALGORITHM", str_value "HS256");
   ("ACCESS_TOKEN_EXPIRES", timedelta_minutes ACCESS_TOKEN_EXPIRE);
   ("AUTOMATION_API_URL", env_value AUTOMATION_API_URL)].

End Settings.

(** [getattr(settings, name)]; [None] stands for [AttributeError]. *)
Definition getattr (settings : list (string * value)) (name : string) : option value :=
  match List.find (fun kv => String.eqb (fst kv) name) settings with
  | Some kv => Some (snd kv)
  | None => None
  end.

End Config.

(** ** app/auth.py *)
Module Auth.

Inductive exn : Type :=
  | UnicodeEncodeError
  | AttributeError (name : string)
  | TypeError
  | JWTError.

Section Normalize.
(** [hashlib.sha256(b).digest()] *)
Variable sha256 : list N -> list N.

Definition _normalize_password_for_bcrypt (password : PyStr.str) : exn + list N :=
  match PyStr.encode_utf8 password with
  | None => inl UnicodeEncodeError
  | Some b => inr (if (72 <? length b)%nat then sha256 b else b)
  end.

End Normalize.

Section Token.
Variable settings : list (string * Config.value).
(** [jwt.encode(to_encode, key, algorithm=algorithm)] by the claims given,
    the claim ["exp"], the key and the algorithm *)
Variable jwt_encode : list (string * string) -> Z -> Config.value -> Config.value
                      -> exn + string.
(** [datetime.utcnow()], in minutes *)
Variable utcnow : Z.

(** [settings.<name>] *)
Definition attribute (name : string) : exn + Config.value :=
  match Config.getattr settings name with
  | Some v => inr v
  | None => inl (AttributeError name)
  end.

(** [create_access_token(data, expires_delta)]; [expires_delta] is a number
    of minutes, [None] when the argument is left out. A [timedelta] of
    zero is false, as [None] is. *)
Definition create_access_token (data : list (string * string))
    (expires_delta : option Z) : exn + string :=
  let to_encode := data in
  let delta :=
    match expires_delta with
    | Some d => if d =? 0 then attribute "access_token_expires"
                else inr (Config.timedelta_minutes d)
    | None => attribute "access_token_expires"
    end in
  match delta with
  | inl e => inl e
  | inr (Config.timedelta_minutes d) =>
      let expire := utcnow + d in
      match attribute "SECRET_KEY", attribute "ALGORITHM" with
      | inr key, inr algorithm => jwt_encode to_encode expire key algorithm
      | inl e, _ | _, inl e => inl e
      end
  | inr _ => inl TypeError
  end.

End Token.

End Auth.

(** ** app/database.py and app/main.py: accounts *)
Module Accounts.
Import Database.

Definition get_user_by_api_key (api_key : string) (rows : list User) : option User :=
  query_first (has_api_key api_key) rows.

(** What a handler of [main.py] answers: its JSON, or the [HTTPException]
    it raises. *)
Inductive answer : Type :=
  | token_response (access_token token_type : string)
  | api_key_response (apiKey : string)
  | http_exception (status_code : nat) (detail : string).

Definition str_exn (e : exn) : string :=
  match e with
  | ValueError msg => msg
  | IntegrityError => "IntegrityError"
  end.

(** [global_exception_handler(request, exc)] *)
Definition global_exception_handler : answer :=
  http_exception 500 "Internal server error".

Section Handlers.
Variable token_hex : nat -> string.
Variable hash_password : string -> string.
(** [verify_password(plain_password, hashed_password)] *)
Variable verify_password : string -> string -> bool.
Variable settings : list (string * Config.value).
Variable jwt_encode : list (string * string) -> Z -> Config.value -> Config.value
                      -> Auth.exn + string.
Variable utcnow : Z.

(** [create_access_token({"sub": email})] *)
Definition create_access_token (email : string) : Auth.exn + string :=
  Auth.create_access_token settings jwt_encode utcnow [("sub", email)] None.

Definition authenticate_user (email password : string) (rows : list User) : option User :=
  match get_user_by_email email rows with
  | Some user =>
      if verify_password password (hashed_password user) then Some user else None
  | None => None
  end.

(** [POST /auth/signup]; [None] when [create_user] does not return. An
    exception that is not an [HTTPException] is answered by the global
    handler. *)
Definition signup (fuel : nat) (email password confirmPassword : string)
    (rows : list User) (drawn : nat) : list User * nat * option answer :=
  if negb (String.eqb password confirmPassword) then
    (rows, drawn, Some (http_exception 400 "Passwords do not match"))
  else
    match create_user token_hex hash_password fuel email password rows drawn with
    | (rows', drawn', Raised (ValueError msg)) =>
        (rows', drawn', Some (http_exception 400 msg))
    | (rows', drawn', Raised IntegrityError) =>
        (rows', drawn', Some global_exception_handler)
    | (rows', drawn', Diverged) => (rows', drawn', None)
    | (rows', drawn', Returned _) =>
        match create_access_token email with
        | inr token => (rows', drawn', Some (token_response token "bearer"))
        | inl _ => (rows', drawn', Some global_exception_handler)
        end
    end.

(** [POST /auth/login] *)
Definition login (email password : string) (rows : list User) : answer :=
  match authenticate_user email password rows with
  | None => http_exception 400 "Incorrect email or password"
  | Some _ =>
      match create_access_token email with
      | inr token => token_response token "bearer"
      | inl _ => global_exception_handler
      end
  end.

(** [GET /user/api-key] for the authenticated user *)
Definition get_api_key (current_user : User) : answer :=
  api_key_response (api_key current_user).

(** [POST /user/api-key/regenerate] for the authenticated user; [None]
    when [regenerate_api_key] does not return. *)
Definition regenerate_api_key_endpoint (fuel : nat) (current_user : User)
    (rows : list User) (drawn : nat) : list User * nat * option answer :=
  match regenerate_api_key token_hex fuel (email current_user) rows drawn with
  | (rows', drawn', Returned new_key) => (rows', drawn', Some (api_key_response new_key))
  | (rows', drawn', Raised _) =>
      (rows', drawn', Some (http_exception 500 "Internal server error"))
  | (rows', drawn', Diverged) => (rows', drawn', None)
  end.

End Handlers.

(** [n] calls of [POST /automation/run] with the same token, one after the
    other. *)
Fixpoint automation_runs (decode_access_token : string -> option (list (string * string)))
    (post_automation : nat -> string -> option nat) (n : nat) (token : string)
    (rows : list User) : list User :=
  match n with
  | O => rows
  | S n' =>
      (Main.post_automation_run decode_access_token (post_automation n') token
         (automation_runs decode_access_token post_automation n' token rows)).1
  end.

End Accounts.

(** ** app/database.py: [increment_usage] and its commit *)
Module Commit.
Import Database.

(** The INTEGER columns of SQLite hold signed 64-bit integers. *)
Definition INTEGER_MIN : Z := - 2 ^ 63.
Definition INTEGER_MAX : Z := 2 ^ 63 - 1.

Definition fits_integer (n : Z) : bool := (INTEGER_MIN <=? n) && (n <=? INTEGER_MAX).

(** A row whose counters the table can hold. *)
Definition storable (u : User) : bool :=
  fits_integer (monthly_edits u) && fits_integer (total_edits u).

Inductive exn : Type := OverflowError.

(** [increment_usage(email, edits)]: the two [+=] are on Python integers;
    [db.commit()] stores the row, or raises [OverflowError] at a counter
    that is no INTEGER and stores nothing. [Database.increment_usage] is
    the table of the first case. *)
Definition increment_usage (email : string) (edits : Z) (rows : list User)
    : list User * option exn :=
  match query_first (has_email email) rows with
  | None => (rows, None)
  | Some user =>
      let user := add_edits edits user in
      if storable user
      then (update_first (has_email email) (add_edits edits) rows, None)
      else (rows, Some OverflowError)
  end.

End Commit.

(** ** automation_server/app.py *)
Module AutomationApp.

(** Truth value of an optional string: [None] and the empty string are
    false. *)
Definition truthy_opt (s : option string) : bool :=
  match s with
  | Some s => Py.truthy s
  | None => false
  end.

Definition option_string_eqb (a b : option string) : bool :=
  match a, b with
  | Some x, Some y => String.eqb x y
  | None, None => true
  | _, _ => false
  end.

(** The worksheet [load_sheet] asks gspread for: by name, or the first
    sheet, of the spreadsheet with the given key. *)
Inductive worksheet : Type :=
  | named_worksheet (key : option string) (name : string)
  | sheet1 (key : option string).

(** The JSON a handler returns, or the [HTTPException] it raises. *)
Inductive answer : Type :=
  | run_response (status mode : string)
  | run_dynamic_response (status mode sheet_id : string) (sheet_name : option string)
  | health_response (status : string)
  | http_exception (status_code : nat) (detail : string).

Definition allowed : list string :=
  ["/openapi.json"; "/docs"; "/redoc"; "/docs/oauth2-redirect"].

Section App.
(** Values of the environment: [None] when a variable is not set. *)
Variable APP_API_KEY : option string.
Variable STATIC_SHEET_ID : option string.
Variable STATIC_SHEET_NAME : option string.
Variable BASE_URL : option string.
(** Whether gspread fails to open the worksheet, and with which message. *)
Variable open_fails : worksheet -> option string.

(** [verify_api_key(x_api_key, request)]: [Some] is the exception raised. *)
Definition verify_api_key (x_api_key : option string) (path : string) : option answer :=
  if existsb (String.eqb path) allowed then None
  else if negb (option_string_eqb x_api_key APP_API_KEY)
       then Some (http_exception 401 "Unauthorized")
       else None.

(** [load_sheet(sheet_id, sheet_name)]: [inl] is the message of the
    exception gspread raises. *)
Definition load_sheet (sheet_id sheet_name : option string) : string + worksheet :=
  let '(sheet_id, sheet_name) :=
    if negb (truthy_opt sheet_id) then (STATIC_SHEET_ID, STATIC_SHEET_NAME)
    else (sheet_id, sheet_name) in
  let sheet :=
    match sheet_name with
    | Some name => if Py.truthy name then named_worksheet sheet_id name else sheet1 sheet_id
    | None => sheet1 sheet_id
    end in
  match open_fails sheet with
  | Some msg => inl msg
  | None => inr sheet
  end.

(** A task [background_tasks.add_task(process_sheet, sheet, BASE_URL)]. *)
Definition task : Type := worksheet * option string.

(** [POST /run]: the tasks scheduled so far, then the new ones and the
    answer; an exception of [load_sheet] is answered with status 500. *)
Definition run (x_api_key : option string) (path : string) (background_tasks : list task)
    : list task * answer :=
  match verify_api_key x_api_key path with
  | Some err => (background_tasks, err)
  | None =>
      match load_sheet None None with
      | inl _ => (background_tasks, http_exception 500 "Internal Server Error")
      | inr sheet =>
          ((background_tasks ++ [(sheet, BASE_URL)])%list,
           run_response "processing_started" "static")
      end
  end.

(** [POST /run-dynamic] with the payload [(sheet_id, sheet_name)] *)
Definition run_dynamic (sheet_id : string) (sheet_name : option string)
    (x_api_key : option string) (path : string) (background_tasks : list task)
    : list task * answer :=
  match verify_api_key x_api_key path with
  | Some err => (background_tasks, err)
  | None =>
      match load_sheet (Some sheet_id) sheet_name with
      | inl _ => (background_tasks, http_exception 500 "Internal Server Error")
      | inr sheet =>
          ((background_tasks ++ [(sheet, BASE_URL)])%list,
           run_dynamic_response "processing_started" "dynamic" sheet_id sheet_name)
      end
  end.

(** [GET /health] *)
Definition health (x_api_key : option string) (path : string) : answer :=
  match verify_api_key x_api_key path with
  | Some err => err
  | None => health_response "ok"
  end.

End App.

End AutomationApp.

Import Py BadgeShapes ImageComposer.

(** * Properties *)

(** ** Characters, decided by enumeration *)

Lemma all_ascii_complete (c : ascii) : In c all_ascii.
Proof.
  rewrite <- (ascii_nat_embedding c). unfold all_ascii.
  apply in_map, in_seq. pose proof (nat_ascii_bounded c). lia.
Qed.

Lemma forall_ascii (P : ascii -> bool) :
  forallb P all_ascii = true -> forall c, P c = true.
Proof.
  intros H c. rewrite forallb_forall in H. apply H, all_ascii_complete.
Qed.

Lemma forall_ascii2 (P : ascii -> ascii -> bool) :
  forallb (fun a => forallb (P a) all_ascii) all_ascii = true ->
  forall a b, P a b = true.
Proof.
  intros H a b.
  apply (forall_ascii (P a)).
  apply (forall_ascii (fun a => forallb (P a) all_ascii) H).
Qed.

Lemma option_Z_eqb_eq a b : option_Z_eqb a b = true -> a = b.
Proof.
  destruct a, b; simpl; intros H; try discriminate; try reflexivity.
  apply Z.eqb_eq in H. now subst.
Qed.

(** [int(s, 16)] on two hexadecimal digits is the value of the numeral. *)
Lemma int16_two_digits c1 c2 d1 d2 :
  hex_digit c1 = Some d1 -> hex_digit c2 = Some d2 ->
  int16 (String c1 (String c2 EmptyString)) = Some (16 * d1 + d2).
Proof.
  intros H1 H2.
  pose proof (forall_ascii2
    (fun a b => match hex_digit a, hex_digit b with
                | Some x, Some y =>
                    option_Z_eqb (int16 (String a (String b EmptyString)))
                                 (Some (16 * x + y))
                | _, _ => true
                end)) as H.
  specialize (H ltac:(vm_compute; reflexivity) c1 c2).
  cbv beta in H. rewrite H1, H2 in H.
  now apply option_Z_eqb_eq.
Qed.

(** [int(s, 16)] rejects a two-character string exactly when it has none of
    the accepted shapes. *)
Lemma int16_accepts2_spec c1 c2 :
  int16 (String c1 (String c2 EmptyString)) = None <->
  int16_accepts2 (String c1 (String c2 EmptyString)) = false.
Proof.
  pose proof (forall_ascii2
    (fun a b => Bool.eqb
       (match int16 (String a (String b EmptyString)) with Some _ => true | None => false end)
       (int16_accepts2 (String a (String b EmptyString))))) as H.
  specialize (H ltac:(vm_compute; reflexivity) c1 c2).
  cbv beta in H. apply Bool.eqb_prop in H.
  destruct (int16 (String c1 (String c2 EmptyString))); rewrite <- H; split; congruence.
Qed.

Lemma hex_digit_not_hash c d : hex_digit c = Some d -> Ascii.eqb c "#" = false.
Proof.
  intros H.
  pose proof (forall_ascii
    (fun a => match hex_digit a with Some _ => negb (Ascii.eqb a "#") | None => true end)
    ltac:(vm_compute; reflexivity) c) as Hc.
  cbv beta in Hc. rewrite H in Hc. now destruct (Ascii.eqb c "#").
Qed.

Lemma hex_digit_range c d : hex_digit c = Some d -> 0 <= d <= 15.
Proof.
  intros H.
  pose proof (forall_ascii
    (fun a => match hex_digit a with Some x => (0 <=? x) && (x <=? 15) | None => true end)
    ltac:(vm_compute; reflexivity) c) as Hc.
  cbv beta in Hc. rewrite H in Hc. lia.
Qed.

(** ** get_contrast_color *)

Lemma brightness_is_luminance r g b :
  ((r * 299 + g * 587 + b * 114) # 1000 == luminance r g b)%Q.
Proof.
  unfold luminance, Qeq, Qplus, Qmult, inject_Z. simpl. lia.
Qed.

Lemma Qgt_bool_iff a b : Qgt_bool a b = true <-> (b < a)%Q.
Proof.
  unfold Qgt_bool. rewrite Bool.negb_true_iff.
  split.
  - intros H. apply Qnot_le_lt. intros Hle. apply Qle_bool_iff in Hle. congruence.
  - intros H. destruct (Qle_bool a b) eqn:E; [|reflexivity].
    apply Qle_bool_iff in E. exfalso. apply (Qlt_not_le _ _ H E).
Qed.

Lemma get_contrast_color_hex6 c1 c2 c3 c4 c5 c6 d1 d2 d3 d4 d5 d6 :
  hex_digit c1 = Some d1 -> hex_digit c2 = Some d2 -> hex_digit c3 = Some d3 ->
  hex_digit c4 = Some d4 -> hex_digit c5 = Some d5 -> hex_digit c6 = Some d6 ->
  get_contrast_color
    (String c1 (String c2 (String c3 (String c4 (String c5 (String c6 EmptyString))))))
  = if Qgt_bool (((16 * d1 + d2) * 299 + (16 * d3 + d4) * 587 + (16 * d5 + d6) * 114) # 1000) 160
    then "black" else "white".
Proof.
  intros H1 H2 H3 H4 H5 H6.
  unfold get_contrast_color. cbn [remove_char].
  rewrite (hex_digit_not_hash _ _ H1), (hex_digit_not_hash _ _ H2),
    (hex_digit_not_hash _ _ H3), (hex_digit_not_hash _ _ H4),
    (hex_digit_not_hash _ _ H5), (hex_digit_not_hash _ _ H6).
  cbn [String.length Nat.eqb negb slice substring Nat.sub].
  rewrite (int16_two_digits _ _ _ _ H1 H2), (int16_two_digits _ _ _ _ H3 H4),
    (int16_two_digits _ _ _ _ H5 H6).
  reflexivity.
Qed.

Lemma get_contrast_color_hash s : get_contrast_color (String "#" s) = get_contrast_color s.
Proof. reflexivity. Qed.

(** C5: for a colour of six hexadecimal digits, with or without the leading
    [#], with components R, G and B, [get_contrast_color] answers "black"
    when the luminance 0.299 R + 0.587 G + 0.114 B is above 160 and "white"
    otherwise; [#A0A0A0], of luminance exactly 160, gets "white". *)
Theorem C5_contrast_color_by_luminance c1 c2 c3 c4 c5 c6 d1 d2 d3 d4 d5 d6 :
  hex_digit c1 = Some d1 -> hex_digit c2 = Some d2 -> hex_digit c3 = Some d3 ->
  hex_digit c4 = Some d4 -> hex_digit c5 = Some d5 -> hex_digit c6 = Some d6 ->
  let R := 16 * d1 + d2 in
  let G := 16 * d3 + d4 in
  let B := 16 * d5 + d6 in
  let color := String c1 (String c2 (String c3 (String c4 (String c5 (String c6 EmptyString))))) in
  (0 <= R <= 255 /\ 0 <= G <= 255 /\ 0 <= B <= 255) /\
  get_contrast_color (String "#" color) = get_contrast_color color /\
  ((160 < luminance R G B)%Q -> get_contrast_color color = "black") /\
  ((luminance R G B <= 160)%Q -> get_contrast_color color = "white") /\
  (luminance 160 160 160 == 160)%Q /\
  get_contrast_color "#A0A0A0" = "white".
Proof.
  intros H1 H2 H3 H4 H5 H6 R G B color.
  pose proof (hex_digit_range _ _ H1). pose proof (hex_digit_range _ _ H2).
  pose proof (hex_digit_range _ _ H3). pose proof (hex_digit_range _ _ H4).
  pose proof (hex_digit_range _ _ H5). pose proof (hex_digit_range _ _ H6).
  split; [subst R G B; lia|].
  split; [apply get_contrast_color_hash|].
  unfold color. rewrite (get_contrast_color_hex6 _ _ _ _ _ _ _ _ _ _ _ _ H1 H2 H3 H4 H5 H6).
  fold R G B.
  destruct (Qgt_bool ((R * 299 + G * 587 + B * 114) # 1000) 160) eqn:E.
  - apply Qgt_bool_iff in E. rewrite brightness_is_luminance in E.
    repeat split; try reflexivity.
    intros Hle. exfalso. apply (Qlt_not_le _ _ E Hle).
  - assert (~ (160 < luminance R G B)%Q) as Hn.
    { intros Hlt. rewrite <- brightness_is_luminance in Hlt.
      apply Qgt_bool_iff in Hlt. congruence. }
    repeat split; try reflexivity.
    intros Hlt. contradiction.
Qed.

Lemma C5_contrast_color_by_luminance_witness :
  get_contrast_color "#FFD700" = "black" /\ get_contrast_color "1A2b3C" = "white".
Proof.
  pose proof (C5_contrast_color_by_luminance "F" "F" "D" "7" "0" "0" 15 15 13 7 0 0
    eq_refl eq_refl eq_refl eq_refl eq_refl eq_refl) as [_ [Hh [Hb _]]].
  pose proof (C5_contrast_color_by_luminance "1" "A" "2" "b" "3" "C" 1 10 2 11 3 12
    eq_refl eq_refl eq_refl eq_refl eq_refl eq_refl) as [_ [_ [_ [Hw _]]]].
  split.
  - rewrite <- (Hb ltac:(vm_compute; reflexivity)). exact Hh.
  - apply Hw. vm_compute. discriminate.
Defined.

Lemma string_length6 (s : string) :
  String.length s = 6%nat ->
  exists c1 c2 c3 c4 c5 c6,
    s = String c1 (String c2 (String c3 (String c4 (String c5 (String c6 EmptyString))))).
Proof.
  intros H.
  destruct s as [|c1 [|c2 [|c3 [|c4 [|c5 [|c6 [|c7 s]]]]]]]; simpl in H; try discriminate.
  now exists c1, c2, c3, c4, c5, c6.
Qed.

(** *** [int(s, 16)] and [get_contrast_color] on every [str] *)

Lemma forall_N256 (P : N -> bool) :
  forallb (fun a => P (N_of_ascii a)) all_ascii = true ->
  forall n, (n < 256)%N -> P n = true.
Proof.
  intros H n Hn. rewrite <- (N_ascii_embedding n Hn).
  apply (forall_ascii (fun a => P (N_of_ascii a)) H).
Qed.

(** Comparisons of code points that the hypotheses decide. *)
Ltac N_compare :=
  repeat match goal with
         | |- context [(?a <=? ?b)%N] => destruct (N.leb_spec a b); try lia
         | |- context [(?a <? ?b)%N] => destruct (N.ltb_spec a b); try lia
         | |- context [(?a =? ?b)%N] => destruct (N.eqb_spec a b); try lia
         end;
  try reflexivity.

Lemma find_existsb {A : Type} (p : A -> bool) (l : list A) :
  existsb p l = false -> List.find p l = None.
Proof.
  induction l as [|x l IH]; [reflexivity|]. cbn [existsb List.find].
  destruct (p x); [discriminate|]. exact IH.
Qed.

Section DecimalFacts.
Variable decimal_zeros : list N.
Hypothesis decimal_zeros_good : PyStr.decimal_zeros_ok decimal_zeros = true.

Local Abbreviation to_decimal := (PyStr.to_decimal decimal_zeros).
Local Abbreviation transform_char := (PyStr.transform_char decimal_zeros).

Lemma isspace_not_decimal (ch : N) : PyStr.isspace ch = true -> to_decimal ch = None.
Proof.
  pose proof decimal_zeros_good as Hok. unfold PyStr.decimal_zeros_ok in Hok.
  apply andb_true_iff in Hok as [_ Hok]. rewrite forallb_forall in Hok.
  unfold PyStr.isspace. intros H. apply existsb_exists in H as (w & Hin & Hw).
  apply N.eqb_eq in Hw. subst w. specialize (Hok ch Hin).
  apply Bool.negb_true_iff in Hok. unfold PyStr.to_decimal.
  now rewrite (find_existsb _ _ Hok).
Qed.

Lemma to_decimal_lt (ch d : N) : to_decimal ch = Some d -> (d < 10)%N.
Proof.
  unfold PyStr.to_decimal.
  destruct (List.find _ decimal_zeros) as [z|] eqn:Hf; [|discriminate].
  apply find_some in Hf as [_ Hz]. unfold PyStr.in_run in Hz.
  apply andb_true_iff in Hz as [Hz1 Hz2].
  apply N.leb_le in Hz1. apply N.ltb_lt in Hz2. intros [= <-]. lia.
Qed.

(** Below 256 the decimal digits are 0 to 9, whatever the tables. *)
Lemma to_decimal_latin1 (ch : N) :
  (ch < 256)%N -> to_decimal ch = PyStr.to_decimal [48%N] ch.
Proof.
  intros Hch. pose proof decimal_zeros_good as Hok. unfold PyStr.decimal_zeros_ok in Hok.
  apply andb_true_iff in Hok as [Hok _]. apply andb_true_iff in Hok as [H48 Hall].
  unfold PyStr.to_decimal. cbn [List.find].
  assert (Hfind : List.find (PyStr.in_run ch) decimal_zeros
                  = if PyStr.in_run ch 48 then Some 48%N else None).
  { clear decimal_zeros_good.
    induction decimal_zeros as [|z zeros IH]; [discriminate|].
    cbn [existsb forallb List.find] in *.
    apply andb_true_iff in Hall as [Hz Hall].
    destruct (N.eqb_spec 48 z) as [<-|Hne].
    - destruct (PyStr.in_run ch 48) eqn:E; [reflexivity|].
      destruct (existsb (N.eqb 48) zeros) eqn:E48.
      + rewrite (IH eq_refl Hall). reflexivity.
      + apply find_existsb. clear IH E48.
        induction zeros as [|y zeros IH]; [reflexivity|]. cbn [forallb existsb] in *.
        apply andb_true_iff in Hall as [Hy Hall]. rewrite (IH Hall), orb_false_r.
        destruct (N.eqb_spec y 48) as [->|Hy48]; [exact E|].
        cbn [orb] in Hy. apply N.leb_le in Hy. unfold PyStr.in_run. N_compare.
    - cbn [orb] in H48.
      assert (PyStr.in_run ch z = false) as ->.
      { destruct (N.eqb_spec z 48) as [->|_]; [congruence|].
        cbn [orb] in Hz. apply N.leb_le in Hz. unfold PyStr.in_run. N_compare. }
      exact (IH H48 Hall). }
  rewrite Hfind. now destruct (PyStr.in_run ch 48).
Qed.

Lemma transform_char_latin1 (ch : N) :
  (ch < 256)%N -> transform_char ch = PyStr.transform_char [48%N] ch.
Proof.
  intros H. unfold PyStr.transform_char. now rewrite (to_decimal_latin1 ch H).
Qed.

(** The ASCII digit written for a decimal digit of value [d]. *)
Lemma decimal_digit_char (d : N) :
  (d < 10)%N ->
  hex_digit (ascii_of_N (48 + d)) = Some (Z.of_N d) /\
  is_hex (ascii_of_N (48 + d)) = true /\
  int_space (ascii_of_N (48 + d)) = false /\
  Ascii.eqb (ascii_of_N (48 + d)) "+" = false /\
  Ascii.eqb (ascii_of_N (48 + d)) "-" = false.
Proof.
  intros Hd.
  assert (d = 0 \/ d = 1 \/ d = 2 \/ d = 3 \/ d = 4 \/ d = 5 \/ d = 6 \/ d = 7
          \/ d = 8 \/ d = 9)%N as H by lia.
  repeat (destruct H as [->|H]; [vm_compute; repeat split; reflexivity|]).
  subst d. vm_compute. repeat split; reflexivity.
Qed.

(** What [int(., 16)] makes of a code point depends on the character
    written for it only: a digit for a digit, a white space for a white
    space, a sign for a sign. *)
Lemma transform_char_class (ch : N) :
  is_hex (transform_char ch) = ContrastColor.is_digit16 decimal_zeros ch /\
  int_space (transform_char ch) = ContrastColor.int_space ch /\
  Ascii.eqb (transform_char ch) "+" = (ch =? 43)%N /\
  Ascii.eqb (transform_char ch) "-" = (ch =? 45)%N.
Proof.
  destruct (N.lt_ge_cases ch 256) as [Hlt|Hge].
  - unfold ContrastColor.is_digit16.
    rewrite (transform_char_latin1 ch Hlt), (to_decimal_latin1 ch Hlt).
    pose proof (forall_N256
      (fun n => Bool.eqb (is_hex (PyStr.transform_char [48%N] n))
                         (ContrastColor.is_digit16 [48%N] n)
                && Bool.eqb (int_space (PyStr.transform_char [48%N] n))
                            (ContrastColor.int_space n)
                && Bool.eqb (Ascii.eqb (PyStr.transform_char [48%N] n) "+") (n =? 43)%N
                && Bool.eqb (Ascii.eqb (PyStr.transform_char [48%N] n) "-") (n =? 45)%N)
      ltac:(vm_compute; reflexivity) ch Hlt) as H.
    cbv beta in H. repeat (apply andb_true_iff in H as [H ?]).
    repeat split; now apply Bool.eqb_prop.
  - assert (Hhex : ContrastColor.is_hex ch = false).
    { unfold ContrastColor.is_hex. N_compare. }
    assert (H43 : (ch =? 43)%N = false) by N_compare.
    assert (H45 : (ch =? 45)%N = false) by N_compare.
    assert (Hsp : ContrastColor.int_space ch = PyStr.isspace ch).
    { unfold ContrastColor.int_space. N_compare. }
    unfold PyStr.transform_char, ContrastColor.is_digit16.
    replace (ch <? 127)%N with false by N_compare.
    rewrite Hhex, Hsp, H43, H45. cbn [orb].
    destruct (PyStr.isspace ch) eqn:Es.
    + rewrite (isspace_not_decimal _ Es). repeat split; reflexivity.
    + destruct (to_decimal ch) as [d|] eqn:Ed.
      * destruct (decimal_digit_char d (to_decimal_lt _ _ Ed)) as (_ & H1 & H2 & H3 & H4).
        repeat split; assumption.
      * repeat split; reflexivity.
Qed.

Lemma transform_loop_one (ch : N) :
  PyStr.transform_loop decimal_zeros [ch] = String (transform_char ch) EmptyString.
Proof.
  unfold PyStr.transform_char. cbn [PyStr.transform_loop].
  destruct (ch <? 127)%N; [reflexivity|].
  destruct (PyStr.isspace ch); [reflexivity|].
  now destruct (to_decimal ch).
Qed.

(** No literal has a question mark or the character 127. *)
Lemma int16_no_literal (x : ascii) :
  int16 (String "?" (String x EmptyString)) = None /\
  int16 (String x (String "?" EmptyString)) = None /\
  int16 (String (ascii_of_N 127) (String x EmptyString)) = None /\
  int16 (String x (String (ascii_of_N 127) EmptyString)) = None.
Proof.
  pose proof (forall_ascii
    (fun x => option_Z_eqb (int16 (String "?" (String x EmptyString))) None
              && option_Z_eqb (int16 (String x (String "?" EmptyString))) None
              && option_Z_eqb (int16 (String (ascii_of_N 127) (String x EmptyString))) None
              && option_Z_eqb (int16 (String x (String (ascii_of_N 127) EmptyString))) None)
    ltac:(vm_compute; reflexivity) x) as H.
  cbv beta in H. repeat (apply andb_true_iff in H as [H ?]).
  repeat split; now apply option_Z_eqb_eq.
Qed.

Lemma transform_char_127 : transform_char 127 = "?"%char.
Proof. now rewrite transform_char_latin1. Qed.

Lemma transform_char_ascii (ch : N) :
  (ch < 128)%N ->
  transform_char ch = ascii_of_N ch \/ ch = 127%N /\ transform_char ch = "?"%char.
Proof.
  intros H. destruct (N.eq_dec ch 127%N) as [->|Hne].
  - right. split; [reflexivity|apply transform_char_127].
  - left. unfold PyStr.transform_char. now replace (ch <? 127)%N with true by N_compare.
Qed.

(** [int(s, 16)] on two code points is [int(., 16)] on the two characters
    written for them. *)
Lemma int16_two_chars (c1 c2 : N) :
  PyStr.int16 decimal_zeros [c1; c2]
  = int16 (String (transform_char c1) (String (transform_char c2) EmptyString)).
Proof.
  unfold PyStr.int16, PyStr.transform. cbn [PyStr.is_ascii forallb andb].
  destruct (c1 <? 128)%N eqn:E1; cbn [andb].
  - destruct (c2 <? 128)%N eqn:E2; cbn [andb].
    + cbn [map string_of_list_ascii].
      apply N.ltb_lt in E1, E2.
      destruct (transform_char_ascii c1 E1) as [->|[-> ->]].
      * destruct (transform_char_ascii c2 E2) as [->|[-> ->]]; [reflexivity|].
        destruct (int16_no_literal (ascii_of_N c1)) as (_ & -> & _ & ->). reflexivity.
      * destruct (int16_no_literal (ascii_of_N c2)) as (_ & _ & -> & _).
        destruct (int16_no_literal (transform_char c2)) as (-> & _). reflexivity.
    + cbn [PyStr.transform_loop]. fold (PyStr.transform_loop decimal_zeros [c2]).
      rewrite transform_loop_one.
      destruct (N.ltb_spec c1 127) as [Hlt|Hge].
      * set (t2 := transform_char c2). unfold PyStr.transform_char.
        now replace (c1 <? 127)%N with true by N_compare.
      * assert (c1 = 127%N) as -> by (apply N.ltb_lt in E1; lia).
        pose proof transform_char_127 as H127. rewrite H127.
        unfold PyStr.transform_char in H127. cbn [N.ltb N.compare Pos.compare] in H127.
        change (127 <? 127)%N with false in H127. cbv iota in H127.
        destruct (PyStr.isspace 127); [discriminate H127|].
        destruct (to_decimal 127) as [d|] eqn:Ed.
        { exfalso. destruct (decimal_digit_char d (to_decimal_lt _ _ Ed)) as (_ & Hh & _).
          rewrite H127 in Hh. discriminate Hh. }
        destruct (int16_no_literal (transform_char c2)) as (-> & _). reflexivity.
  - cbn [PyStr.transform_loop]. fold (PyStr.transform_loop decimal_zeros [c2]).
    rewrite transform_loop_one.
    set (t2 := transform_char c2). unfold PyStr.transform_char.
    apply N.ltb_ge in E1. replace (c1 <? 127)%N with false by N_compare.
    destruct (PyStr.isspace c1); [reflexivity|].
    destruct (to_decimal c1); [reflexivity|].
    destruct (int16_no_literal t2) as (-> & _). reflexivity.
Qed.

Lemma int16_accepts2_two_chars (c1 c2 : N) :
  ContrastColor.int16_accepts2 decimal_zeros [c1; c2]
  = int16_accepts2 (String (transform_char c1) (String (transform_char c2) EmptyString)).
Proof.
  destruct (transform_char_class c1) as (H1 & H2 & H3 & H4).
  destruct (transform_char_class c2) as (K1 & K2 & _ & _).
  cbn [int16_accepts2 ContrastColor.int16_accepts2].
  now rewrite H1, H2, H3, H4, K1, K2.
Qed.

(** [int(s, 16)] rejects two code points exactly when they have none of the
    accepted shapes. *)
Lemma int16_accepts2_str (c1 c2 : N) :
  PyStr.int16 decimal_zeros [c1; c2] = None <->
  ContrastColor.int16_accepts2 decimal_zeros [c1; c2] = false.
Proof.
  rewrite int16_two_chars, int16_accepts2_two_chars. apply int16_accepts2_spec.
Qed.

Lemma list_length6 (s : PyStr.str) :
  length s = 6%nat -> exists c1 c2 c3 c4 c5 c6, s = [c1; c2; c3; c4; c5; c6].
Proof.
  intros H.
  destruct s as [|c1 [|c2 [|c3 [|c4 [|c5 [|c6 [|c7 s]]]]]]]; simpl in H; try discriminate.
  now exists c1, c2, c3, c4, c5, c6.
Qed.

(** *** The functions on code points below 256 are the restrictions *)

Lemma remove_char_of_latin1 (s : string) :
  PyStr.remove_char 35 (PyStr.of_latin1 s) = PyStr.of_latin1 (remove_char "#" s).
Proof.
  unfold PyStr.of_latin1.
  induction s as [|c s IH]; [reflexivity|].
  cbn [list_ascii_of_string map PyStr.remove_char remove_char].
  assert (Hc : (N_of_ascii c =? 35)%N = Ascii.eqb c "#").
  { apply Bool.eqb_prop.
    apply (forall_ascii (fun a => Bool.eqb (N_of_ascii a =? 35)%N (Ascii.eqb a "#"))).
    vm_compute. reflexivity. }
  rewrite Hc. destruct (Ascii.eqb c "#"); [exact IH|].
  cbn [list_ascii_of_string map]. now rewrite IH.
Qed.

Lemma length_of_latin1 (s : string) : length (PyStr.of_latin1 s) = String.length s.
Proof.
  unfold PyStr.of_latin1. induction s as [|c s IH]; [reflexivity|].
  cbn [list_ascii_of_string map length String.length]. now rewrite IH.
Qed.

Lemma int16_of_latin1 (c1 c2 : ascii) :
  PyStr.int16 decimal_zeros [N_of_ascii c1; N_of_ascii c2]
  = int16 (String c1 (String c2 EmptyString)).
Proof.
  rewrite int16_two_chars.
  rewrite !transform_char_latin1 by apply N_ascii_bounded.
  apply option_Z_eqb_eq.
  apply (forall_ascii2
    (fun a b => option_Z_eqb
                  (int16 (String (PyStr.transform_char [48%N] (N_of_ascii a))
                            (String (PyStr.transform_char [48%N] (N_of_ascii b))
                               EmptyString)))
                  (int16 (String a (String b EmptyString))))).
  vm_compute. reflexivity.
Qed.

(** On a colour of code points below 256, [get_contrast_color] is the
    function of the properties on such colours. *)
Lemma get_contrast_color_of_latin1 (hex_color : string) :
  ContrastColor.get_contrast_color decimal_zeros (PyStr.of_latin1 hex_color)
  = get_contrast_color hex_color.
Proof.
  unfold ContrastColor.get_contrast_color, get_contrast_color.
  rewrite remove_char_of_latin1, length_of_latin1.
  destruct (Nat.eqb_spec (String.length (remove_char "#" hex_color)) 6) as [Hlen|Hlen];
    [|reflexivity].
  destruct (string_length6 _ Hlen) as (c1 & c2 & c3 & c4 & c5 & c6 & ->).
  cbn [negb PyStr.of_latin1 list_ascii_of_string map PyStr.slice take drop Nat.sub
       slice substring].
  now rewrite !int16_of_latin1.
Qed.

Lemma contrast_color_total (hex_color : PyStr.str) :
  ContrastColor.get_contrast_color decimal_zeros hex_color = "black" \/
  ContrastColor.get_contrast_color decimal_zeros hex_color = "white".
Proof.
  unfold ContrastColor.get_contrast_color.
  destruct (negb _); [now right|].
  destruct (PyStr.int16 _ _); [|now right].
  destruct (PyStr.int16 _ _); [|now right].
  destruct (PyStr.int16 _ _); [|now right].
  destruct (Qgt_bool _ _); [now left|now right].
Qed.

(** C10, amended: [get_contrast_color] returns "black" or "white" on every
    [str], and it returns "white" whenever the string, once every [#] is
    removed, is not six characters long, or one of its three two-character
    components has none of the shapes [int(., 16)] accepts: two digits; a
    sign or a white space, then one digit; one digit, then a white space.
    A digit is a hexadecimal digit or a decimal digit of any script, a
    white space is one of the ASCII characters 9 to 13 and 32 or a Unicode
    white space from U+0085 on. Six hexadecimal digits have the accepted
    shape. This holds for the decimal digits of every version of the
    Unicode tables. *)
Theorem C10_contrast_color_total_and_default (hex_color : PyStr.str) :
  let h := PyStr.remove_char 35 hex_color in
  (ContrastColor.get_contrast_color decimal_zeros hex_color = "black" \/
   ContrastColor.get_contrast_color decimal_zeros hex_color = "white") /\
  (length h <> 6%nat \/
   ContrastColor.int16_accepts2 decimal_zeros (PyStr.slice 0 2 h) = false \/
   ContrastColor.int16_accepts2 decimal_zeros (PyStr.slice 2 4 h) = false \/
   ContrastColor.int16_accepts2 decimal_zeros (PyStr.slice 4 6 h) = false ->
   ContrastColor.get_contrast_color decimal_zeros hex_color = "white") /\
  (ContrastColor.six_hex_digits h = true ->
   ContrastColor.int16_accepts2 decimal_zeros (PyStr.slice 0 2 h) = true /\
   ContrastColor.int16_accepts2 decimal_zeros (PyStr.slice 2 4 h) = true /\
   ContrastColor.int16_accepts2 decimal_zeros (PyStr.slice 4 6 h) = true).
Proof.
  intros h. split; [apply contrast_color_total|]. split.
  - intros H. unfold ContrastColor.get_contrast_color. fold h.
    destruct (Nat.eqb_spec (length h) 6) as [Hlen|Hlen]; [|reflexivity].
    destruct H as [H|H]; [contradiction|].
    destruct (list_length6 h Hlen) as (c1 & c2 & c3 & c4 & c5 & c6 & ->).
    cbn [negb PyStr.slice take drop Nat.sub] in *.
    destruct H as [H|[H|H]]; apply int16_accepts2_str in H;
      destruct (PyStr.int16 decimal_zeros [c1; c2]) eqn:E1,
               (PyStr.int16 decimal_zeros [c3; c4]) eqn:E2,
               (PyStr.int16 decimal_zeros [c5; c6]) eqn:E3;
      try reflexivity; congruence.
  - unfold ContrastColor.six_hex_digits. intros H. apply andb_true_iff in H as [Hlen H].
    apply Nat.eqb_eq in Hlen.
    destruct (list_length6 h Hlen) as (c1 & c2 & c3 & c4 & c5 & c6 & ->).
    cbn [forallb PyStr.slice take drop Nat.sub ContrastColor.int16_accepts2] in *.
    repeat (apply andb_true_iff in H as [? H]).
    unfold ContrastColor.is_digit16.
    repeat split; apply orb_true_iff; left; apply orb_true_iff; left;
      apply andb_true_iff; split; apply orb_true_iff; left; assumption.
Qed.

End DecimalFacts.

(** C10, as the specification has it, fails: ["FFFF+F"] is not six
    hexadecimal digits, yet [int("+F", 16)] is 15 and the answer is "black";
    so it is for F9F9F9 written with the fullwidth digit nine (U+FF19),
    which [int(., 16)] reads as 9. *)
Lemma C10_counterexample :
  PyStr.decimal_zeros_ok PyStr.decimal_zeros_14 = true /\
  ContrastColor.six_hex_digits (PyStr.remove_char 35 (PyStr.of_latin1 "FFFF+F")) = false /\
  PyStr.int16 PyStr.decimal_zeros_14 (PyStr.slice 4 6 (PyStr.of_latin1 "FFFF+F")) = Some 15 /\
  ContrastColor.get_contrast_color PyStr.decimal_zeros_14 (PyStr.of_latin1 "FFFF+F")
  = "black" /\
  ContrastColor.get_contrast_color PyStr.decimal_zeros_14 (PyStr.of_latin1 "FFFF+F")
  <> "white" /\
  ContrastColor.six_hex_digits [0x46; 0xFF19; 0x46; 0xFF19; 0x46; 0xFF19]%N = false /\
  PyStr.int16 PyStr.decimal_zeros_14 [0x46; 0xFF19]%N = Some 249 /\
  ContrastColor.get_contrast_color PyStr.decimal_zeros_14
    [0x46; 0xFF19; 0x46; 0xFF19; 0x46; 0xFF19]%N = "black".
Proof. vm_compute. repeat split; congruence. Qed.

Lemma C10_contrast_color_total_and_default_witness :
  ContrastColor.get_contrast_color PyStr.decimal_zeros_14 (PyStr.of_latin1 "#12")
  = "white" /\
  ContrastColor.get_contrast_color PyStr.decimal_zeros_14 (PyStr.of_latin1 "#GGFFFF")
  = "white" /\
  ContrastColor.get_contrast_color PyStr.decimal_zeros_14
    [0x46; 0x20AC; 0x46; 0x46; 0x46; 0x46]%N = "white" /\
  ContrastColor.int16_accepts2 PyStr.decimal_zeros_14 (PyStr.of_latin1 "A0") = true.
Proof.
  assert (Hok : PyStr.decimal_zeros_ok PyStr.decimal_zeros_14 = true)
    by (vm_compute; reflexivity).
  pose proof (C10_contrast_color_total_and_default _ Hok (PyStr.of_latin1 "#12"))
    as [_ [H1 _]].
  pose proof (C10_contrast_color_total_and_default _ Hok (PyStr.of_latin1 "#GGFFFF"))
    as [_ [H2 _]].
  pose proof (C10_contrast_color_total_and_default _ Hok
                [0x46; 0x20AC; 0x46; 0x46; 0x46; 0x46]%N) as [_ [H3 _]].
  pose proof (C10_contrast_color_total_and_default _ Hok (PyStr.of_latin1 "#A0A0A0"))
    as [_ [_ H4]].
  split; [|split; [|split]].
  - apply H1. left. vm_compute. discriminate.
  - apply H2. right. left. vm_compute. reflexivity.
  - apply H3. right. left. vm_compute. reflexivity.
  - apply H4. vm_compute. reflexivity.
Defined.

(** ** split_two_lines and the choice of the font *)

Section LayoutFacts.
Variable textlength : string -> font -> Q.
Variable f : font.
Variable max_width : Q.

Lemma place_word_lines (st : wrap_state) (w : string) :
  lines (place_word textlength f max_width st w) = lines st \/
  lines (place_word textlength f max_width st w) = (lines st ++ [current st])%list.
Proof.
  unfold place_word.
  destruct (Qle_bool _ _); simpl; [now left|].
  destruct (truthy (current st)); [now right|now left].
Qed.

Lemma place_word_length (st : wrap_state) (w : string) :
  (length (lines st) <= length (lines (place_word textlength f max_width st w))
   <= S (length (lines st)))%nat.
Proof.
  destruct (place_word_lines st w) as [-> | ->]; [lia|].
  rewrite length_app. simpl. lia.
Qed.

Lemma place_word_prefix (st : wrap_state) (w : string) :
  lines st `prefix_of` lines (place_word textlength f max_width st w).
Proof.
  destruct (place_word_lines st w) as [-> | ->]; [reflexivity|].
  now apply prefix_app_r.
Qed.

Lemma foldl_place_word_prefix (ws : list string) (st : wrap_state) :
  lines st `prefix_of` lines (foldl (place_word textlength f max_width) st ws).
Proof.
  revert st. induction ws as [|w ws IH]; intros st; simpl; [reflexivity|].
  etransitivity; [apply place_word_prefix|apply IH].
Qed.

(** The loop with [break] against the loop run to the end: either it
    stopped with two lines, which open the lines of the full run, or it
    never stopped and is the full run. *)
Lemma wrap_words_spec (ws : list string) (st : wrap_state) :
  (length (lines st) < 2)%nat ->
  (length (lines (wrap_words textlength f max_width ws st)) = 2%nat /\
   lines (wrap_words textlength f max_width ws st)
     `prefix_of` lines (foldl (place_word textlength f max_width) st ws)) \/
  (wrap_words textlength f max_width ws st = foldl (place_word textlength f max_width) st ws /\
   (length (lines (foldl (place_word textlength f max_width) st ws)) < 2)%nat).
Proof.
  revert st. induction ws as [|w ws IH]; intros st Hlen; simpl.
  - right. split; [reflexivity|assumption].
  - pose proof (place_word_length st w) as Hstep.
    destruct (Nat.eqb_spec (length (lines (place_word textlength f max_width st w))) 2)
      as [E|E].
    + left. split; [assumption|apply foldl_place_word_prefix].
    + apply IH. lia.
Qed.

Lemma take_prefix_full {A} (l1 l2 : list A) (n : nat) :
  length l1 = n -> l1 `prefix_of` l2 -> take n l2 = l1.
Proof.
  intros Hlen [k ->]. rewrite take_app_le by lia. apply take_ge. lia.
Qed.

Lemma split_two_lines_take (text : string) :
  split_two_lines textlength text f max_width
  = take 2 (greedy_wrap_spec textlength text f max_width).
Proof.
  unfold split_two_lines, greedy_wrap_spec.
  destruct (wrap_words_spec (split " " text) (WrapState [] EmptyString)) as [[Hlen Hpre]|[Heq Hlen]];
    [simpl; lia| |].
  - set (st := wrap_words textlength f max_width (split " " text) (WrapState [] EmptyString)) in *.
    set (sf := foldl (place_word textlength f max_width) (WrapState [] EmptyString) (split " " text)) in *.
    replace (length (lines st) <? 2)%nat with false by (symmetry; apply Nat.ltb_ge; lia).
    rewrite andb_false_r.
    rewrite (take_ge (lines st)) by lia.
    symmetry. apply take_prefix_full; [assumption|].
    destruct (truthy (current sf)); [|assumption].
    etransitivity; [eassumption|]. now apply prefix_app_r.
  - rewrite Heq.
    set (sf := foldl (place_word textlength f max_width) (WrapState [] EmptyString) (split " " text)) in *.
    replace (length (lines sf) <? 2)%nat with true by (symmetry; apply Nat.ltb_lt; lia).
    now rewrite andb_true_r.
Qed.

Lemma split_two_lines_length (text : string) :
  (length (split_two_lines textlength text f max_width) <= 2)%nat.
Proof. unfold split_two_lines. rewrite length_take. lia. Qed.

Lemma split_no_space (text : string) :
  no_space text = true -> split " " text = [text].
Proof.
  unfold no_space. induction text as [|c text IH]; simpl; [reflexivity|].
  intros H. apply andb_true_iff in H as [Hc H].
  apply negb_true_iff in Hc. rewrite Hc, (IH H). reflexivity.
Qed.

(** A text without a space is laid out on at most one line. *)
Lemma split_two_lines_one_word (text : string) :
  no_space text = true ->
  (length (split_two_lines textlength text f max_width) <= 1)%nat.
Proof.
  intros H. unfold split_two_lines. rewrite (split_no_space _ H).
  cbn [wrap_words]. unfold place_word. cbn [current lines truthy].
  destruct (Qle_bool _ _); cbn [lines current length Nat.eqb];
    rewrite length_take;
    match goal with |- context [if ?b then _ else _] => destruct b end;
    simpl; lia.
Qed.

End LayoutFacts.

(** C1, as the specification has it, fails: with every character 42 pixels
    wide at size 70, ["Now $19 only"] needs three lines of at most 150
    pixels; the result has the first two, and the word "only" is on none. *)
Lemma C1_counterexample :
  greedy_wrap_spec fixed_pitch "Now $19 only" (truetype "arialbd.ttf" 70) 150
    = ["Now"; "$19"; "only"] /\
  split_two_lines fixed_pitch "Now $19 only" (truetype "arialbd.ttf" 70) 150
    = ["Now"; "$19"] /\
  every_word_placed "Now $19 only"
    (split_two_lines fixed_pitch "Now $19 only" (truetype "arialbd.ttf" 70) 150) = false.
Proof. vm_compute. repeat split. Qed.

(** C1, amended: for every price text, font and width, [split_two_lines]
    returns at most two lines, and they are the first two lines of the
    greedy wrap of the text; a word that would open a third line, and the
    words after it, are on no line. *)
Theorem C1_split_two_lines_first_two_lines
    (textlength : string -> font -> Q) (text : string) (f : font) (max_width : Q) :
  (length (split_two_lines textlength text f max_width) <= 2)%nat /\
  split_two_lines textlength text f max_width
    = take 2 (greedy_wrap_spec textlength text f max_width) /\
  length (split_two_lines textlength text f max_width)
    = Nat.min 2 (length (greedy_wrap_spec textlength text f max_width)) /\
  greedy_wrap_spec textlength text f max_width
    = (split_two_lines textlength text f max_width
       ++ drop 2 (greedy_wrap_spec textlength text f max_width))%list.
Proof.
  split; [apply split_two_lines_length|].
  split; [apply split_two_lines_take|].
  rewrite split_two_lines_take, length_take.
  split; [reflexivity|].
  now rewrite take_drop.
Qed.

(** C2, as the specification has it, fails: ["$1,000,000"] is 420 pixels
    wide at size 70, more than the 150 usable pixels, but it is one word,
    so the first layout has one line and the size-70 font is kept. *)
Lemma C2_counterexample :
  (inject_Z BADGE_SIZE * (75 # 100) < fixed_pitch "$1,000,000" (truetype "arialbd.ttf" FONT_SIZE))%Q /\
  compose_image_price_lines fixed_pitch true "$1,000,000"
    = (truetype "arialbd.ttf" FONT_SIZE, ["$1,000,000"]) /\
  (compose_image_price_lines fixed_pitch true "$1,000,000").1
    <> truetype "arialbd.ttf" TWO_LINE_FONT_SIZE.
Proof. vm_compute. repeat split; congruence. Qed.

(** C2, amended: [compose_image] lays the price text out with the smaller
    font exactly when the layout at the larger font has two lines, and with
    the larger font otherwise, whatever the width of the text; a text of one
    word keeps the larger font; the lines drawn are the layout at the chosen
    font and are never more than two. *)
Theorem C2_font_chosen_by_line_count
    (textlength : string -> font -> Q) (truetype_ok : bool) (price_text : string) :
  let font_main := (load_price_fonts truetype_ok).1 in
  let font_small := (load_price_fonts truetype_ok).2 in
  let max_w := (inject_Z BADGE_SIZE * (75 # 100))%Q in
  let use_font := (compose_image_price_lines textlength truetype_ok price_text).1 in
  let lines := (compose_image_price_lines textlength truetype_ok price_text).2 in
  (max_w == 150)%Q /\
  (truetype_ok = true ->
   font_main = truetype "arialbd.ttf" 70 /\ font_small = truetype "arialbd.ttf" 50) /\
  (length (split_two_lines textlength price_text font_main max_w) = 2%nat ->
   use_font = font_small) /\
  (length (split_two_lines textlength price_text font_main max_w) <> 2%nat ->
   use_font = font_main) /\
  (no_space price_text = true -> use_font = font_main) /\
  lines = split_two_lines textlength price_text use_font max_w /\
  (length lines <= 2)%nat.
Proof.
  intros font_main font_small max_w use_font lines.
  assert (Hsel : use_font =
    if (length (split_two_lines textlength price_text font_main max_w) =? 2)%nat
    then font_small else font_main).
  { unfold use_font, font_main, font_small, max_w, compose_image_price_lines.
    destruct (load_price_fonts truetype_ok) as [fm fs]. reflexivity. }
  assert (Hlines : lines = split_two_lines textlength price_text use_font max_w).
  { unfold lines, use_font, max_w, compose_image_price_lines.
    destruct (load_price_fonts truetype_ok) as [fm fs]. reflexivity. }
  split; [reflexivity|].
  split; [intros ->; split; reflexivity|].
  split; [intros H; rewrite Hsel, H; reflexivity|].
  split.
  { intros H. rewrite Hsel. now destruct (Nat.eqb_spec (length
      (split_two_lines textlength price_text font_main max_w)) 2). }
  split.
  { intros H. rewrite Hsel.
    pose proof (split_two_lines_one_word textlength font_main max_w price_text H).
    destruct (Nat.eqb_spec (length
      (split_two_lines textlength price_text font_main max_w)) 2); [lia|reflexivity]. }
  split; [exact Hlines|].
  rewrite Hlines. apply split_two_lines_length.
Qed.

Lemma C2_font_chosen_by_line_count_witness :
  (compose_image_price_lines fixed_pitch true "$19.99 each").1 = truetype "arialbd.ttf" 50 /\
  (compose_image_price_lines fixed_pitch true "$5").1 = truetype "arialbd.ttf" 70 /\
  (compose_image_price_lines fixed_pitch true "$1,000,000").1 = truetype "arialbd.ttf" 70.
Proof.
  pose proof (C2_font_chosen_by_line_count fixed_pitch true "$19.99 each")
    as (_ & Hf & H2 & _).
  pose proof (C2_font_chosen_by_line_count fixed_pitch true "$5")
    as (_ & _ & _ & H1 & _).
  pose proof (C2_font_chosen_by_line_count fixed_pitch true "$1,000,000")
    as (_ & _ & _ & _ & Hw & _).
  destruct (Hf eq_refl) as [Hmain Hsmall].
  split; [|split].
  - rewrite (H2 ltac:(vm_compute; reflexivity)). exact Hsmall.
  - rewrite (H1 ltac:(vm_compute; lia)). exact Hmain.
  - rewrite (Hw ltac:(vm_compute; reflexivity)). exact Hmain.
Defined.

(** ** get_polygon_for_shape *)

Lemma starburst_loop_map (cx cy size : Z) (range : list nat) (points : list (R * R)) :
  starburst_loop cx cy size range points
  = (points ++ map (starburst_point cx cy size) range)%list.
Proof.
  revert points. induction range as [|i range IH]; intros points; simpl.
  - now rewrite app_nil_r.
  - rewrite IH, <- app_assoc. reflexivity.
Qed.

Lemma get_polygon_starburst (shape_type : string) (x y size : Z) :
  lower shape_type = "starburst_15" ->
  get_polygon_for_shape shape_type x y size
  = polygon (map (starburst_point (x + size / 2) (y + size / 2) size) (seq 0 30)).
Proof.
  intros H. unfold get_polygon_for_shape. rewrite H.
  cbn [String.eqb Ascii.eqb Bool.eqb].
  now rewrite starburst_loop_map.
Qed.

Lemma mod2_even (i : nat) : (i mod 2 =? 0)%nat = Nat.even i.
Proof.
  destruct (Nat.even i) eqn:E.
  - apply Nat.even_spec in E as [k ->]. apply Nat.eqb_eq.
    rewrite Nat.mul_comm. apply Nat.Div0.mod_mul.
  - apply Nat.eqb_neq. intros H.
    assert (Nat.even i = true); [|congruence].
    apply Nat.even_spec. exists (i / 2)%nat.
    pose proof (Nat.div_mod_eq i 2). lia.
Qed.

Lemma IZR_half_even (size : Z) :
  Z.even size = true -> IZR (size / 2) = (IZR size / 2)%R.
Proof.
  intros H. apply Z.even_spec in H as [k ->].
  rewrite Z.mul_comm, Z.div_mul by lia. rewrite mult_IZR. simpl. lra.
Qed.

(** C6, as the specification has it, fails for an odd size: in the box of
    size 3 anchored at (0, 0) vertex 0 is (2.5, 1), while the vertex at angle
    0 and radius 1.5 from the centre (1.5, 1.5) of the box is (3, 1.5). *)
Lemma C6_counterexample :
  points_of (get_polygon_for_shape "starburst_15" 0 0 3) !! 0%nat = Some (5 / 2, 1)%R /\
  box_center_vertex 0 0 3 0 = (3, 3 / 2)%R /\
  points_of (get_polygon_for_shape "starburst_15" 0 0 3) !! 0%nat
    <> Some (box_center_vertex 0 0 3 0).
Proof.
  assert (H1 : points_of (get_polygon_for_shape "starburst_15" 0 0 3) !! 0%nat
               = Some (5 / 2, 1)%R).
  { rewrite get_polygon_starburst by reflexivity.
    cbn [points_of seq map lookup list_lookup].
    unfold starburst_point. cbn [Nat.modulo Nat.divmod Nat.eqb snd fst Nat.sub INR].
    replace (0 / 30 * 2 * PI)%R with 0%R by (unfold Rdiv; ring).
    rewrite cos_0, sin_0.
    replace (0 + 3 / 2)%Z with 1%Z by reflexivity.
    do 2 f_equal; lra. }
  assert (H2 : box_center_vertex 0 0 3 0 = (3, 3 / 2)%R).
  { unfold box_center_vertex. cbn [Nat.even INR].
    replace (2 * PI * 0 / 30)%R with 0%R by (unfold Rdiv; ring).
    rewrite cos_0, sin_0. f_equal; lra. }
  split; [exact H1|]. split; [exact H2|].
  rewrite H1, H2. intros H. injection H as H _. lra.
Qed.

(** C6, amended: for every anchor (x, y) and size, the starburst_15 shape
    (the name in any letter case) is a polygon of exactly 30 vertices;
    vertex i lies at angle 2 pi i / 30 from the point
    (x + size // 2, y + size // 2) at radius 0.5 size for even i and
    0.35 size for odd i, and that point is the centre of the box when the
    size is even. *)
Theorem C6_starburst_polygon (shape_type : string) (x y size : Z) :
  lower shape_type = "starburst_15" ->
  exists points : list (R * R),
    get_polygon_for_shape shape_type x y size = polygon points /\
    length points = 30%nat /\
    forall i : nat, (i < 30)%nat ->
      let r := if Nat.even i then (5 / 10 * IZR size)%R else (35 / 100 * IZR size)%R in
      let angle := (2 * PI * INR i / 30)%R in
      let cx := IZR (x + size / 2) in
      let cy := IZR (y + size / 2) in
      points !! i = Some (cx + r * cos angle, cy + r * sin angle)%R /\
      (forall px py, points !! i = Some (px, py) ->
         ((px - cx) * (px - cx) + (py - cy) * (py - cy) = r * r)%R) /\
      (Z.even size = true -> points !! i = Some (box_center_vertex x y size i)).
Proof.
  intros Hname.
  exists (map (starburst_point (x + size / 2) (y + size / 2) size) (seq 0 30)).
  split; [now apply get_polygon_starburst|].
  split; [now rewrite length_map, length_seq|].
  intros i Hi r angle cx cy.
  assert (Hpt : map (starburst_point (x + size / 2) (y + size / 2) size) (seq 0 30) !! i
                = Some (cx + r * cos angle, cy + r * sin angle)%R).
  { rewrite list_lookup_fmap, lookup_seq_lt by assumption. simpl.
    unfold starburst_point. rewrite mod2_even.
    replace (INR i / 30 * 2 * PI)%R with angle by (unfold angle, Rdiv; ring).
    fold cx cy. subst r. destruct (Nat.even i); do 3 f_equal; lra. }
  split; [exact Hpt|]. split.
  - intros px py H. rewrite Hpt in H. injection H as <- <-.
    replace ((cx + r * cos angle - cx) * (cx + r * cos angle - cx)
             + (cy + r * sin angle - cy) * (cy + r * sin angle - cy))%R
      with (r * r * (Rsqr (sin angle) + Rsqr (cos angle)))%R by (unfold Rsqr; ring).
    rewrite sin2_cos2. ring.
  - intros Heven. rewrite Hpt. unfold box_center_vertex. fold r angle.
    unfold cx, cy. rewrite !plus_IZR, (IZR_half_even _ Heven). reflexivity.
Qed.

Lemma C6_starburst_polygon_witness :
  exists points : list (R * R),
    get_polygon_for_shape "StarBurst_15" 840 40 200 = polygon points /\
    length points = 30%nat /\
    points !! 1%nat = Some (box_center_vertex 840 40 200 1).
Proof.
  destruct (C6_starburst_polygon "StarBurst_15" 840 40 200 eq_refl)
    as (points & Hshape & Hlen & Hv).
  exists points. split; [exact Hshape|]. split; [exact Hlen|].
  destruct (Hv 1%nat ltac:(lia)) as (_ & _ & Hbox).
  apply Hbox. reflexivity.
Defined.

(** ** process_sheet *)

Section ProcessSheetFacts.
Import Processor.
Variable get_all_values : gmap (nat * nat) string -> list (list string).
Variable compose_image_raises : string -> string -> string -> option string.
Variable update_cell_raises : nat -> nat -> string -> option string.
Variable BASE_URL : string.

Local Abbreviation row_result := (row_result compose_image_raises update_cell_raises BASE_URL).
Local Abbreviation rows_result := (rows_result compose_image_raises update_cell_raises BASE_URL).
Local Abbreviation process_row := (process_row compose_image_raises update_cell_raises BASE_URL).
Local Abbreviation for_rows := (for_rows compose_image_raises update_cell_raises BASE_URL).
Local Abbreviation run_process_sheet :=
  (run_process_sheet get_all_values compose_image_raises update_cell_raises BASE_URL).

Lemma output_path_eq (i : nat) :
  output_path i = "images/edited/edited_" ++ pretty i ++ ".png".
Proof. reflexivity. Qed.

Lemma public_url_eq (i : nat) :
  public_url BASE_URL i = BASE_URL ++ "/images/edited/edited_" ++ pretty i ++ ".png".
Proof. reflexivity. Qed.

Lemma string_length_app (s t : string) :
  String.length (s ++ t) = (String.length s + String.length t)%nat.
Proof. induction s as [|a s IH]; simpl; [reflexivity|now rewrite IH]. Qed.

Lemma string_app_inj_r (s1 s2 t : string) : s1 ++ t = s2 ++ t -> s1 = s2.
Proof.
  revert s2. induction s1 as [|a s1 IH]; intros [|b s2] H; simpl in H.
  - reflexivity.
  - exfalso. apply (f_equal String.length) in H.
    rewrite ?string_length_app in H. simpl in H. rewrite ?string_length_app in H. lia.
  - exfalso. apply (f_equal String.length) in H.
    rewrite ?string_length_app in H. simpl in H. rewrite ?string_length_app in H. lia.
  - injection H as -> H. f_equal. now apply IH.
Qed.

Lemma output_path_inj (i j : nat) : output_path i = output_path j -> i = j.
Proof.
  rewrite !output_path_eq. intros H.
  apply String.app_inj in H. apply string_app_inj_r in H.
  now apply (inj pretty) in H.
Qed.

Lemma process_row_result (i : nat) (row : list string) (w : world) :
  process_row i row w
  = let '(c, evs, out) := row_result i row (cells w) in
    (World c (trace w ++ evs), out).
Proof.
  destruct w as [c tr].
  unfold process_row, Processor.row_result, bind, index, IMAGE_URL_COL, PRICE_COL.
  cbn [Nat.sub cells trace].
  destruct (row !! 0%nat) as [url|]; cbn [ret raise];
    [|now rewrite app_nil_r].
  destruct (row !! 1%nat) as [price|]; cbn [ret raise];
    [|now rewrite app_nil_r].
  destruct (truthy url); cbn [negb]; [|unfold ret; now rewrite app_nil_r].
  fold (output_path i).
  unfold try_except, compose_image, update_cell, print, emit, bind, raise, ret.
  cbn [cells trace].
  destruct (compose_image_raises url price (output_path i)) as [msg|]; cbn [str_exn].
  { cbn [cells trace]. now rewrite <- app_assoc. }
  destruct (update_cell_raises i OUTPUT_COL (public_url BASE_URL i)) as [msg|];
    cbn [str_exn cells trace]; now rewrite <- !app_assoc.
Qed.

Lemma for_rows_result (values : list (list string)) (i : nat) (w : world) :
  for_rows i values w
  = let '(c, evs, out) := rows_result i values (cells w) in
    (World c (trace w ++ evs), out).
Proof.
  revert i w. induction values as [|row values IH]; intros i w.
  - destruct w. simpl. unfold ret. now rewrite app_nil_r.
  - cbn [Processor.for_rows Processor.rows_result]. unfold bind.
    rewrite process_row_result.
    destruct (row_result i row (cells w)) as [[c1 evs1] [e|[]]]; [reflexivity|].
    rewrite IH. cbn [cells trace].
    destruct (rows_result (S i) values c1) as [[c2 evs2] out].
    now rewrite app_assoc.
Qed.

(** The whole run in terms of the rows: the closing message is printed only
    when no row raised out of the loop. *)
Lemma run_process_sheet_result (sheet : gmap (nat * nat) string) :
  run_process_sheet sheet
  = let '(c, evs, out) := rows_result 1 (get_all_values sheet) sheet in
    match out with
    | inl e => (World c (Ev_makedirs edited_folder :: evs), inl e)
    | inr _ =>
        (World c (Ev_makedirs edited_folder :: evs ++ [Ev_print "Processing completed."]),
         inr tt)
    end.
Proof.
  unfold Processor.run_process_sheet, process_sheet, bind, emit, print.
  cbn [cells trace]. rewrite for_rows_result. cbn [cells trace app].
  destruct (rows_result 1 (get_all_values sheet) sheet) as [[c evs] [e|[]]];
    cbn [cells trace]; reflexivity.
Qed.

Lemma has_columns_lookup (row : list string) :
  has_columns row -> exists url price, row !! 0%nat = Some url /\ row !! 1%nat = Some price.
Proof.
  unfold has_columns. intros H.
  destruct row as [|url [|price row]]; simpl in H; try lia.
  now exists url, price.
Qed.

Lemma lookup_has_columns (row : list string) (url price : string) :
  row !! 0%nat = Some url -> row !! 1%nat = Some price -> has_columns row.
Proof.
  unfold has_columns. destruct row as [|u [|p row]]; simpl; intros; try discriminate; lia.
Qed.

(** Case analysis of one iteration, on a hypothesis [row_result .. = ..]. *)
Ltac row_cases H :=
  unfold Processor.row_result in H;
  repeat match type of H with
         | context [match ?x with _ => _ end] => destruct x eqn:?
         | context [if ?b then _ else _] => destruct b eqn:?
         end;
  simplify_eq.

Lemma row_result_wide (i : nat) (row : list string) (c : gmap (nat * nat) string) :
  has_columns row -> (row_result i row c).2 = inr tt.
Proof.
  intros (url & price & H0 & H1)%has_columns_lookup.
  unfold Processor.row_result. rewrite H0, H1.
  destruct (negb (truthy url)); [reflexivity|].
  destruct (compose_image_raises _ _ _); [reflexivity|].
  now destruct (update_cell_raises _ _ _).
Qed.

Lemma rows_result_app (l1 l2 : list (list string)) (i : nat) (c : gmap (nat * nat) string) :
  rows_result i (l1 ++ l2) c
  = match rows_result i l1 c with
    | (c1, evs1, inl e) => (c1, evs1, inl e)
    | (c1, evs1, inr _) =>
        let '(c2, evs2, out) := rows_result (i + length l1) l2 c1 in
        (c2, (evs1 ++ evs2)%list, out)
    end.
Proof.
  revert i c. induction l1 as [|row l1 IH]; intros i c.
  - cbn [app Processor.rows_result length]. rewrite Nat.add_0_r.
    now destruct (rows_result i l2 c) as [[c2 evs2] out].
  - cbn [app Processor.rows_result length].
    destruct (row_result i row c) as [[c1 evs1] [e|[]]]; [reflexivity|].
    rewrite IH. replace (S i + length l1)%nat with (i + S (length l1))%nat by lia.
    destruct (rows_result (S i) l1 c1) as [[c2 evs2] [e|[]]]; [reflexivity|].
    destruct (rows_result (i + S (length l1)) l2 c2) as [[c3 evs3] out].
    now rewrite app_assoc.
Qed.

(** Rows that all have their two cells never raise out of the loop. *)
Lemma rows_result_wide (values : list (list string)) (i : nat) (c : gmap (nat * nat) string) :
  Forall has_columns values -> (rows_result i values c).2 = inr tt.
Proof.
  intros H. revert i c. induction H as [|row values Hrow _ IH]; intros i c.
  - reflexivity.
  - cbn [Processor.rows_result].
    pose proof (row_result_wide i row c Hrow) as Hr.
    destruct (row_result i row c) as [[c1 evs1] o1]. simpl in Hr. subst o1.
    specialize (IH (S i) c1).
    destruct (rows_result (S i) values c1) as [[c2 evs2] out]. exact IH.
Qed.

(** Every call of [compose_image] comes from a row with a non-empty image
    URL and carries that row's fields and output path. *)
Lemma rows_result_compose_sound (values : list (list string)) (i : nat)
    (c c' : gmap (nat * nat) string) (evs : list event) (out : exn + unit)
    (p t o : string) :
  rows_result i values c = (c', evs, out) ->
  Ev_compose_image p t o ∈ evs ->
  exists j row, values !! j = Some row /\ row !! 0%nat = Some p /\
    row !! 1%nat = Some t /\ truthy p = true /\ o = output_path (i + j).
Proof.
  revert i c c' evs out. induction values as [|row values IH]; intros i c c' evs out H Hin.
  - cbn in H. simplify_eq. now apply elem_of_nil in Hin.
  - cbn [Processor.rows_result] in H.
    destruct (row_result i row c) as [[c1 evs1] o1] eqn:Hr.
    assert (Hhere : Ev_compose_image p t o ∈ evs1 ->
      row !! 0%nat = Some p /\ row !! 1%nat = Some t /\ truthy p = true /\ o = output_path i).
    { clear H. intros Hin1. row_cases Hr;
        repeat (apply elem_of_cons in Hin1 as [Hin1|Hin1]; simplify_eq);
        try (now apply elem_of_nil in Hin1);
        match goal with Hn : negb (truthy _) = false |- _ =>
          apply negb_false_iff in Hn end; auto. }
    destruct o1 as [e|[]].
    + simplify_eq. destruct (Hhere Hin) as (? & ? & ? & ?).
      exists 0%nat, row. rewrite Nat.add_0_r. auto.
    + destruct (rows_result (S i) values c1) as [[c2 evs2] o2] eqn:Hrs. simplify_eq.
      apply elem_of_app in Hin as [Hin|Hin].
      * destruct (Hhere Hin) as (? & ? & ? & ?).
        exists 0%nat, row. rewrite Nat.add_0_r. auto.
      * destruct (IH _ _ _ _ _ Hrs Hin) as (j & row' & ? & ? & ? & ? & ?).
        exists (S j), row'. replace (i + S j)%nat with (S i + j)%nat by lia. auto.
Qed.

(** Every call of [update_cell] writes the public URL of a row with a
    non-empty image URL into the output column of that row. *)
Lemma rows_result_update_sound (values : list (list string)) (i : nat)
    (c c' : gmap (nat * nat) string) (evs : list event) (out : exn + unit)
    (r col : nat) (v : string) :
  rows_result i values c = (c', evs, out) ->
  Ev_update_cell r col v ∈ evs ->
  exists j row p, values !! j = Some row /\ row !! 0%nat = Some p /\ truthy p = true /\
    r = (i + j)%nat /\ col = OUTPUT_COL /\ v = public_url BASE_URL r.
Proof.
  revert i c c' evs out. induction values as [|row values IH]; intros i c c' evs out H Hin.
  - cbn in H. simplify_eq. now apply elem_of_nil in Hin.
  - cbn [Processor.rows_result] in H.
    destruct (row_result i row c) as [[c1 evs1] o1] eqn:Hr.
    assert (Hhere : Ev_update_cell r col v ∈ evs1 ->
      exists p, row !! 0%nat = Some p /\ truthy p = true /\ r = i /\ col = OUTPUT_COL /\
        v = public_url BASE_URL r).
    { clear H. intros Hin1. row_cases Hr;
        repeat (apply elem_of_cons in Hin1 as [Hin1|Hin1]; simplify_eq);
        try (now apply elem_of_nil in Hin1);
        match goal with Hn : negb (truthy _) = false |- _ =>
          apply negb_false_iff in Hn end; eauto 10. }
    destruct o1 as [e|[]].
    + simplify_eq. destruct (Hhere Hin) as (p & ? & ? & ? & ? & ?).
      exists 0%nat, row, p. rewrite Nat.add_0_r. auto 10.
    + destruct (rows_result (S i) values c1) as [[c2 evs2] o2] eqn:Hrs. simplify_eq.
      apply elem_of_app in Hin as [Hin|Hin].
      * destruct (Hhere Hin) as (p & ? & ? & ? & ? & ?).
        exists 0%nat, row, p. rewrite Nat.add_0_r. auto 10.
      * destruct (IH _ _ _ _ _ Hrs Hin) as (j & row' & p & ? & ? & ? & ? & ? & ?).
        exists (S j), row', p. replace (i + S j)%nat with (S i + j)%nat by lia. auto 10.
Qed.

(** A cell either keeps its content or was written by a call of
    [update_cell] that is in the trace. *)
Lemma rows_result_cells (values : list (list string)) (i : nat)
    (c c' : gmap (nat * nat) string) (evs : list event) (out : exn + unit)
    (r col : nat) :
  rows_result i values c = (c', evs, out) ->
  c' !! (r, col) = c !! (r, col) \/ exists v, Ev_update_cell r col v ∈ evs.
Proof.
  revert i c c' evs out. induction values as [|row values IH]; intros i c c' evs out H.
  - cbn in H. simplify_eq. now left.
  - cbn [Processor.rows_result] in H.
    destruct (row_result i row c) as [[c1 evs1] o1] eqn:Hr.
    assert (Hhere : c1 !! (r, col) = c !! (r, col) \/ exists v, Ev_update_cell r col v ∈ evs1).
    { clear H. row_cases Hr; try (now left).
      destruct (decide ((i, OUTPUT_COL) = (r, col))) as [Heq|Hne].
      - right. simplify_eq. eexists. apply elem_of_cons. right.
        apply elem_of_cons. left. reflexivity.
      - left. now apply lookup_insert_ne. }
    destruct o1 as [e|[]].
    + simplify_eq. exact Hhere.
    + destruct (rows_result (S i) values c1) as [[c2 evs2] o2] eqn:Hrs. simplify_eq.
      destruct (IH _ _ _ _ _ Hrs) as [Heq|[v Hv]].
      * rewrite Heq. destruct Hhere as [?|[v Hv]]; [now left|].
        right. exists v. apply elem_of_app. now left.
      * right. exists v. apply elem_of_app. now right.
Qed.

(** Rows outside the range the loop runs over keep their cells. *)
Lemma rows_result_frame (values : list (list string)) (i : nat)
    (c c' : gmap (nat * nat) string) (evs : list event) (out : exn + unit)
    (r col : nat) :
  rows_result i values c = (c', evs, out) ->
  (r < i)%nat -> c' !! (r, col) = c !! (r, col).
Proof.
  intros H Hr.
  destruct (rows_result_cells _ _ _ _ _ _ r col H) as [?|[v Hv]]; [assumption|].
  destruct (rows_result_update_sound _ _ _ _ _ _ _ _ _ H Hv) as (j & _ & _ & _ & _ & _ & ? & _).
  lia.
Qed.

(** What the run shows of a row that is reached and has an image URL. *)
Lemma rows_result_reached (l1 l2 : list (list string)) (row : list string)
    (i : nat) (c c' : gmap (nat * nat) string) (evs : list event) (out : exn + unit)
    (url price : string) :
  Forall has_columns l1 ->
  row !! 0%nat = Some url -> row !! 1%nat = Some price -> truthy url = true ->
  rows_result i (l1 ++ row :: l2) c = (c', evs, out) ->
  let k := (i + length l1)%nat in
  Ev_compose_image url price (output_path k) ∈ evs /\
  match compose_image_raises url price (output_path k) with
  | Some msg => Ev_print ("Error processing row " ++ pretty k ++ ": " ++ msg) ∈ evs
  | None =>
      Ev_update_cell k OUTPUT_COL (public_url BASE_URL k) ∈ evs /\
      match update_cell_raises k OUTPUT_COL (public_url BASE_URL k) with
      | Some msg => Ev_print ("Error processing row " ++ pretty k ++ ": " ++ msg) ∈ evs
      | None =>
          Ev_print ("Row " ++ pretty k ++ ": Updated " ++ public_url BASE_URL k) ∈ evs /\
          c' !! (k, OUTPUT_COL) = Some (public_url BASE_URL k)
      end
  end.
Proof.
  intros Hwide H0 H1 Hurl H k.
  rewrite rows_result_app in H.
  pose proof (rows_result_wide l1 i c Hwide) as Hout.
  destruct (rows_result i l1 c) as [[c1 evs1] o1]. simpl in Hout. subst o1.
  fold k in H. cbn [Processor.rows_result] in H.
  destruct (row_result k row c1) as [[cr evsr] outr] eqn:Hr.
  assert (Hrow : outr = inr tt /\
    Ev_compose_image url price (output_path k) ∈ evsr /\
    match compose_image_raises url price (output_path k) with
    | Some msg => Ev_print ("Error processing row " ++ pretty k ++ ": " ++ msg) ∈ evsr
    | None =>
        Ev_update_cell k OUTPUT_COL (public_url BASE_URL k) ∈ evsr /\
        match update_cell_raises k OUTPUT_COL (public_url BASE_URL k) with
        | Some msg => Ev_print ("Error processing row " ++ pretty k ++ ": " ++ msg) ∈ evsr
        | None =>
            Ev_print ("Row " ++ pretty k ++ ": Updated " ++ public_url BASE_URL k) ∈ evsr /\
            cr !! (k, OUTPUT_COL) = Some (public_url BASE_URL k)
        end
    end).
  { clear H. unfold Processor.row_result in Hr. rewrite H0, H1, Hurl in Hr.
    cbn [negb] in Hr.
    destruct (compose_image_raises url price (output_path k)) as [msg|].
    { simplify_eq. repeat split; set_solver. }
    destruct (update_cell_raises k OUTPUT_COL (public_url BASE_URL k)) as [msg|].
    { simplify_eq. repeat split; set_solver. }
    simplify_eq. repeat split; try set_solver. apply lookup_insert_eq. }
  destruct Hrow as (-> & Hc & Hrest).
  destruct (rows_result (S k) l2 cr) as [[c2 evs2] o2] eqn:Hrs. simplify_eq.
  pose proof (rows_result_frame _ _ _ _ _ _ k OUTPUT_COL Hrs ltac:(lia)) as Hframe.
  split; [set_solver|].
  destruct (compose_image_raises url price (output_path k)) as [msg|]; [set_solver|].
  destruct Hrest as [Hu Hrest]. split; [set_solver|].
  destruct (update_cell_raises k OUTPUT_COL (public_url BASE_URL k)) as [msg|]; [set_solver|].
  destruct Hrest as [Hp Hcell]. split; [set_solver|]. now rewrite Hframe.
Qed.

Lemma truthy_nonempty (s : string) : s <> EmptyString -> truthy s = true.
Proof. destruct s; [congruence|reflexivity]. Qed.

(** C3, amended: on a sheet whose rows all have the image-URL and price
    cells, when composing the image of a row or writing its cell raises,
    [process_sheet] prints the failure and goes on: the run ends without an
    exception, with its closing message, and every row with a non-empty
    image URL has its image composed; its failure is printed if composing or
    writing raises, and its output cell holds the public URL otherwise. *)
Theorem C3_row_failure_does_not_abort (sheet : gmap (nat * nat) string) :
  Forall has_columns (get_all_values sheet) ->
  (run_process_sheet sheet).2 = inr tt /\
  last (trace (run_process_sheet sheet).1) = Some (Ev_print "Processing completed.") /\
  forall (i : nat) (row : list string) (url price : string),
    get_all_values sheet !! i = Some row ->
    row !! 0%nat = Some url -> row !! 1%nat = Some price -> url <> EmptyString ->
    let k := S i in
    let w := (run_process_sheet sheet).1 in
    Ev_compose_image url price (output_path k) ∈ trace w /\
    match compose_image_raises url price (output_path k) with
    | Some msg => Ev_print ("Error processing row " ++ pretty k ++ ": " ++ msg) ∈ trace w
    | None =>
        Ev_update_cell k OUTPUT_COL (public_url BASE_URL k) ∈ trace w /\
        match update_cell_raises k OUTPUT_COL (public_url BASE_URL k) with
        | Some msg => Ev_print ("Error processing row " ++ pretty k ++ ": " ++ msg) ∈ trace w
        | None =>
            Ev_print ("Row " ++ pretty k ++ ": Updated " ++ public_url BASE_URL k) ∈ trace w /\
            cells w !! (k, OUTPUT_COL) = Some (public_url BASE_URL k)
        end
    end.
Proof.
  intros Hwide. rewrite run_process_sheet_result.
  pose proof (rows_result_wide (get_all_values sheet) 1 sheet Hwide) as Hout.
  destruct (rows_result 1 (get_all_values sheet) sheet) as [[c evs] out] eqn:Hrs.
  simpl in Hout. subst out. cbn [fst snd trace cells].
  split; [reflexivity|]. split.
  { rewrite app_comm_cons. apply last_snoc. }
  intros i row url price Hi H0 H1 Hurl. set (k := S i).
  pose proof (take_drop_middle _ _ _ Hi) as Hsplit.
  rewrite <- Hsplit in Hrs.
  assert (Hlen : length (take i (get_all_values sheet)) = i).
  { apply length_take_le. apply lookup_lt_Some in Hi. lia. }
  pose proof (rows_result_reached (take i (get_all_values sheet)) _ _ 1 _ _ _ _ url price
    ltac:(now apply Forall_take) H0 H1 (truthy_nonempty _ Hurl) Hrs) as Hreach.
  rewrite Hlen in Hreach. change (1 + i)%nat with k in Hreach. cbv zeta in Hreach.
  destruct Hreach as [Hc Hrest].
  split; [set_solver|].
  destruct (compose_image_raises url price (output_path k)) as [msg|]; [set_solver|].
  destruct Hrest as [Hu Hrest]. split; [set_solver|].
  destruct (update_cell_raises k OUTPUT_COL (public_url BASE_URL k)) as [msg|]; [set_solver|].
  destruct Hrest as [Hp Hcell]. split; [set_solver|exact Hcell].
Qed.

(** C4: a row whose image-URL cell is empty is never passed to
    [compose_image] (no call has its output path, and no call at all has an
    empty image path), [update_cell] is never called on it, and all its cells
    are after the run what they were before. *)
Theorem C4_empty_image_url_row_untouched (sheet : gmap (nat * nat) string)
    (i : nat) (row : list string) :
  get_all_values sheet !! i = Some row ->
  row !! 0%nat = Some EmptyString ->
  let k := S i in
  let w := (run_process_sheet sheet).1 in
  (forall p t, Ev_compose_image p t (output_path k) ∉ trace w) /\
  (forall t o, Ev_compose_image EmptyString t o ∉ trace w) /\
  (forall col v, Ev_update_cell k col v ∉ trace w) /\
  (forall col, cells w !! (k, col) = sheet !! (k, col)).
Proof.
  intros Hi H0 k w. subst w. rewrite run_process_sheet_result.
  destruct (rows_result 1 (get_all_values sheet) sheet) as [[c evs] out] eqn:Hrs.
  assert (Hc : forall p t, Ev_compose_image p t (output_path k) ∉ evs).
  { intros p t Hin.
    destruct (rows_result_compose_sound _ _ _ _ _ _ _ _ _ Hrs Hin)
      as (j & row' & Hj & Hp & _ & Htr & Hpath).
    apply output_path_inj in Hpath. assert (j = i) as -> by (unfold k in Hpath; lia).
    simplify_eq; discriminate. }
  assert (He : forall t o, Ev_compose_image EmptyString t o ∉ evs).
  { intros t o Hin.
    destruct (rows_result_compose_sound _ _ _ _ _ _ _ _ _ Hrs Hin)
      as (j & row' & _ & _ & _ & Htr & _). discriminate. }
  assert (Hu : forall col v, Ev_update_cell k col v ∉ evs).
  { intros col v Hin.
    destruct (rows_result_update_sound _ _ _ _ _ _ _ _ _ Hrs Hin)
      as (j & row' & p & Hj & Hp & Htr & Hk & _).
    assert (j = i) as -> by (unfold k in Hk; lia).
    simplify_eq; discriminate. }
  assert (Hcells : forall col, c !! (k, col) = sheet !! (k, col)).
  { intros col.
    destruct (rows_result_cells _ _ _ _ _ _ k col Hrs) as [?|[v Hv]]; [assumption|].
    now apply Hu in Hv. }
  destruct out as [e|[]]; cbn [fst trace cells]; repeat split; try assumption;
    intros; rewrite ?app_comm_cons, ?elem_of_app, ?elem_of_cons, ?elem_of_nil;
    intros Hin; destruct_or?; simplify_eq;
    first [eapply Hc; eassumption | eapply He; eassumption | eapply Hu; eassumption].
Qed.

(** C7: for a row at 1-based index k that the loop reaches (the rows up to
    it have their two cells), with a non-empty image URL, for which
    [compose_image] and [update_cell] return, [compose_image] is called with
    the output path images/edited/edited_<k>.png, [update_cell] is called on
    row k, column 3 with <BASE_URL>/images/edited/edited_<k>.png, no other
    call writes to row k, and the cell holds that string after the run. *)
Theorem C7_processed_row_output (sheet : gmap (nat * nat) string)
    (i : nat) (row : list string) (url price : string) :
  get_all_values sheet !! i = Some row ->
  Forall has_columns (take i (get_all_values sheet)) ->
  row !! 0%nat = Some url -> row !! 1%nat = Some price -> url <> EmptyString ->
  let k := S i in
  let path := "images/edited/edited_" ++ pretty k ++ ".png" in
  let link := BASE_URL ++ "/images/edited/edited_" ++ pretty k ++ ".png" in
  let w := (run_process_sheet sheet).1 in
  compose_image_raises url price path = None ->
  update_cell_raises k 3 link = None ->
  Ev_compose_image url price path ∈ trace w /\
  Ev_update_cell k 3 link ∈ trace w /\
  (forall col v, Ev_update_cell k col v ∈ trace w -> col = 3%nat /\ v = link) /\
  cells w !! (k, 3%nat) = Some link.
Proof.
  intros Hi Hwide H0 H1 Hurl k path link w Hcomp Hupd. subst w.
  rewrite run_process_sheet_result.
  destruct (rows_result 1 (get_all_values sheet) sheet) as [[c evs] out] eqn:Hrs.
  assert (Hlen : length (take i (get_all_values sheet)) = i).
  { apply length_take_le. apply lookup_lt_Some in Hi. lia. }
  pose proof Hrs as Hrs'.
  rewrite <- (take_drop_middle _ _ _ Hi) in Hrs'.
  pose proof (rows_result_reached _ _ _ 1 _ _ _ _ url price
    Hwide H0 H1 (truthy_nonempty _ Hurl) Hrs') as Hreach.
  rewrite Hlen in Hreach. change (1 + i)%nat with k in Hreach. cbv zeta in Hreach.
  change (output_path k) with path in Hreach.
  change (public_url BASE_URL k) with link in Hreach.
  change OUTPUT_COL with 3%nat in Hreach.
  rewrite Hcomp, Hupd in Hreach. destruct Hreach as (Hc & Hu & _ & Hcell).
  assert (Honly : forall col v, Ev_update_cell k col v ∈ evs -> col = 3%nat /\ v = link).
  { intros col v Hin.
    destruct (rows_result_update_sound _ _ _ _ _ _ _ _ _ Hrs Hin)
      as (j & row' & p & _ & _ & _ & _ & -> & ->). split; reflexivity. }
  destruct out as [e|[]]; cbn [fst trace cells];
    (split; [set_solver + Hc|]); (split; [set_solver + Hu|]); (split; [|exact Hcell]);
    intros col v; rewrite ?app_comm_cons, ?elem_of_app, ?elem_of_cons, ?elem_of_nil;
    intros Hin; destruct_or?; simplify_eq; now apply Honly.
Qed.

End ProcessSheetFacts.

Import Processor.

(** C3, as the specification has it, fails on rows that lack a cell: the
    cells of a row are read before the [try], so the [IndexError] of a short
    row leaves the loop. With column A only, row 1 ends the run; with rows of
    unequal length, row 1 fails in [compose_image] and is printed, row 2
    ends the run, and row 3, which has an image URL, is never processed. *)
Lemma C3_counterexample :
  run_process_sheet (fun _ => column_A_only) never_raises never_raises "http://host" ∅
    = (World ∅ [Ev_makedirs "images/edited"], inl IndexError) /\
  run_process_sheet (fun _ => ragged_rows) (cannot_open "imgA.png") never_raises "http://host" ∅
    = (World ∅ [Ev_makedirs "images/edited";
                Ev_compose_image "imgA.png" "$19.99" "images/edited/edited_1.png";
                Ev_print "Error processing row 1: cannot identify image file"],
       inl IndexError) /\
  ragged_rows !! 2%nat = Some ["imgC.png"; "$5"].
Proof. vm_compute. repeat split. Qed.

Lemma C3_row_failure_does_not_abort_witness :
  let run := run_process_sheet (fun _ => three_rows) (cannot_open "imgA.png")
               never_raises "http://host" ∅ in
  run.2 = inr tt /\
  Ev_print "Error processing row 1: cannot identify image file" ∈ trace run.1 /\
  cells run.1 !! (3%nat, 3%nat) = Some "http://host/images/edited/edited_3.png".
Proof.
  destruct (C3_row_failure_does_not_abort (fun _ => three_rows) (cannot_open "imgA.png")
              never_raises "http://host" ∅) as (Hout & _ & Hrows).
  { repeat constructor; unfold has_columns; simpl; lia. }
  split; [exact Hout|]. split.
  - exact (proj2 (Hrows 0%nat ["imgA.png"; "$19.99"] "imgA.png" "$19.99"
                    eq_refl eq_refl eq_refl ltac:(discriminate))).
  - exact (proj2 (proj2 (proj2 (Hrows 2%nat ["imgB.png"; "$100"] "imgB.png" "$100"
                    eq_refl eq_refl eq_refl ltac:(discriminate))))).
Defined.

Lemma C4_empty_image_url_row_untouched_witness :
  let run := run_process_sheet (fun _ => three_rows) never_raises never_raises
               "http://host" {[ (2%nat, 3%nat) := "kept" ]} in
  (forall col v, Ev_update_cell 2 col v ∉ trace run.1) /\
  (forall col, cells run.1 !! (2%nat, col)
               = ({[ (2%nat, 3%nat) := "kept" ]} : gmap (nat * nat) string) !! (2%nat, col)).
Proof.
  destruct (C4_empty_image_url_row_untouched (fun _ => three_rows) never_raises never_raises
              "http://host" {[ (2%nat, 3%nat) := "kept" ]} 1%nat [EmptyString; "$5"] eq_refl eq_refl)
    as (_ & _ & Hu & Hcells).
  split; [exact Hu|exact Hcells].
Defined.

Lemma C7_processed_row_output_witness :
  let run := run_process_sheet (fun _ => three_rows) never_raises never_raises
               "http://host" ∅ in
  Ev_compose_image "imgB.png" "$100" "images/edited/edited_3.png" ∈ trace run.1 /\
  cells run.1 !! (3%nat, 3%nat) = Some "http://host/images/edited/edited_3.png".
Proof.
  destruct (C7_processed_row_output (fun _ => three_rows) never_raises never_raises
              "http://host" ∅ 2%nat ["imgB.png"; "$100"] "imgB.png" "$100" eq_refl)
    as (Hc & _ & _ & Hcell); try reflexivity; try discriminate.
  { repeat constructor; unfold has_columns; simpl; lia. }
  split; [exact Hc|exact Hcell].
Defined.

(** ** The user table: API keys *)

Import Database.

Lemma has_api_key_true (k : string) (u : User) : has_api_key k u = true <-> api_key u = k.
Proof. unfold has_api_key. apply String.eqb_eq. Qed.

Lemma has_email_true (e : string) (u : User) : has_email e u = true <-> email u = e.
Proof. unfold has_email. apply String.eqb_eq. Qed.

Lemma query_first_None (p : User -> bool) (rows : list User) :
  query_first p rows = None <-> forall u, u ∈ rows -> p u = false.
Proof.
  unfold query_first. induction rows as [|u rows IH]; simpl.
  - split; [intros _ u Hu; now apply elem_of_nil in Hu|reflexivity].
  - destruct (p u) eqn:E.
    + split; [discriminate|]. intros H. specialize (H u ltac:(left)). congruence.
    + rewrite IH. split.
      * intros H v Hv. apply elem_of_cons in Hv as [->|Hv]; auto.
      * intros H v Hv. apply H. now right.
Qed.

Lemma query_first_Some (p : User -> bool) (rows : list User) (u : User) :
  query_first p rows = Some u -> u ∈ rows /\ p u = true.
Proof.
  unfold query_first. induction rows as [|v rows IH]; simpl; [discriminate|].
  destruct (p v) eqn:E.
  - intros [= ->]. split; [left|assumption].
  - intros H. destruct (IH H). split; [now right|assumption].
Qed.

Lemma existsb_false_query (p : User -> bool) (rows : list User) :
  query_first p rows = None -> existsb p rows = false.
Proof.
  unfold query_first. induction rows as [|v rows IH]; simpl; [reflexivity|].
  destruct (p v); [discriminate|]. exact IH.
Qed.

Lemma key_not_in_rows (k : string) (rows : list User) :
  query_first (has_api_key k) rows = None <-> k ∉ api_key <$> rows.
Proof.
  rewrite query_first_None, list_elem_of_fmap. split.
  - intros H (u & -> & Hu). specialize (H u Hu).
    assert (has_api_key (api_key u) u = true) by now apply has_api_key_true.
    congruence.
  - intros H u Hu. destruct (has_api_key k u) eqn:E; [|reflexivity].
    apply has_api_key_true in E. exfalso. apply H. now exists u.
Qed.

Section KeyFacts.
Variable token_hex : nat -> string.
Variable hash_password : string -> string.

(** The loop returns the first drawn value that no row has as its key, and
    runs out of fuel only when every value drawn is the key of a row. *)
Lemma generate_api_key_spec (rows : list User) (fuel drawn : nat) :
  match _generate_api_key token_hex fuel rows drawn with
  | Some (key, drawn') =>
      (key ∉ api_key <$> rows) /\
      exists n, (n < fuel)%nat /\ key = token_hex (drawn + n) /\ drawn' = S (drawn + n) /\
        forall m, (m < n)%nat -> token_hex (drawn + m) ∈ api_key <$> rows
  | None => forall n, (n < fuel)%nat -> token_hex (drawn + n) ∈ api_key <$> rows
  end.
Proof.
  revert drawn. induction fuel as [|fuel IH]; intros drawn; cbn [_generate_api_key].
  - intros n Hn. lia.
  - destruct (query_first (has_api_key (token_hex drawn)) rows) as [u|] eqn:E.
    + assert (Hcol : token_hex drawn ∈ api_key <$> rows).
      { apply query_first_Some in E as [Hu Hk]. apply has_api_key_true in Hk.
        apply list_elem_of_fmap. now exists u. }
      specialize (IH (S drawn)).
      destruct (_generate_api_key token_hex fuel rows (S drawn)) as [[key drawn']|].
      * destruct IH as (Hfresh & n & Hn & Hkey & Hd & Hbefore).
        split; [assumption|]. exists (S n).
        replace (drawn + S n)%nat with (S drawn + n)%nat by lia.
        repeat split; try assumption; try lia.
        intros m Hm. destruct m as [|m]; [now rewrite Nat.add_0_r|].
        replace (drawn + S m)%nat with (S drawn + m)%nat by lia. apply Hbefore. lia.
      * intros n Hn. destruct n as [|n]; [now rewrite Nat.add_0_r|].
        replace (drawn + S n)%nat with (S drawn + n)%nat by lia. apply IH. lia.
    + split; [now apply key_not_in_rows|]. exists 0%nat. rewrite Nat.add_0_r.
      repeat split; try lia.
Qed.

Lemma update_first_keys (p : User -> bool) (k : string) (rows : list User) (x : string) :
  x ∈ api_key <$> update_first p (set_api_key k) rows -> x = k \/ x ∈ api_key <$> rows.
Proof.
  induction rows as [|u rows IH]; simpl; [now right|].
  destruct (p u); cbn [fmap list_fmap]; rewrite !elem_of_cons.
  - intros [Hx|H]; [left; exact Hx|]. right. now right.
  - intros [Hx|H]; [right; now left|]. destruct (IH H); [now left|]. right. now right.
Qed.

Lemma update_first_keys_NoDup (p : User -> bool) (k : string) (rows : list User) :
  NoDup (api_key <$> rows) -> k ∉ api_key <$> rows ->
  NoDup (api_key <$> update_first p (set_api_key k) rows).
Proof.
  induction rows as [|u rows IH]; simpl; [constructor|].
  intros [Hu Hnd]%NoDup_cons Hk. apply not_elem_of_cons in Hk as [Hku Hk].
  destruct (p u); cbn [fmap list_fmap]; apply NoDup_cons.
  - split; assumption.
  - split; [|now apply IH].
    intros [Hx|H]%update_first_keys; [congruence|contradiction].
Qed.

Lemma update_first_emails (p : User -> bool) (k : string) (rows : list User) :
  email <$> update_first p (set_api_key k) rows = email <$> rows.
Proof.
  induction rows as [|u rows IH]; simpl; [reflexivity|].
  destruct (p u); cbn [fmap list_fmap]; [reflexivity|]. f_equal. exact IH.
Qed.

Lemma others_subset (p : User -> bool) (rows : list User) (u : User) :
  u ∈ others p rows -> u ∈ rows.
Proof.
  induction rows as [|v rows IH]; simpl; [trivial|].
  destruct (p v); [now right|].
  intros [->|H]%elem_of_cons; [left|right; now apply IH].
Qed.

Lemma others_update_first (p : User -> bool) (f : User -> User) (rows : list User) :
  (forall u, p (f u) = p u) ->
  others p (update_first p f rows) = others p rows.
Proof.
  intros Hf. induction rows as [|v rows IH]; simpl; [reflexivity|].
  destruct (p v) eqn:E; simpl.
  - now rewrite Hf, E.
  - rewrite E. f_equal. exact IH.
Qed.

Lemma query_first_update_first (p : User -> bool) (f : User -> User)
    (rows : list User) (u : User) :
  (forall u, p (f u) = p u) ->
  query_first p rows = Some u ->
  query_first p (update_first p f rows) = Some (f u).
Proof.
  unfold query_first. intros Hf. induction rows as [|v rows IH]; simpl; [discriminate|].
  destruct (p v) eqn:E; simpl.
  - intros [= ->]. now rewrite Hf, E.
  - rewrite E. exact IH.
Qed.

(** C9: on a table whose API keys are pairwise distinct, [create_user] and
    [regenerate_api_key] return and store a key that no row had, so the key
    is distinct from every other user's key and the keys stay pairwise
    distinct; the only errors they raise are "User already exists" for a
    taken email and "User not found", never one for a key collision; and
    they fail to return only while every value drawn so far collides. *)
Theorem C9_api_keys_stay_unique (rows : list User) (fuel drawn : nat) :
  NoDup (api_key <$> rows) ->
  (forall email password : string,
     match create_user token_hex hash_password fuel email password rows drawn with
     | (rows', _, Returned user) =>
         rows' = (rows ++ [user])%list /\
         (forall u, u ∈ rows -> api_key u <> api_key user) /\
         NoDup (api_key <$> rows')
     | (rows', _, Raised e) =>
         rows' = rows /\ e = ValueError "User already exists" /\
         exists u, u ∈ rows /\ Database.email u = email
     | (rows', _, Diverged) =>
         rows' = rows /\
         forall n, (n < fuel)%nat -> token_hex (drawn + n) ∈ api_key <$> rows
     end) /\
  (forall email : string,
     match regenerate_api_key token_hex fuel email rows drawn with
     | (rows', _, Returned new_key) =>
         (forall u, u ∈ rows -> api_key u <> new_key) /\
         (exists user, get_user_by_email email rows = Some user /\
            get_user_by_email email rows' = Some (set_api_key new_key user)) /\
         (forall u, u ∈ others (has_email email) rows' -> api_key u <> new_key) /\
         NoDup (api_key <$> rows')
     | (rows', _, Raised e) =>
         rows' = rows /\ e = ValueError "User not found" /\
         get_user_by_email email rows = None
     | (rows', _, Diverged) =>
         rows' = rows /\
         forall n, (n < fuel)%nat -> token_hex (drawn + n) ∈ api_key <$> rows
     end).
Proof.
  intros Hnd.
  pose proof (generate_api_key_spec rows fuel drawn) as Hgen.
  assert (Hfresh : forall key, key ∉ api_key <$> rows ->
            forall u, u ∈ rows -> api_key u <> key).
  { intros key Hk u Hu <-. apply Hk, list_elem_of_fmap. now exists u. }
  split.
  - intros e password. unfold create_user.
    destruct (query_first (has_email e) rows) as [u|] eqn:Hq.
    { apply query_first_Some in Hq as [Hu He]. apply has_email_true in He.
      split; [reflexivity|]. split; [reflexivity|]. now exists u. }
    destruct (_generate_api_key token_hex fuel rows drawn) as [[key drawn']|];
      [|split; [reflexivity|exact Hgen]].
    destruct Hgen as (Hkey & _).
    unfold violates_unique. cbn [Database.email api_key].
    rewrite (existsb_false_query _ _ Hq).
    rewrite (existsb_false_query _ _ (proj2 (key_not_in_rows key rows) Hkey)).
    cbn [orb]. split; [reflexivity|]. split; [now apply Hfresh|].
    rewrite fmap_app. apply NoDup_app. split; [assumption|]. split.
    + intros x Hx [->|Hin]%elem_of_cons; [contradiction|now apply elem_of_nil in Hin].
    + apply NoDup_singleton.
  - intros e. unfold regenerate_api_key, get_user_by_email.
    destruct (query_first (has_email e) rows) as [user|] eqn:Hq;
      [|repeat split; reflexivity].
    destruct (_generate_api_key token_hex fuel rows drawn) as [[key drawn']|];
      [|split; [reflexivity|exact Hgen]].
    destruct Hgen as (Hkey & _).
    assert (Hoth : existsb (has_api_key key) (others (has_email e) rows) = false).
    { apply existsb_false_query, query_first_None. intros u Hu.
      apply others_subset in Hu.
      destruct (has_api_key key u) eqn:E; [|reflexivity].
      apply has_api_key_true in E. now destruct (Hfresh key Hkey u Hu). }
    rewrite Hoth.
    assert (Hpres : forall u, has_email e (set_api_key key u) = has_email e u)
      by reflexivity.
    split; [now apply Hfresh|]. split.
    { exists user. split; [reflexivity|].
      now apply query_first_update_first. }
    split.
    { rewrite others_update_first by exact Hpres.
      intros u Hu. apply others_subset in Hu. now apply Hfresh. }
    now apply update_first_keys_NoDup.
Qed.

End KeyFacts.

Lemma C9_api_keys_stay_unique_witness :
  let token_hex := fun n : nat => if (n =? 0)%nat then "k1" else "k2" in
  let alice := mkUser "alice@example.com" "hash" "k1" 0 0 "Free" None in
  regenerate_api_key token_hex 5 "alice@example.com" [alice] 0
    = ([set_api_key "k2" alice], 2%nat, Returned "k2") /\
  NoDup (api_key <$> (regenerate_api_key token_hex 5 "alice@example.com" [alice] 0).1.1).
Proof.
  intros token_hex alice.
  destruct (C9_api_keys_stay_unique token_hex (fun p => p) [alice] 5 0) as [_ Hregen].
  { apply NoDup_singleton. }
  specialize (Hregen "alice@example.com").
  split; [reflexivity|].
  exact (proj2 (proj2 (proj2 Hregen))).
Defined.

(** ** POST /automation/run *)

Import Main.

Lemma increment_usage_found (e : string) (edits : Z) (rows : list User) (u : User) :
  get_user_by_email e rows = Some u ->
  get_user_by_email e (increment_usage e edits rows) = Some (add_edits edits u) /\
  others (has_email e) (increment_usage e edits rows) = others (has_email e) rows.
Proof.
  unfold get_user_by_email, increment_usage. intros H. rewrite H.
  assert (Hpres : forall v, has_email e (add_edits edits v) = has_email e v) by reflexivity.
  split.
  - now apply query_first_update_first.
  - now apply others_update_first.
Qed.

Lemma get_current_user_found (decode_access_token : string -> option (list (string * string)))
    (token : string) (rows : list User) (user : User) :
  get_current_user decode_access_token token rows = inr user ->
  get_user_by_email (email user) rows = Some user.
Proof.
  unfold get_current_user.
  destruct (decode_access_token token) as [[|kv payload]|]; try discriminate.
  destruct (payload_get "sub" (kv :: payload)) as [e|]; try discriminate.
  destruct (get_user_by_email e rows) as [u|] eqn:E; try discriminate.
  intros [= ->].
  pose proof E as E'. unfold get_user_by_email in E'.
  apply query_first_Some in E' as [_ He]. apply has_email_true in He. now rewrite He.
Qed.

(** C8, as the specification has it, fails in its second half: when the
    automation service answers 503, or cannot be reached, the caller gets
    status 200 with the [status] field "started"; only [automationResponse]
    is false. The counters are incremented all the same. *)
Lemma C8_counterexample :
  post_automation_run decode_demo (service_answers 503) "token-alice" [alice; bob]
    = ([add_edits 1 alice; bob], Response 200 (automation_body "started" false)) /\
  post_automation_run decode_demo service_unreachable "token-alice" [alice; bob]
    = ([add_edits 1 alice; bob], Response 200 (automation_body "started" false)) /\
  failure_status (Response 200 (automation_body "started" false)) = false.
Proof. vm_compute. repeat split. Qed.

(** C8, amended: for every authenticated call to POST /automation/run, the
    monthly and total counters of the user are incremented by 1 and the
    other rows are left as they were, whether the automation service answers
    200, answers another status or cannot be reached; the outcome is given
    to the caller as the boolean [automationResponse], true exactly on a 200
    answer, in a response of status 200 whose [status] field is "started". *)
Theorem C8_usage_incremented_whatever_the_outcome
    (decode_access_token : string -> option (list (string * string)))
    (post_automation : string -> option nat)
    (token : string) (rows : list User) (user : User) :
  get_current_user decode_access_token token rows = inr user ->
  let rows' := (post_automation_run decode_access_token post_automation token rows).1 in
  let resp := (post_automation_run decode_access_token post_automation token rows).2 in
  (exists user', get_user_by_email (email user) rows' = Some user' /\
     monthly_edits user' = monthly_edits user + 1 /\
     total_edits user' = total_edits user + 1 /\
     api_key user' = api_key user) /\
  others (has_email (email user)) rows' = others (has_email (email user)) rows /\
  resp = Response 200 (automation_body "started"
           (trigger_automation post_automation (api_key user))) /\
  (trigger_automation post_automation (api_key user) = true <->
   post_automation (api_key user) = Some 200%nat) /\
  failure_status resp = false.
Proof.
  intros Hauth rows' resp. subst rows' resp.
  unfold post_automation_run. rewrite Hauth.
  unfold automation_run. cbn [fst snd].
  pose proof (get_current_user_found _ _ _ _ Hauth) as Hfound.
  destruct (increment_usage_found _ 1 _ _ Hfound) as [Hinc Hoth].
  split.
  { exists (add_edits 1 user). split; [exact Hinc|]. repeat split. }
  split; [exact Hoth|]. split; [reflexivity|]. split; [|reflexivity].
  unfold trigger_automation.
  destruct (post_automation (api_key user)) as [code|]; [|split; discriminate].
  rewrite Nat.eqb_eq. split; [now intros ->|now intros [= ->]].
Qed.

Lemma C8_usage_incremented_whatever_the_outcome_witness :
  (exists user', get_user_by_email "alice@example.com"
       (post_automation_run decode_demo service_unreachable "token-alice" [alice; bob]).1
     = Some user' /\ monthly_edits user' = 5 /\ total_edits user' = 10 /\
     api_key user' = "key-1") /\
  (post_automation_run decode_demo service_unreachable "token-alice" [alice; bob]).2
    = Response 200 (automation_body "started" false).
Proof.
  destruct (C8_usage_incremented_whatever_the_outcome decode_demo service_unreachable
              "token-alice" [alice; bob] alice eq_refl) as (Hinc & _ & Hresp & _).
  split; [exact Hinc|exact Hresp].
Defined.

(** * Further properties of the sources *)

(** ** draw_shape *)

Import BadgeDraw.

(** X1: [draw_shape] draws nothing for the shape "none" and, for every name
    other than "starburst_15" and "none" (in any letter case, so also for an
    unknown name), one ellipse whose bounding box starts at the anchor and
    has side 2 (size // 2): it stays inside the size-by-size box for
    [0 <= size] and is the whole box when the size is even. *)
Theorem X1_draw_shape_default_circle (shape_type fill_color : string) (x y size : Z) :
  (lower shape_type = "none" -> draw_shape shape_type fill_color x y size = []) /\
  (lower shape_type <> "starburst_15" -> lower shape_type <> "none" ->
   draw_shape shape_type fill_color x y size
     = [draw_ellipse x y (x + 2 * (size / 2)) (y + 2 * (size / 2)) fill_color] /\
   (0 <= size -> x <= x + 2 * (size / 2) <= x + size) /\
   (Z.even size = true -> 2 * (size / 2) = size)).
Proof.
  unfold draw_shape, get_polygon_for_shape. split.
  - intros ->. reflexivity.
  - intros Hs Hn.
    destruct (String.eqb_spec (lower shape_type) "starburst_15"); [contradiction|].
    destruct (String.eqb_spec (lower shape_type) "none"); [contradiction|].
    split.
    + destruct (String.eqb (lower shape_type) "circle"); do 2 f_equal; lia.
    + split.
      * intros Hsize. pose proof (Z.mul_div_le size 2 ltac:(lia)).
        pose proof (Z.div_pos size 2 Hsize ltac:(lia)). lia.
      * intros [k ->]%Z.even_spec. rewrite (Z.mul_comm 2 k), Z.div_mul by lia. lia.
Qed.

Lemma X1_draw_shape_default_circle_witness :
  draw_shape "Square" "#FF0000" 840 40 200 = [draw_ellipse 840 40 1040 240 "#FF0000"] /\
  draw_shape "NONE" "#FF0000" 840 40 200 = [].
Proof.
  destruct (X1_draw_shape_default_circle "Square" "#FF0000" 840 40 200) as [_ Hc].
  destruct (X1_draw_shape_default_circle "NONE" "#FF0000" 840 40 200) as [Hn _].
  destruct Hc as (Hd & _ & _); [discriminate|discriminate|].
  split; [exact Hd|exact (Hn eq_refl)].
Defined.

(** X2: for [0 <= size], every vertex of the starburst lies in the square
    of half-side 0.5 size around the centre (x + size // 2, y + size // 2),
    and vertex 0 lies on its right edge, at the height of the centre. *)
Theorem X2_starburst_inside_box (shape_type : string) (x y size : Z)
    (points : list (R * R)) :
  lower shape_type = "starburst_15" -> 0 <= size ->
  get_polygon_for_shape shape_type x y size = polygon points ->
  (forall (i : nat) (px py : R), points !! i = Some (px, py) ->
     (IZR (x + size / 2) - IZR size / 2 <= px <= IZR (x + size / 2) + IZR size / 2)%R /\
     (IZR (y + size / 2) - IZR size / 2 <= py <= IZR (y + size / 2) + IZR size / 2)%R) /\
  points !! 0%nat = Some (IZR (x + size / 2) + IZR size / 2, IZR (y + size / 2))%R.
Proof.
  intros Hname Hsize Hshape.
  assert (Hp : points
    = map (starburst_point (x + size / 2) (y + size / 2) size) (seq 0 30)).
  { rewrite (get_polygon_starburst _ _ _ _ Hname) in Hshape. congruence. }
  clear Hshape. subst points.
  assert (Hs : (0 <= IZR size)%R) by now apply IZR_le.
  split.
  - intros i px py Hi.
    rewrite list_lookup_fmap in Hi.
    destruct (seq 0 30 !! i) as [j|] eqn:Hj; [|discriminate].
    cbn [fmap option_fmap option_map] in Hi. unfold starburst_point in Hi.
    rewrite mod2_even in Hi. injection Hi as <- <-.
    pose proof (COS_bound (INR j / 30 * 2 * PI)) as [Hc1 Hc2].
    pose proof (SIN_bound (INR j / 30 * 2 * PI)) as [Hs1 Hs2].
    set (co := cos (INR j / 30 * 2 * PI)) in *.
    set (si := sin (INR j / 30 * 2 * PI)) in *.
    assert (0 <= IZR size * (1 - co))%R by (apply Rmult_le_pos; lra).
    assert (0 <= IZR size * (1 + co))%R by (apply Rmult_le_pos; lra).
    assert (0 <= IZR size * (1 - si))%R by (apply Rmult_le_pos; lra).
    assert (0 <= IZR size * (1 + si))%R by (apply Rmult_le_pos; lra).
    destruct (Nat.even j); split; split; lra.
  - cbn [seq map fmap list_fmap lookup list_lookup]. unfold starburst_point.
    cbn [Nat.modulo Nat.divmod Nat.eqb snd fst Nat.sub INR].
    replace (0 / 30 * 2 * PI)%R with 0%R by (unfold Rdiv; ring).
    rewrite cos_0, sin_0. do 2 f_equal; lra.
Qed.

Lemma X2_starburst_inside_box_witness :
  exists points, get_polygon_for_shape "starburst_15" 840 40 200 = polygon points /\
    points !! 0%nat = Some (1040, 140)%R.
Proof.
  pose (points := points_of (get_polygon_for_shape "starburst_15" 840 40 200)).
  exists points.
  assert (Hshape : get_polygon_for_shape "starburst_15" 840 40 200 = polygon points)
    by reflexivity.
  split; [exact Hshape|].
  destruct (X2_starburst_inside_box "starburst_15" 840 40 200 points eq_refl
              ltac:(lia) Hshape) as [_ H0].
  rewrite H0. do 2 f_equal.
  change (840 + 200 / 2) with 940. lra.
Defined.

(** ** split_two_lines, wrap_text: what a line can be *)

Import ComposerUtils PriceText.

Section LineFacts.
Variable textlength : string -> font -> Q.
Variable f : font.
Variable max_width : Q.

Lemma wrap_words_lines_ok (all_words words : list string) (st : wrap_state) :
  (forall w, w ∈ words -> w ∈ all_words) ->
  Forall (fun l => l <> EmptyString /\
            (Qle_bool (textlength l f) max_width = true \/ l ∈ all_words)) (lines st) ->
  (Qle_bool (textlength (current st) f) max_width = true \/ current st ∈ all_words
   \/ current st = EmptyString) ->
  let st' := wrap_words textlength f max_width words st in
  Forall (fun l => l <> EmptyString /\
            (Qle_bool (textlength l f) max_width = true \/ l ∈ all_words)) (lines st') /\
  (Qle_bool (textlength (current st') f) max_width = true \/ current st' ∈ all_words
   \/ current st' = EmptyString).
Proof.
  revert st. induction words as [|w words IH]; intros st Hsub Hl Hc; cbn [wrap_words].
  - split; assumption.
  - assert (Hstep :
      Forall (fun l => l <> EmptyString /\
         (Qle_bool (textlength l f) max_width = true \/ l ∈ all_words))
        (lines (place_word textlength f max_width st w)) /\
      (Qle_bool (textlength (current (place_word textlength f max_width st w)) f)
         max_width = true
       \/ current (place_word textlength f max_width st w) ∈ all_words
       \/ current (place_word textlength f max_width st w) = EmptyString)).
    { unfold place_word.
      destruct (Qle_bool (textlength (strip (current st ++ " " ++ w)) f) max_width) eqn:E;
        cbn [lines current].
      - split; [assumption|now left].
      - split; [|right; left; apply Hsub; left].
        destruct (current st) as [|c s] eqn:Ec; cbn [truthy]; [assumption|].
        apply Forall_app. split; [assumption|].
        apply Forall_singleton. split; [discriminate|].
        destruct Hc as [?|[?|?]]; [now left|now right|discriminate]. }
    destruct Hstep as [Hl' Hc'].
    destruct (length (lines (place_word textlength f max_width st w)) =? 2)%nat.
    + split; assumption.
    + apply IH; [|assumption|assumption]. intros v Hv. apply Hsub. now right.
Qed.

Lemma split_two_lines_line_ok (text line : string) :
  line ∈ split_two_lines textlength text f max_width ->
  line <> EmptyString /\
  (Qle_bool (textlength line f) max_width = true \/ line ∈ split " " text).
Proof.
  unfold split_two_lines. intros Hin.
  destruct (wrap_words_lines_ok (split " " text) (split " " text) (WrapState [] EmptyString))
    as [Hl Hc]; [auto|constructor|now right; right|].
  set (st := wrap_words textlength f max_width (split " " text) (WrapState [] EmptyString)) in *.
  apply elem_of_take in Hin as (i & Hi & _).
  apply list_elem_of_lookup_2 in Hi.
  destruct (truthy (current st) && (length (lines st) <? 2)%nat) eqn:E.
  - apply andb_true_iff in E as [Ht _].
    apply elem_of_app in Hi as [Hi|Hi].
    + rewrite Forall_forall in Hl. now apply Hl.
    + apply list_elem_of_singleton in Hi as ->.
      split; [now destruct (current st)|].
      destruct Hc as [?|[?|Hc]]; [now left|now right|]. rewrite Hc in Ht. discriminate.
  - rewrite Forall_forall in Hl. now apply Hl.
Qed.

(** X3: every line [split_two_lines] returns is non-empty, and it either
    fits into [max_width] or is one single word of the text: only a word that
    is too wide by itself makes a line that overflows. *)
Theorem X3_split_two_lines_line_fits_or_is_word (text line : string) :
  line ∈ split_two_lines textlength text f max_width ->
  line <> EmptyString /\
  (Qle_bool (textlength line f) max_width = true \/ line ∈ split " " text).
Proof.
  intros Hin. split.
  - now apply (split_two_lines_line_ok text line Hin).
  - destruct (split_two_lines_line_ok text line Hin) as [_ [H|H]]; [now left|now right].
Qed.

End LineFacts.

Lemma X3_split_two_lines_line_fits_or_is_word_witness :
  "$1,000,000" <> EmptyString /\
  (Qle_bool (fixed_pitch "$1,000,000" (truetype "arialbd.ttf" 70)) 150 = true \/
   "$1,000,000" ∈ split " " "$1,000,000 only").
Proof.
  apply (X3_split_two_lines_line_fits_or_is_word fixed_pitch (truetype "arialbd.ttf" 70)
           150 "$1,000,000 only" "$1,000,000").
  vm_compute. left.
Defined.

Section BlankText.
Variable textlength : string -> font -> Q.
Variable line_height : string -> font -> Q.

Lemma split_spaces (text : string) :
  forallb (Ascii.eqb " ") (list_ascii_of_string text) = true ->
  Forall (fun w => w = EmptyString) (split " " text).
Proof.
  induction text as [|c text IH]; cbn [list_ascii_of_string forallb split].
  - intros _. now constructor.
  - intros [Hc Ht]%andb_true_iff. rewrite Ascii.eqb_sym in Hc. rewrite Hc.
    constructor; [reflexivity|now apply IH].
Qed.

Lemma wrap_words_blank (f : font) (max_width : Q) (words : list string) :
  Forall (fun w => w = EmptyString) words ->
  wrap_words textlength f max_width words (WrapState [] EmptyString)
  = WrapState [] EmptyString.
Proof.
  induction 1 as [|w words -> _ IH]; cbn [wrap_words]; [reflexivity|].
  assert (Hstep : place_word textlength f max_width (WrapState [] EmptyString) EmptyString
                  = WrapState [] EmptyString).
  { unfold place_word. cbn [current lines truthy].
    change (strip (EmptyString ++ " " ++ EmptyString)) with EmptyString.
    now destruct (Qle_bool _ _). }
  rewrite Hstep. cbn [lines length Nat.eqb]. exact IH.
Qed.

(** X4: a price text that is empty or made of spaces only gives no line at
    any font and width, so [compose_image] keeps the larger font and draws
    no price text: of its [draw.text] calls only the one of the disclaimer
    is left, which it makes for every price text as its last. *)
Theorem X4_blank_price_text_draws_only_disclaimer (text : string) (f : font)
    (max_width : Q) (truetype_ok arial_ok : bool) (badge_color : string) :
  forallb (Ascii.eqb " ") (list_ascii_of_string text) = true ->
  split_two_lines textlength text f max_width = [] /\
  compose_image_price_lines textlength truetype_ok text
    = ((load_price_fonts truetype_ok).1, []) /\
  compose_image_text textlength line_height truetype_ok badge_color text = [] /\
  (exists call,
     compose_image_draw_text textlength line_height truetype_ok arial_ok badge_color text
     = [call] /\
     text_line call = DISCLAIMER_TEXT /\ text_fill call = "#777" /\
     text_font call = (if arial_ok then truetype "arial.ttf" 24 else load_default) /\
     (text_x call == 1040 - textlength DISCLAIMER_TEXT (text_font call))%Q /\
     (text_y call == 1030)%Q) /\
  (forall price_text,
     exists calls call,
       compose_image_draw_text textlength line_height truetype_ok arial_ok badge_color
         price_text = (calls ++ [call])%list /\
       calls = compose_image_text textlength line_height truetype_ok badge_color price_text /\
       text_line call = DISCLAIMER_TEXT).
Proof.
  intros Hblank.
  assert (Hsplit : forall f' w, split_two_lines textlength text f' w = []).
  { intros f' w. unfold split_two_lines.
    now rewrite (wrap_words_blank f' w _ (split_spaces _ Hblank)). }
  split; [apply Hsplit|].
  assert (Hlines : compose_image_price_lines textlength truetype_ok text
                   = ((load_price_fonts truetype_ok).1, [])).
  { unfold compose_image_price_lines.
    destruct (load_price_fonts truetype_ok) as [fm fs]. now rewrite !Hsplit. }
  split; [exact Hlines|].
  assert (Htext : compose_image_text textlength line_height truetype_ok badge_color text = []).
  { unfold compose_image_text. now rewrite Hlines. }
  split; [exact Htext|]. split.
  - unfold compose_image_draw_text. rewrite Htext. cbn [app]. unfold draw_disclaimer.
    eexists. split; [reflexivity|]. cbn [text_line text_fill text_font text_x text_y].
    repeat split; try reflexivity.
    unfold CANVAS_SIZE, MARGIN. cbn [fst]. unfold Qeq, Qminus, Qplus, Qopp, inject_Z.
    cbn [Qnum Qden]. lia.
  - intros price_text. unfold compose_image_draw_text, draw_disclaimer.
    eexists _, _. split; [reflexivity|]. split; reflexivity.
Qed.

End BlankText.

Lemma X4_blank_price_text_draws_only_disclaimer_witness :
  compose_image_draw_text fixed_pitch (fun _ _ => 50%Q) true true "#FF0000" "   "
  = [TextCall (1080 - fixed_pitch DISCLAIMER_TEXT (truetype "arial.ttf" 24) - 40)%Q 1030
       DISCLAIMER_TEXT "#777" (truetype "arial.ttf" 24)].
Proof.
  destruct (X4_blank_price_text_draws_only_disclaimer fixed_pitch (fun _ _ => 50%Q)
              "   " load_default 150 true true "#FF0000" eq_refl)
    as (_ & _ & Htext & _).
  unfold compose_image_draw_text. rewrite Htext. reflexivity.
Defined.

(** ** wrap_text *)

Section WrapTextFacts.
Variable textlength : string -> font -> Q.
Variable f : font.
Variable max_width : Q.

Lemma wrap_step_lines_ok (all_words words : list string) (st : wrap_state) :
  (forall w, w ∈ words -> w ∈ all_words) ->
  Forall (fun l => Qle_bool (textlength l f) max_width = true \/ l ∈ all_words
                   \/ l = EmptyString) (lines st) ->
  (Qle_bool (textlength (current st) f) max_width = true \/ current st ∈ all_words
   \/ current st = EmptyString) ->
  let st' := foldl (wrap_step textlength f max_width) st words in
  Forall (fun l => Qle_bool (textlength l f) max_width = true \/ l ∈ all_words
                   \/ l = EmptyString) (lines st') /\
  (Qle_bool (textlength (current st') f) max_width = true \/ current st' ∈ all_words
   \/ current st' = EmptyString).
Proof.
  revert st. induction words as [|w words IH]; intros st Hsub Hl Hc; cbn [foldl].
  - split; assumption.
  - apply IH; [intros v Hv; apply Hsub; now right| |]; unfold wrap_step;
      destruct (Qle_bool (textlength (strip (current st ++ " " ++ w)) f) max_width) eqn:E;
      cbn [lines current]; auto.
    + apply Forall_app. split; [assumption|]. now apply Forall_singleton.
    + right. left. apply Hsub. left.
Qed.

(** X5: every line [wrap_text] returns fits into [max_width], or is one
    single word of the text, or is empty. *)
Theorem X5_wrap_text_line_fits_or_is_word (text line : string) :
  line ∈ wrap_text textlength text f max_width ->
  Qle_bool (textlength line f) max_width = true \/ line ∈ split_ws text
  \/ line = EmptyString.
Proof.
  unfold wrap_text. intros Hin.
  destruct (wrap_step_lines_ok (split_ws text) (split_ws text) (WrapState [] EmptyString))
    as [Hl Hc]; [auto|constructor|now right; right|].
  set (st := foldl (wrap_step textlength f max_width) (WrapState [] EmptyString)
               (split_ws text)) in *.
  rewrite Forall_forall in Hl.
  destruct (truthy (current st)); [|now apply Hl].
  apply elem_of_app in Hin as [Hin|Hin]; [now apply Hl|].
  now apply list_elem_of_singleton in Hin as ->.
Qed.

End WrapTextFacts.

Lemma X5_wrap_text_line_fits_or_is_word_witness :
  Qle_bool (fixed_pitch "Fresh apples" load_default) 100 = true \/
  "Fresh apples" ∈ split_ws "Fresh  apples today" \/ "Fresh apples" = EmptyString.
Proof.
  apply (X5_wrap_text_line_fits_or_is_word fixed_pitch load_default 100
           "Fresh  apples today" "Fresh apples").
  vm_compute. left.
Defined.

(** *** wrap_text loses no word *)

Lemma string_app_cons (a : ascii) (t u : string) : String a t ++ u = String a (t ++ u).
Proof. reflexivity. Qed.

Lemma string_app_nil (u : string) : EmptyString ++ u = u.
Proof. reflexivity. Qed.

Lemma rstrip_fixed (sp : ascii -> bool) (s : string) (c : ascii) :
  sp c = false ->
  rstrip_with sp (s ++ String c EmptyString) = s ++ String c EmptyString.
Proof.
  intros Hc. induction s as [|a s IH].
  - rewrite string_app_nil. cbn [rstrip_with]. now rewrite Hc.
  - rewrite string_app_cons. cbn [rstrip_with]. rewrite IH.
    destruct s; [rewrite string_app_nil|rewrite string_app_cons]; reflexivity.
Qed.

Lemma strip_fixed (s s' : string) (c c' : ascii) :
  isspace c = false -> isspace c' = false ->
  s = String c s' -> (exists t, s = t ++ String c' EmptyString) ->
  strip s = s.
Proof.
  intros Hc Hc' Hs [t Ht]. unfold strip.
  assert (Hl : lstrip_with isspace s = s) by (rewrite Hs; cbn; now rewrite Hc).
  rewrite Hl, Ht. now apply rstrip_fixed.
Qed.

Lemma is_word_starts (w : string) :
  is_word w = true -> exists c s', w = String c s' /\ isspace c = false.
Proof.
  unfold is_word. destruct w as [|c s']; [discriminate|].
  cbn [truthy list_ascii_of_string forallb andb].
  intros [Hc _]%andb_true_iff. apply negb_true_iff in Hc. now exists c, s'.
Qed.

Lemma is_word_ends (w : string) :
  is_word w = true -> exists t c, w = t ++ String c EmptyString /\ isspace c = false.
Proof.
  unfold is_word. induction w as [|a w IH]; [discriminate|].
  cbn [truthy list_ascii_of_string forallb andb].
  intros [Ha Hw]%andb_true_iff. apply negb_true_iff in Ha.
  destruct w as [|b w].
  - now exists EmptyString, a.
  - destruct IH as (t & c & Ht & Hc); [exact Hw|].
    exists (String a t), c. split; [|exact Hc].
    rewrite string_app_cons. f_equal. exact Ht.
Qed.

Lemma string_app_assoc (a b c : string) : (a ++ b) ++ c = a ++ (b ++ c).
Proof.
  induction a as [|x a IH]; [reflexivity|].
  rewrite !string_app_cons. now rewrite IH.
Qed.

Lemma join_words_snoc (g : list string) (w : string) :
  g <> [] -> join_words (g ++ [w]) = join_words g ++ " " ++ w.
Proof.
  induction g as [|v [|v' g] IH]; intros Hg; [congruence|reflexivity|].
  change (join_words ((v :: v' :: g) ++ [w]))
    with (v ++ " " ++ join_words ((v' :: g) ++ [w])).
  rewrite IH by discriminate.
  change (join_words (v :: v' :: g)) with (v ++ " " ++ join_words (v' :: g)).
  now rewrite !string_app_assoc.
Qed.

Lemma join_words_starts (g : list string) :
  g <> [] -> Forall (fun w => is_word w = true) g ->
  exists c s', join_words g = String c s' /\ isspace c = false.
Proof.
  destruct g as [|w g]; [congruence|]. intros _ [Hw _]%Forall_cons.
  destruct (is_word_starts w Hw) as (c & s' & -> & Hc).
  destruct g; [now exists c, s'|].
  eexists c, _. split; [reflexivity|exact Hc].
Qed.

Lemma join_words_ends (g : list string) :
  g <> [] -> Forall (fun w => is_word w = true) g ->
  exists t c, join_words g = t ++ String c EmptyString /\ isspace c = false.
Proof.
  induction g as [|w [|w' g] IH]; intros Hg Hall; [congruence| |].
  - apply Forall_cons in Hall as [Hw _]. now apply is_word_ends.
  - apply Forall_cons in Hall as [_ Hall].
    destruct (IH ltac:(discriminate) Hall) as (t & c & Ht & Hc).
    exists (w ++ " " ++ t), c. split; [|exact Hc].
    change (join_words (w :: w' :: g)) with (w ++ " " ++ join_words (w' :: g)).
    now rewrite Ht, !string_app_assoc.
Qed.

(** The text tried for the line is the current words and the new one,
    joined: [strip] has nothing to remove. *)
Lemma strip_join_word (g : list string) (w : string) :
  Forall (fun w => is_word w = true) g -> is_word w = true ->
  strip (join_words g ++ " " ++ w) = join_words (g ++ [w]).
Proof.
  intros Hg Hw.
  destruct (is_word_starts w Hw) as (c & s' & Hws & Hc).
  destruct (is_word_ends w Hw) as (t & c' & Hwe & Hc').
  destruct g as [|v g].
  - cbn [join_words app String.append]. unfold strip. cbn [lstrip_with].
    change (isspace " ") with true. cbn iota.
    apply (strip_fixed w s' c c' Hc Hc' Hws). now exists t.
  - rewrite join_words_snoc by discriminate.
    destruct (join_words_starts (v :: g) ltac:(discriminate) Hg) as (a & r & Hj & Ha).
    apply (strip_fixed _ (r ++ " " ++ w) a c' Ha Hc').
    + now rewrite Hj.
    + exists (join_words (v :: g) ++ " " ++ t). now rewrite Hwe, !string_app_assoc.
Qed.

Lemma join_words_nonempty (g : list string) :
  g <> [] -> Forall (fun w => is_word w = true) g -> truthy (join_words g) = true.
Proof.
  intros Hg Hall. destruct (join_words_starts g Hg Hall) as (c & s' & -> & _).
  reflexivity.
Qed.

Lemma split_ws_words (s : string) : Forall (fun w => is_word w = true) (split_ws s).
Proof.
  assert (Hcons : forall c w, isspace c = false ->
            (w = EmptyString \/ is_word w = true) -> is_word (String c w) = true).
  { intros c w Hc Hw. unfold is_word in *.
    cbn [truthy list_ascii_of_string forallb andb]. rewrite Hc. cbn [negb andb].
    destruct Hw as [->|Hw]; [reflexivity|]. now apply andb_true_iff in Hw as [_ ?]. }
  induction s as [|c s IH]; cbn [split_ws]; [constructor|].
  destruct (isspace c) eqn:Hc; [exact IH|].
  destruct s as [|c' s']; [constructor; [apply Hcons; auto|constructor]|].
  destruct (isspace c') eqn:Hc'.
  - constructor; [apply Hcons; auto|exact IH].
  - destruct (split_ws (String c' s')) as [|w ws].
    + constructor; [apply Hcons; auto|constructor].
    + apply Forall_cons in IH as [Hw Hws]. constructor; [apply Hcons; auto|exact Hws].
Qed.

Section WrapTextWords.
Variable textlength : string -> font -> Q.
Variable f : font.
Variable max_width : Q.

(** The loop keeps the words in groups: the closed lines and the current
    line are the joined groups, in order. *)
Lemma wrap_fold_groups (ws : list string) :
  Forall (fun w => is_word w = true) ws ->
  forall (gs : list (list string)) (g : list string),
    Forall (fun w => is_word w = true) g ->
    Forall (fun g' => g' <> []) (tail gs) ->
    (gs <> [] -> g <> []) ->
    exists (gs' : list (list string)) (g' : list string),
      foldl (wrap_step textlength f max_width)
            (WrapState (join_words <$> gs) (join_words g)) ws
      = WrapState (join_words <$> gs') (join_words g') /\
      (concat gs' ++ g' = concat gs ++ g ++ ws)%list /\
      Forall (fun w => is_word w = true) g' /\
      Forall (fun g' => g' <> []) (tail gs') /\
      (gs' <> [] -> g' <> []).
Proof.
  induction 1 as [|w ws Hw Hws IH]; intros gs g Hg Hgs Hne; cbn [foldl].
  - exists gs, g. rewrite app_nil_r. auto.
  - unfold wrap_step at 2. cbn [current lines].
    rewrite (strip_join_word g w Hg Hw).
    destruct (Qle_bool (textlength (join_words (g ++ [w])) f) max_width).
    + destruct (IH gs (g ++ [w])%list) as (gs' & g' & Hfold & Hcat & Hg' & Hgs' & Hne').
      { apply Forall_app. split; [assumption|now apply Forall_singleton]. }
      { assumption. }
      { intros _. now destruct g. }
      exists gs', g'. rewrite Hfold, Hcat, <- !app_assoc. auto.
    + destruct (IH (gs ++ [g])%list [w]) as (gs' & g' & Hfold & Hcat & Hg' & Hgs' & Hne').
      { now apply Forall_singleton. }
      { destruct gs as [|g0 gs]; [constructor|].
        cbn [app tail] in *. apply Forall_app. split; [assumption|].
        apply Forall_singleton. now apply Hne. }
      { discriminate. }
      exists gs', g'. split.
      { rewrite <- Hfold. now rewrite fmap_app. }
      rewrite Hcat, concat_app. cbn [concat]. rewrite app_nil_r, <- !app_assoc. auto.
Qed.

(** X6: [wrap_text] loses no word and keeps their order: its lines are
    groups of consecutive words of the text, each group joined by single
    spaces. Only the first line can be an empty group (it is closed before
    any word is on it, when the first word does not fit). *)
Theorem X6_wrap_text_keeps_every_word (text : string) :
  exists groups : list (list string),
    wrap_text textlength text f max_width = join_words <$> groups /\
    concat groups = split_ws text /\
    Forall (fun g => g <> []) (tail groups).
Proof.
  unfold wrap_text.
  destruct (wrap_fold_groups (split_ws text) (split_ws_words text) [] [])
    as (gs & g & Hfold & Hcat & Hg & Hgs & Hne); [constructor|constructor|congruence|].
  cbn [fmap list_fmap join_words] in Hfold. rewrite Hfold. cbn [current lines].
  cbn [concat app] in Hcat.
  destruct g as [|w g].
  - cbn [join_words truthy].
    assert (gs = []) as -> by (destruct gs; [reflexivity|now destruct Hne]).
    exists []. rewrite <- Hcat. repeat split. constructor.
  - rewrite (join_words_nonempty (w :: g) ltac:(discriminate) Hg).
    exists (gs ++ [w :: g])%list. split; [now rewrite fmap_app|].
    split; [now rewrite concat_app, <- Hcat; cbn [concat]; rewrite app_nil_r|].
    destruct gs as [|g0 gs]; [constructor|].
    cbn [app tail] in *. apply Forall_app. split; [assumption|].
    now apply Forall_singleton.
Qed.

End WrapTextWords.

Lemma wrap_fold_lines_grow (textlength : string -> font -> Q) (f : font) (max_width : Q)
    (ws : list string) (st : wrap_state) :
  exists rest, lines (foldl (wrap_step textlength f max_width) st ws)
               = (lines st ++ rest)%list.
Proof.
  revert st. induction ws as [|v ws IH]; intros st; cbn [foldl].
  - exists []. now rewrite app_nil_r.
  - destruct (IH (wrap_step textlength f max_width st v)) as [rest Hrest].
    rewrite Hrest. unfold wrap_step.
    destruct (Qle_bool _ _); cbn [lines]; [now exists rest|].
    exists (current st :: rest). now rewrite <- app_assoc.
Qed.

(** X7: when the first word of the text does not fit, [wrap_text] opens
    its result with an empty line, while [split_two_lines] never returns
    an empty line. *)
Theorem X7_wrap_text_empty_first_line
    (textlength : string -> font -> Q) (f : font) (max_width : Q)
    (text w : string) (ws : list string) :
  split_ws text = w :: ws ->
  Qle_bool (textlength w f) max_width = false ->
  exists rest, wrap_text textlength text f max_width = EmptyString :: rest /\
    EmptyString ∉ split_two_lines textlength text f max_width.
Proof.
  intros Hsplit Hwide.
  assert (Hw : is_word w = true).
  { pose proof (split_ws_words text) as H. rewrite Hsplit in H.
    now apply Forall_cons in H as [? _]. }
  pose proof (strip_join_word [] w ltac:(constructor) Hw) as Hstrip.
  cbn [app join_words] in Hstrip.
  assert (Hstep : wrap_step textlength f max_width (WrapState [] EmptyString) w
                  = WrapState [EmptyString] w).
  { unfold wrap_step. cbn [current lines]. now rewrite Hstrip, Hwide. }
  unfold wrap_text. rewrite Hsplit. cbn [foldl]. rewrite Hstep.
  destruct (wrap_fold_lines_grow textlength f max_width ws (WrapState [EmptyString] w))
    as [rest Hrest].
  cbn [lines app] in Hrest.
  set (st := foldl (wrap_step textlength f max_width) (WrapState [EmptyString] w) ws) in *.
  exists (if truthy (current st) then rest ++ [current st] else rest)%list.
  split.
  - rewrite Hrest. now destruct (truthy (current st)).
  - intros Hin.
    now destruct (split_two_lines_line_ok textlength f max_width
                    text EmptyString Hin) as [? _].
Qed.

Lemma X7_wrap_text_empty_first_line_witness :
  exists rest, wrap_text fixed_pitch "Supercalifragilistic deal" load_default 100
               = EmptyString :: rest /\
    EmptyString ∉ split_two_lines fixed_pitch "Supercalifragilistic deal" load_default 100.
Proof.
  apply (X7_wrap_text_empty_first_line fixed_pitch load_default 100
           "Supercalifragilistic deal" "Supercalifragilistic" ["deal"]);
    reflexivity.
Defined.

(** ** compose_image: where the price text is drawn *)

Section DrawingFacts.
Variable textlength : string -> font -> Q.
Variable line_height : string -> font -> Q.
Variable use_font : font.

Lemma foldl_heights_acc (lines : list string) (a : Q) :
  (foldl (fun acc line => acc + line_height line use_font) a lines
   == a + foldl (fun acc line => acc + line_height line use_font) 0 lines)%Q.
Proof.
  revert a. induction lines as [|l lines IH]; intros a; cbn [foldl].
  - ring.
  - rewrite (IH (a + line_height l use_font)%Q), (IH (0 + line_height l use_font)%Q). ring.
Qed.

Lemma total_height_cons (l : string) (lines : list string) :
  (total_height line_height use_font (l :: lines)
   == line_height l use_font + inject_Z LINE_SPACING
      + total_height line_height use_font lines)%Q.
Proof.
  unfold total_height. cbn [foldl length].
  rewrite (foldl_heights_acc lines (0 + line_height l use_font)%Q).
  replace (Z.of_nat (S (length lines)) - 1) with ((Z.of_nat (length lines) - 1) + 1) by lia.
  rewrite inject_Z_plus. change (inject_Z 1) with 1%Q. ring.
Qed.

Lemma draw_lines_texts (bx badge_size : Z) (color : string) (lines : list string) (y : Q) :
  text_line <$> draw_lines textlength line_height bx badge_size color use_font lines y
  = lines.
Proof.
  revert y. induction lines as [|l lines IH]; intros y; cbn [draw_lines fmap list_fmap];
    [reflexivity|].
  cbn [text_line]. f_equal. apply IH.
Qed.

Lemma draw_lines_each (bx badge_size : Z) (color : string) (lines : list string) (y : Q)
    (c : text_call) :
  c ∈ draw_lines textlength line_height bx badge_size color use_font lines y ->
  (text_x c - inject_Z bx
   == inject_Z bx + inject_Z badge_size - (text_x c + textlength (text_line c) use_font))%Q /\
  text_fill c = color /\ text_font c = use_font.
Proof.
  revert y. induction lines as [|l lines IH]; intros y; cbn [draw_lines].
  - intros H. now apply elem_of_nil in H.
  - intros [->|H]%elem_of_cons; [|now apply (IH _ H)].
    cbn [text_x text_line text_fill text_font]. repeat split. field.
Qed.

Lemma draw_lines_next (bx badge_size : Z) (color : string) (lines : list string) (y : Q)
    (i : nat) (c c' : text_call) :
  draw_lines textlength line_height bx badge_size color use_font lines y !! i = Some c ->
  draw_lines textlength line_height bx badge_size color use_font lines y !! S i = Some c' ->
  text_y c' = (text_y c + (line_height (text_line c) use_font + inject_Z LINE_SPACING))%Q.
Proof.
  revert y i. induction lines as [|l lines IH]; intros y i; cbn [draw_lines];
    [discriminate|].
  destruct i as [|i].
  - intros [= <-]. cbn [lookup list_lookup text_y text_line].
    destruct lines as [|l' lines]; cbn [draw_lines]; [discriminate|].
    now intros [= <-].
  - cbn [lookup list_lookup]. apply IH.
Qed.

Lemma draw_lines_last (bx badge_size : Z) (color : string) (lines : list string) (y : Q)
    (c : text_call) :
  last (draw_lines textlength line_height bx badge_size color use_font lines y) = Some c ->
  (text_y c + line_height (text_line c) use_font
   == y + total_height line_height use_font lines)%Q.
Proof.
  revert y. induction lines as [|l lines IH]; intros y; cbn [draw_lines]; [discriminate|].
  destruct lines as [|l' lines].
  - cbn [draw_lines last]. intros [= <-]. cbn [text_y text_line].
    unfold total_height. cbn [foldl length]. change (inject_Z (Z.of_nat 1 - 1)) with 0%Q.
    ring.
  - intros H. rewrite total_height_cons.
    change (last (draw_lines textlength line_height bx badge_size color use_font
                    (l' :: lines)
                    (y + (line_height l use_font + inject_Z LINE_SPACING))) = Some c) in H.
    rewrite (IH _ H). ring.
Qed.

(** X8: [compose_image] draws the lines of the price text in order, one
    call each, in the contrast colour of the badge; every line is centred
    horizontally in the badge (from x = 840 to 1040); each line starts
    [LINE_SPACING] below the end of the previous one; and the block is
    centred vertically: the space above the first line equals the space
    between the last line and the lower edge of the badge (y = 40 to 240). *)
Theorem X8_price_text_is_centred (badge_color : string) (lines : list string) :
  let calls := draw_price_text textlength line_height badge_color use_font lines in
  text_line <$> calls = lines /\
  (forall c, c ∈ calls ->
     (text_x c - 840 == 1040 - (text_x c + textlength (text_line c) use_font))%Q /\
     text_fill c = get_contrast_color badge_color /\ text_font c = use_font) /\
  (forall i c c', calls !! i = Some c -> calls !! S i = Some c' ->
     text_y c' = (text_y c + (line_height (text_line c) use_font + 4))%Q) /\
  (forall c0 cl, head calls = Some c0 -> last calls = Some cl ->
     (text_y c0 - 40 == 240 - (text_y cl + line_height (text_line cl) use_font))%Q).
Proof.
  intros calls. subst calls. unfold draw_price_text.
  split; [apply draw_lines_texts|]. split; [|split].
  - intros c Hc. destruct (draw_lines_each _ _ _ _ _ _ Hc) as (Hx & Hf & Hu).
    split; [|split; assumption].
    change (inject_Z (CANVAS_SIZE.1 - BADGE_SIZE - MARGIN)) with 840%Q in Hx.
    change (inject_Z BADGE_SIZE) with 200%Q in Hx.
    rewrite Hx. ring.
  - intros i c c'. apply draw_lines_next.
  - intros c0 cl H0 Hl. rewrite (draw_lines_last _ _ _ _ _ _ Hl).
    destruct lines as [|l lines]; [discriminate|].
    cbn [draw_lines head] in H0. injection H0 as <-. cbn [text_y].
    change (inject_Z MARGIN) with 40%Q. change (inject_Z BADGE_SIZE) with 200%Q.
    field.
Qed.

End DrawingFacts.

Lemma X8_price_text_is_centred_witness :
  let calls := draw_price_text fixed_pitch (fun _ _ => 36%Q) "#FF0000"
                 (truetype "arialbd.ttf" 50) ["$19.99"; "each"] in
  text_line <$> calls = ["$19.99"; "each"] /\
  (text_y <$> calls) = [(40 + (200 - (0 + 36 + 36 + inject_Z (2 - 1) * 4)) / 2)%Q;
                        (40 + (200 - (0 + 36 + 36 + inject_Z (2 - 1) * 4)) / 2 + (36 + 4))%Q].
Proof.
  intros calls.
  destruct (X8_price_text_is_centred fixed_pitch (fun _ _ => 36%Q)
              (truetype "arialbd.ttf" 50) "#FF0000" ["$19.99"; "each"]) as (Ht & _ & Hn & _).
  split; [exact Ht|].
  pose proof (Hn 0%nat _ _ eq_refl eq_refl) as H1.
  reflexivity.
Defined.

(** ** process_sheet: what a run writes, calls and raises *)

Import ProcessorCalls.

Section ProcessSheetMore.
Variable get_all_values : gmap (nat * nat) string -> list (list string).
Variable compose_image_raises : string -> string -> string -> option string.
Variable update_cell_raises : nat -> nat -> string -> option string.
Variable BASE_URL : string.

Local Abbreviation row_result := (row_result compose_image_raises update_cell_raises BASE_URL).
Local Abbreviation rows_result := (rows_result compose_image_raises update_cell_raises BASE_URL).
Local Abbreviation run_process_sheet :=
  (run_process_sheet get_all_values compose_image_raises update_cell_raises BASE_URL).

Ltac row_cases H :=
  unfold Processor.row_result in H;
  repeat match type of H with
         | context [match ?x with _ => _ end] => destruct x eqn:?
         | context [if ?b then _ else _] => destruct b eqn:?
         end;
  simplify_eq.

(** A cell keeps its content unless it is the output cell of a row with an
    image URL, which then holds the public URL of the row. *)
Lemma rows_result_cell_value (values : list (list string)) (i : nat)
    (c c' : gmap (nat * nat) string) (evs : list event) (out : Processor.exn + unit)
    (r col : nat) :
  rows_result i values c = (c', evs, out) ->
  c' !! (r, col) = c !! (r, col) \/
  (col = OUTPUT_COL /\ c' !! (r, col) = Some (public_url BASE_URL r) /\
   exists j row url, values !! j = Some row /\ r = (i + j)%nat /\
     row !! 0%nat = Some url /\ truthy url = true).
Proof.
  revert i c c' evs out. induction values as [|row values IH]; intros i c c' evs out H.
  - cbn in H. simplify_eq. now left.
  - cbn [Processor.rows_result] in H.
    destruct (row_result i row c) as [[c1 evs1] o1] eqn:Hr.
    assert (Hhere : c1 !! (r, col) = c !! (r, col) \/
      (col = OUTPUT_COL /\ r = i /\ c1 !! (r, col) = Some (public_url BASE_URL r) /\
       exists url, row !! 0%nat = Some url /\ truthy url = true)).
    { clear H. row_cases Hr; try (now left).
      destruct (decide ((i, OUTPUT_COL) = (r, col))) as [Heq|Hne].
      - right. simplify_eq. split; [reflexivity|]. split; [reflexivity|].
        split; [apply lookup_insert_eq|].
        match goal with Hn : negb (truthy ?u) = false |- _ =>
          exists u; apply negb_false_iff in Hn; auto end.
      - left. now apply lookup_insert_ne. }
    assert (Hfinal : c' !! (r, col) = c1 !! (r, col) \/
      (col = OUTPUT_COL /\ c' !! (r, col) = Some (public_url BASE_URL r) /\
       exists j row url, values !! j = Some row /\ r = (S i + j)%nat /\
         row !! 0%nat = Some url /\ truthy url = true)).
    { destruct o1 as [e|[]]; [simplify_eq; now left|].
      destruct (rows_result (S i) values c1) as [[c2 evs2] o2] eqn:Hrs. simplify_eq.
      now apply (IH _ _ _ _ _ Hrs). }
    destruct Hfinal as [Heq|(Hcol & Hval & j & row' & url & Hj & -> & Hu & Ht)].
    + rewrite Heq. destruct Hhere as [?|(Hcol & -> & Hval & url & Hu & Ht)]; [now left|].
      right. split; [assumption|]. split; [assumption|].
      exists 0%nat, row, url. rewrite Nat.add_0_r. auto.
    + right. split; [assumption|]. split; [assumption|].
      exists (S j), row', url. replace (i + S j)%nat with (S i + j)%nat by lia. auto.
Qed.

(** X9: whatever the sheet and whatever raises, a run changes no cell but
    output cells: a cell that differs after the run is in column 3 of a row
    of the sheet with a non-empty image URL, and holds the public URL of
    that row. *)
Theorem X9_only_output_cells_change (sheet : gmap (nat * nat) string) (r col : nat) :
  cells (run_process_sheet sheet).1 !! (r, col) <> sheet !! (r, col) ->
  col = 3%nat /\
  cells (run_process_sheet sheet).1 !! (r, col)
    = Some (BASE_URL ++ "/images/edited/edited_" ++ pretty r ++ ".png") /\
  exists i row url, get_all_values sheet !! i = Some row /\ r = S i /\
    row !! 0%nat = Some url /\ url <> EmptyString.
Proof.
  rewrite (run_process_sheet_result get_all_values compose_image_raises
             update_cell_raises BASE_URL sheet).
  destruct (rows_result 1 (get_all_values sheet) sheet) as [[c evs] out] eqn:Hrs.
  assert (Hcells : cells (match out with
                          | inl e => (World c (Ev_makedirs edited_folder :: evs), inl e)
                          | inr _ => (World c (Ev_makedirs edited_folder :: evs
                                       ++ [Ev_print "Processing completed."]), inr tt)
                          end).1 = c) by now destruct out as [?|[]].
  rewrite Hcells. intros Hne.
  destruct (rows_result_cell_value _ _ _ _ _ _ r col Hrs)
    as [?|(-> & Hval & j & row & url & Hj & -> & Hu & Ht)]; [contradiction|].
  split; [reflexivity|]. split; [exact Hval|].
  exists j, row, url. repeat split; try assumption. intros ->. discriminate.
Qed.

Lemma rows_result_raise (values : list (list string)) (i : nat)
    (c c' : gmap (nat * nat) string) (evs : list event) (e : Processor.exn) :
  rows_result i values c = (c', evs, inl e) ->
  e = IndexError /\
  exists l1 row l2, values = (l1 ++ row :: l2)%list /\ ~ has_columns row /\
    Forall has_columns l1 /\ rows_result i l1 c = (c', evs, inr tt).
Proof.
  revert i c c' evs. induction values as [|row values IH]; intros i c c' evs H.
  - cbn in H. discriminate.
  - cbn [Processor.rows_result] in H.
    destruct (row_result i row c) as [[c1 evs1] o1] eqn:Hr.
    destruct o1 as [e1|[]].
    + simplify_eq.
      assert (e = IndexError /\ c' = c /\ evs = [] /\ ~ has_columns row) as (-> & -> & -> & Hn).
      { row_cases Hr; repeat split; unfold has_columns; intros Hlen;
          destruct row as [|? [|? ?]]; simpl in *; try discriminate; lia. }
      split; [reflexivity|]. exists [], row, values. repeat split; auto.
    + destruct (rows_result (S i) values c1) as [[c2 evs2] o2] eqn:Hrs. simplify_eq.
      destruct (IH _ _ _ _ Hrs) as (-> & l1 & row' & l2 & -> & Hn & Hl1 & Hrun).
      split; [reflexivity|]. exists (row :: l1), row', l2.
      split; [reflexivity|]. split; [assumption|]. split.
      * constructor; [|assumption].
        row_cases Hr; eapply lookup_has_columns; eassumption.
      * cbn [Processor.rows_result]. rewrite Hr, Hrun. reflexivity.
Qed.

(** Every message printed for a row starts with "Row" or "Error". *)
Lemma rows_result_print_sound (values : list (list string)) (i : nat)
    (c c' : gmap (nat * nat) string) (evs : list event) (out : Processor.exn + unit) (msg : string) :
  rows_result i values c = (c', evs, out) ->
  Ev_print msg ∈ evs ->
  exists rest, msg = String "R" rest \/ msg = String "E" rest.
Proof.
  revert i c c' evs out. induction values as [|row values IH]; intros i c c' evs out H Hin.
  - cbn in H. simplify_eq. now apply elem_of_nil in Hin.
  - cbn [Processor.rows_result] in H.
    destruct (row_result i row c) as [[c1 evs1] o1] eqn:Hr.
    assert (Hhere : Ev_print msg ∈ evs1 ->
              exists rest, msg = String "R" rest \/ msg = String "E" rest).
    { clear H. intros Hin1. row_cases Hr;
        repeat (apply elem_of_cons in Hin1 as [Hin1|Hin1]; simplify_eq);
        try (now apply elem_of_nil in Hin1); eexists; (now left) || (now right). }
    destruct o1 as [e|[]]; [simplify_eq; auto|].
    destruct (rows_result (S i) values c1) as [[c2 evs2] o2] eqn:Hrs. simplify_eq.
    apply elem_of_app in Hin as [Hin|Hin]; [auto|]. now apply (IH _ _ _ _ _ Hrs).
Qed.

(** X10: the only exception a run can raise is the [IndexError] of a row
    with fewer than two cells. The run then stops at the first such row:
    the rows before it were handled, no cell of that row or of a later row
    is changed, no image is composed for them, and the closing message is
    not printed. *)
Theorem X10_run_raises_only_on_short_row (sheet : gmap (nat * nat) string) (e : Processor.exn) :
  (run_process_sheet sheet).2 = inl e ->
  e = IndexError /\
  exists (i : nat) (row : list string),
    get_all_values sheet !! i = Some row /\ ~ has_columns row /\
    Forall has_columns (take i (get_all_values sheet)) /\
    (forall r col, (i < r)%nat ->
       cells (run_process_sheet sheet).1 !! (r, col) = sheet !! (r, col)) /\
    (forall p t r, (i < r)%nat ->
       Ev_compose_image p t (output_path r) ∉ trace (run_process_sheet sheet).1) /\
    Ev_print "Processing completed." ∉ trace (run_process_sheet sheet).1.
Proof.
  rewrite (run_process_sheet_result get_all_values compose_image_raises
             update_cell_raises BASE_URL sheet).
  destruct (rows_result 1 (get_all_values sheet) sheet) as [[c evs] out] eqn:Hrs.
  destruct out as [e'|[]]; cbn [fst snd cells trace]; [|discriminate].
  intros [= ->].
  destruct (rows_result_raise _ _ _ _ _ _ Hrs) as (-> & l1 & row & l2 & Hv & Hn & Hl1 & Hrun).
  split; [reflexivity|].
  exists (length l1), row. rewrite Hv.
  split; [now rewrite list_lookup_middle|]. split; [assumption|].
  split; [now rewrite take_app_length|].
  split; [|split].
  - intros r col Hr.
    destruct (rows_result_cell_value _ _ _ _ _ _ r col Hrun)
      as [?|(_ & _ & j & ? & ? & Hj & -> & _)]; [assumption|].
    apply lookup_lt_Some in Hj. lia.
  - intros p t r Hr [Hin|Hin]%elem_of_cons; [discriminate|].
    destruct (rows_result_compose_sound _ _ _ _ _ _ _ _ _ _ _ _ Hrun Hin)
      as (j & ? & Hj & _ & _ & _ & Hpath).
    apply output_path_inj in Hpath. apply lookup_lt_Some in Hj. lia.
  - intros [Hin|Hin]%elem_of_cons; [discriminate|].
    destruct (rows_result_print_sound _ _ _ _ _ _ _ Hrun Hin) as [rest [H|H]];
      discriminate.
Qed.

Lemma compose_calls_app (tr1 tr2 : list event) :
  compose_calls (tr1 ++ tr2) = (compose_calls tr1 ++ compose_calls tr2)%list.
Proof.
  induction tr1 as [|ev tr1 IH]; [reflexivity|].
  destruct ev; cbn [app compose_calls]; rewrite IH; reflexivity.
Qed.

Lemma rows_result_compose_calls (values : list (list string)) (i : nat)
    (c c' : gmap (nat * nat) string) (evs : list event) (out : Processor.exn + unit) :
  Forall has_columns values ->
  rows_result i values c = (c', evs, out) ->
  compose_calls evs = rows_with_image i values.
Proof.
  intros Hwide. revert i c c' evs out.
  induction Hwide as [|row values Hrow _ IH]; intros i c c' evs out H.
  - cbn in H. simplify_eq. reflexivity.
  - cbn [Processor.rows_result] in H. cbn [rows_with_image].
    destruct (has_columns_lookup row Hrow) as (url & price & H0 & H1).
    destruct (row_result i row c) as [[c1 evs1] o1] eqn:Hr.
    assert (Hhere : o1 = inr tt /\
      compose_calls evs1 = if truthy url then [(url, price, output_path i)] else []).
    { clear H. unfold Processor.row_result in Hr. rewrite H0, H1 in Hr.
      destruct (truthy url); cbn [negb] in Hr; [|now simplify_eq].
      destruct (compose_image_raises _ _ _); [now simplify_eq|].
      destruct (update_cell_raises _ _ _); now simplify_eq. }
    destruct Hhere as [-> Hcalls].
    destruct (rows_result (S i) values c1) as [[c2 evs2] o2] eqn:Hrs. simplify_eq.
    rewrite compose_calls_app, Hcalls, (IH _ _ _ _ _ Hrs), H0, H1.
    now destruct (truthy url).
Qed.

(** X11: on a sheet whose rows all have their two cells, [compose_image]
    is called exactly once for every row with a non-empty image URL, in the
    order of the rows, with that row's image URL, price text and output
    path, and for no other row, whatever raises on the way. *)
Theorem X11_one_compose_call_per_row_with_image (sheet : gmap (nat * nat) string) :
  Forall has_columns (get_all_values sheet) ->
  compose_calls (trace (run_process_sheet sheet).1)
  = rows_with_image 1 (get_all_values sheet).
Proof.
  intros Hwide.
  rewrite (run_process_sheet_result get_all_values compose_image_raises
             update_cell_raises BASE_URL sheet).
  destruct (rows_result 1 (get_all_values sheet) sheet) as [[c evs] out] eqn:Hrs.
  pose proof (rows_result_compose_calls _ _ _ _ _ _ Hwide Hrs) as Hcalls.
  destruct out as [e|[]]; cbn [fst trace compose_calls]; [assumption|].
  rewrite compose_calls_app. cbn [compose_calls]. now rewrite app_nil_r.
Qed.

End ProcessSheetMore.

Lemma X9_only_output_cells_change_witness :
  cells (run_process_sheet (fun _ => three_rows) never_raises never_raises
           "http://host" ∅).1 !! (1%nat, 3%nat)
  = Some "http://host/images/edited/edited_1.png".
Proof.
  destruct (X9_only_output_cells_change (fun _ => three_rows) never_raises never_raises
              "http://host" ∅ 1 3) as (_ & Hval & _).
  { vm_compute. discriminate. }
  exact Hval.
Defined.

Lemma X10_run_raises_only_on_short_row_witness :
  exists (i : nat) (row : list string),
    column_A_only !! i = Some row /\ ~ has_columns row /\
    Ev_print "Processing completed."
      ∉ trace (run_process_sheet (fun _ => column_A_only) never_raises never_raises
                 "http://host" ∅).1.
Proof.
  destruct (X10_run_raises_only_on_short_row (fun _ => column_A_only) never_raises
              never_raises "http://host" ∅ IndexError eq_refl)
    as (_ & i & row & Hi & Hn & _ & _ & _ & Hp).
  exists i, row. auto.
Defined.

Lemma X11_one_compose_call_per_row_with_image_witness :
  compose_calls (trace (run_process_sheet (fun _ => three_rows) (cannot_open "imgA.png")
                          never_raises "http://host" ∅).1)
  = [("imgA.png", "$19.99", "images/edited/edited_1.png");
     ("imgB.png", "$100", "images/edited/edited_3.png")].
Proof.
  rewrite (X11_one_compose_call_per_row_with_image (fun _ => three_rows)
             (cannot_open "imgA.png") never_raises "http://host" ∅).
  - reflexivity.
  - repeat constructor; unfold has_columns; simpl; lia.
Defined.

(** ** Accounts: lookups, signup and login, key rotation, usage *)

Import Accounts.

Lemma query_first_app_new (p : User -> bool) (rows : list User) (u : User) :
  query_first p rows = None -> p u = true -> query_first p (rows ++ [u]) = Some u.
Proof.
  unfold query_first. induction rows as [|v rows IH]; cbn [app List.find].
  - intros _ ->. reflexivity.
  - destruct (p v); [discriminate|]. exact IH.
Qed.

Lemma query_first_app_old (p : User -> bool) (rows : list User) (u : User) :
  p u = false -> query_first p (rows ++ [u]) = query_first p rows.
Proof.
  unfold query_first. intros Hu. induction rows as [|v rows IH]; cbn [app List.find].
  - now rewrite Hu.
  - destruct (p v); [reflexivity|]. exact IH.
Qed.

Section AccountFacts.
Variable token_hex : nat -> string.
Variable hash_password : string -> string.
Variable verify_password : string -> string -> bool.
Variable SECRET_KEY : option string.
Variable ACCESS_TOKEN_EXPIRE : Z.
Variable AUTOMATION_API_URL : option string.
Variable jwt_encode : list (string * string) -> Z -> Config.value -> Config.value
                      -> Auth.exn + string.
Variable utcnow : Z.

Local Abbreviation settings :=
  (Config.settings SECRET_KEY ACCESS_TOKEN_EXPIRE AUTOMATION_API_URL).

Lemma create_user_returned (fuel : nat) (e password : string) (rows rows' : list User)
    (drawn drawn' : nat) (user : User) :
  create_user token_hex hash_password fuel e password rows drawn
    = (rows', drawn', Returned user) ->
  rows' = (rows ++ [user])%list /\
  query_first (has_email e) rows = None /\
  query_first (has_api_key (api_key user)) rows = None /\
  user = mkUser e (hash_password password) (api_key user) 0 0 "Free" None.
Proof.
  unfold create_user.
  destruct (query_first (has_email e) rows) eqn:Hq; [discriminate|].
  pose proof (generate_api_key_spec token_hex rows fuel drawn) as Hgen.
  destruct (_generate_api_key token_hex fuel rows drawn) as [[key d]|]; [|discriminate].
  destruct Hgen as [Hkey _].
  destruct (violates_unique _ rows); [discriminate|].
  intros [= <- <- <-]. cbn [api_key]. repeat split.
  now apply key_not_in_rows.
Qed.

Lemma create_user_lookup (fuel : nat) (e password : string) (rows rows' : list User)
    (drawn drawn' : nat) (user : User) :
  create_user token_hex hash_password fuel e password rows drawn
    = (rows', drawn', Returned user) ->
  get_user_by_email e rows' = Some user /\
  rows' = (rows ++ [user])%list /\
  hashed_password user = hash_password password.
Proof.
  intros H. destruct (create_user_returned _ _ _ _ _ _ _ _ H) as (-> & He & Hk & Hu).
  split; [|split; [reflexivity|rewrite Hu; reflexivity]].
  apply query_first_app_new; [assumption|].
  apply has_email_true. rewrite Hu. reflexivity.
Qed.

(** X12: a user that [create_user] returns is stored and found again, by
    email and by API key, with both counters at 0 and the plan "Free" and
    with the hash of the password; the lookups of the other emails give
    what they gave before, and emails that were pairwise distinct stay so. *)
Theorem X12_create_user_then_lookup (fuel : nat) (e password : string)
    (rows rows' : list User) (drawn drawn' : nat) (user : User) :
  create_user token_hex hash_password fuel e password rows drawn
    = (rows', drawn', Returned user) ->
  get_user_by_email e rows' = Some user /\
  get_user_by_api_key (api_key user) rows' = Some user /\
  email user = e /\ hashed_password user = hash_password password /\
  monthly_edits user = 0 /\ total_edits user = 0 /\ plan_name user = "Free" /\
  (forall e', e' <> e -> get_user_by_email e' rows' = get_user_by_email e' rows) /\
  (NoDup (email <$> rows) -> NoDup (email <$> rows')).
Proof.
  intros H. destruct (create_user_returned _ _ _ _ _ _ _ _ H) as (-> & He & Hk & Hu).
  assert (Hemail : email user = e) by (rewrite Hu; reflexivity).
  split.
  { apply query_first_app_new; [assumption|]. now apply has_email_true. }
  split.
  { apply query_first_app_new; [assumption|]. now apply has_api_key_true. }
  split; [assumption|].
  split; [rewrite Hu; reflexivity|]. split; [rewrite Hu; reflexivity|].
  split; [rewrite Hu; reflexivity|]. split; [rewrite Hu; reflexivity|]. split.
  - intros e' Hne. apply query_first_app_old.
    destruct (has_email e' user) eqn:E; [|reflexivity].
    apply has_email_true in E. congruence.
  - intros Hnd. rewrite fmap_app. apply NoDup_app. split; [assumption|]. split.
    + intros x Hx [->|Hin]%elem_of_cons; [|now apply elem_of_nil in Hin].
      apply list_elem_of_fmap in Hx as (u & Hxe & Hin).
      rewrite query_first_None in He. specialize (He u Hin).
      assert (has_email e u = true) by (apply has_email_true; congruence). congruence.
    + apply NoDup_singleton.
Qed.

(** [Settings] has the attribute [ACCESS_TOKEN_EXPIRES] and none of the
    name [access_token_expires], so [create_access_token] raises whenever
    [expires_delta] is left out, whatever the environment holds. *)
Lemma create_access_token_raises (data : list (string * string)) :
  Auth.create_access_token settings jwt_encode utcnow data None
  = inl (Auth.AttributeError "access_token_expires").
Proof. reflexivity. Qed.

Lemma login_answer (e password : string) (rows : list User) :
  login verify_password settings jwt_encode utcnow e password rows
  = match authenticate_user verify_password e password rows with
    | None => http_exception 400 "Incorrect email or password"
    | Some _ => http_exception 500 "Internal server error"
    end.
Proof.
  unfold login, create_access_token. rewrite create_access_token_raises.
  now destruct (authenticate_user verify_password e password rows).
Qed.

(** X13: with the [Settings] of config.py, [POST /auth/signup] and
    [POST /auth/login] never answer with a token. A signup whose passwords
    differ or whose email is taken is answered 400 and leaves the table as
    it is; any other signup stores the user, with the hash of the password,
    and is answered 500, since [create_access_token] raises; the same
    signup again is then answered 400, "User already exists", and a login
    with the password is answered 500 as well. *)
Theorem X13_signup_and_login_give_no_token (fuel : nat)
    (e password confirmPassword : string)
    (rows rows' : list User) (drawn drawn' : nat) (a : answer) :
  signup token_hex hash_password settings jwt_encode utcnow fuel e password
         confirmPassword rows drawn = (rows', drawn', Some a) ->
  (forall t ty, a <> token_response t ty) /\
  (a = http_exception 400 "Passwords do not match" /\
     password <> confirmPassword /\ rows' = rows \/
   a = http_exception 400 "User already exists" /\
     password = confirmPassword /\ get_user_by_email e rows <> None /\ rows' = rows \/
   a = http_exception 500 "Internal server error" /\
     password = confirmPassword /\ get_user_by_email e rows = None /\
     (exists user, rows' = (rows ++ [user])%list /\
        get_user_by_email e rows' = Some user /\
        hashed_password user = hash_password password) /\
     (forall fuel2 drawn2,
        (signup token_hex hash_password settings jwt_encode utcnow fuel2 e password
                confirmPassword rows' drawn2).2
        = Some (http_exception 400 "User already exists")) /\
     (verify_password password (hash_password password) = true ->
      login verify_password settings jwt_encode utcnow e password rows'
      = http_exception 500 "Internal server error")) /\
  (forall e2 password2 rows2 t ty,
     login verify_password settings jwt_encode utcnow e2 password2 rows2
     <> token_response t ty).
Proof.
  intros Hs.
  assert (Hlogin : forall e2 password2 rows2 t ty,
            login verify_password settings jwt_encode utcnow e2 password2 rows2
            <> token_response t ty).
  { intros e2 p2 rows2 t ty. rewrite login_answer.
    now destruct (authenticate_user verify_password e2 p2 rows2). }
  revert Hs. unfold signup.
  destruct (String.eqb_spec password confirmPassword) as [Heq|Hne]; cbn [negb].
  2:{ intros [= <- <- <-]. split; [discriminate|]. split; [|exact Hlogin].
      left. auto. }
  destruct (create_user token_hex hash_password fuel e password rows drawn)
    as [[r d] o] eqn:Hc.
  unfold create_access_token. rewrite create_access_token_raises.
  destruct o as [user|[msg|]|]; intros Hs; simplify_eq.
  - destruct (create_user_lookup _ _ _ _ _ _ _ _ Hc) as (Hfound & Hrows & Hhash).
    destruct (create_user_returned _ _ _ _ _ _ _ _ Hc) as (_ & Hnew & _).
    split; [discriminate|]. split; [|exact Hlogin].
    right. right. split; [reflexivity|]. split; [reflexivity|].
    split; [exact Hnew|]. split; [now exists user|]. split.
    + intros fuel2 drawn2.
      unfold create_user. unfold get_user_by_email in Hfound. rewrite Hfound. reflexivity.
    + intros Hverify. rewrite login_answer. unfold authenticate_user.
      now rewrite Hfound, Hhash, Hverify.
  - split; [discriminate|]. split; [|exact Hlogin]. right. left.
    unfold create_user in Hc.
    destruct (query_first (has_email e) rows) eqn:Hq.
    + simplify_eq. split; [reflexivity|]. split; [reflexivity|].
      split; [|reflexivity]. unfold get_user_by_email. rewrite Hq. discriminate.
    + exfalso.
      pose proof (generate_api_key_spec token_hex rows fuel drawn) as Hgen.
      destruct (_generate_api_key token_hex fuel rows drawn) as [[key d']|];
        [|discriminate].
      destruct Hgen as [Hkey _]. unfold violates_unique in Hc. cbn [email api_key] in Hc.
      rewrite (existsb_false_query _ _ Hq) in Hc.
      rewrite (existsb_false_query _ _ (proj2 (key_not_in_rows key rows) Hkey)) in Hc.
      discriminate.
  - exfalso. unfold create_user in Hc.
    destruct (query_first (has_email e) rows); [discriminate|].
    destruct (_generate_api_key token_hex fuel rows drawn) as [[key d']|]; [|discriminate].
    destruct (violates_unique _ rows); discriminate.
Qed.

End AccountFacts.

Lemma X12_create_user_then_lookup_witness :
  let token_hex := fun n : nat => if (n =? 0)%nat then "key-1" else "key-3" in
  exists user rows' drawn',
    create_user token_hex (fun p => p) 5 "carol@example.com" "secret"
      [Main.alice; Main.bob] 0 = (rows', drawn', Returned user) /\
    get_user_by_api_key "key-3" rows' = Some user /\ monthly_edits user = 0.
Proof.
  intros token_hex.
  pose (r := create_user token_hex (fun p => p) 5 "carol@example.com" "secret"
               [Main.alice; Main.bob] 0).
  exists (mkUser "carol@example.com" "secret" "key-3" 0 0 "Free" None), r.1.1, r.1.2.
  assert (Hr : r = (r.1.1, r.1.2,
                    Returned (mkUser "carol@example.com" "secret" "key-3" 0 0 "Free" None)))
    by reflexivity.
  destruct (X12_create_user_then_lookup token_hex (fun p => p) 5 "carol@example.com"
              "secret" [Main.alice; Main.bob] r.1.1 0%nat r.1.2 _ Hr)
    as (_ & Hk & _ & _ & Hm & _).
  split; [exact Hr|]. split; [exact Hk|exact Hm].
Defined.

Lemma X13_signup_and_login_give_no_token_witness :
  let settings := Config.settings (Some "secret-key") 60 None in
  let jwt_encode := fun (_ : list (string * string)) (_ : Z) (_ _ : Config.value) =>
                      inr "jwt" : Auth.exn + string in
  let r := signup (fun _ => "key-3") (fun p => p) settings jwt_encode 0 5
             "carol@example.com" "secret" "secret" [Main.alice; Main.bob] 0 in
  r.2 = Some (http_exception 500 "Internal server error") /\
  (exists user, r.1.1 = [Main.alice; Main.bob; user] /\
     get_user_by_email "carol@example.com" r.1.1 = Some user) /\
  login String.eqb settings jwt_encode 0 "carol@example.com" "secret" r.1.1
  = http_exception 500 "Internal server error".
Proof.
  intros settings jwt_encode r.
  assert (Hr : r = (r.1.1, r.1.2, Some (http_exception 500 "Internal server error")))
    by reflexivity.
  destruct (X13_signup_and_login_give_no_token (fun _ => "key-3") (fun p => p) String.eqb
              (Some "secret-key") 60 None jwt_encode 0 5
              "carol@example.com" "secret" "secret" [Main.alice; Main.bob] r.1.1 0%nat r.1.2
              _ Hr) as (_ & [(Ha & _)|[(Ha & _)|(_ & _ & _ & Huser & _ & Hlogin)]] & _);
    [discriminate Ha|discriminate Ha|].
  split; [reflexivity|]. split.
  - destruct Huser as (user & Hrows & Hfound & _). exists user. split; [exact Hrows|exact Hfound].
  - apply Hlogin. reflexivity.
Defined.

Lemma regenerate_lookups (e nk : string) (rows : list User) (user : User) :
  NoDup (api_key <$> rows) -> nk ∉ api_key <$> rows ->
  query_first (has_email e) rows = Some user ->
  query_first (has_api_key (api_key user))
    (update_first (has_email e) (set_api_key nk) rows) = None /\
  query_first (has_api_key nk) (update_first (has_email e) (set_api_key nk) rows)
    = Some (set_api_key nk user) /\
  (forall k, k <> api_key user -> k <> nk ->
     query_first (has_api_key k) (update_first (has_email e) (set_api_key nk) rows)
     = query_first (has_api_key k) rows).
Proof.
  unfold query_first.
  induction rows as [|v rows IH]; cbn [List.find update_first]; [discriminate|].
  cbn [fmap list_fmap]. intros [Hv Hnd]%NoDup_cons [Hnkv Hnk]%not_elem_of_cons.
  assert (Hself : has_api_key nk (set_api_key nk v) = true)
    by now apply has_api_key_true.
  destruct (has_email e v) eqn:He.
  - intros [= ->]. cbn [List.find]. rewrite Hself.
    assert (has_api_key (api_key user) (set_api_key nk user) = false) as ->.
    { destruct (has_api_key (api_key user) (set_api_key nk user)) eqn:E; [|reflexivity].
      apply has_api_key_true in E. cbn [set_api_key api_key] in E. congruence. }
    split; [|split; [reflexivity|]].
    + apply query_first_None. intros u Hu.
      destruct (has_api_key (api_key user) u) eqn:E; [|reflexivity].
      apply has_api_key_true in E. exfalso. apply Hv, list_elem_of_fmap. now exists u.
    + intros k Hk1 Hk2.
      assert (has_api_key k (set_api_key nk user) = false) as ->.
      { destruct (has_api_key k (set_api_key nk user)) eqn:E; [|reflexivity].
        apply has_api_key_true in E. cbn [set_api_key api_key] in E. congruence. }
      assert (has_api_key k user = false) as ->; [|reflexivity].
      destruct (has_api_key k user) eqn:E; [|reflexivity].
      apply has_api_key_true in E. congruence.
  - intros Hq. cbn [List.find]. destruct (IH Hnd Hnk Hq) as (H1 & H2 & H3).
    assert (Huser : api_key user ∈ api_key <$> rows).
    { apply query_first_Some in Hq as [Hin _]. apply list_elem_of_fmap. now exists user. }
    assert (has_api_key (api_key user) v = false) as ->.
    { destruct (has_api_key (api_key user) v) eqn:E; [|reflexivity].
      apply has_api_key_true in E. congruence. }
    assert (has_api_key nk v = false) as ->.
    { destruct (has_api_key nk v) eqn:E; [|reflexivity].
      apply has_api_key_true in E. congruence. }
    split; [exact H1|]. split; [exact H2|].
    intros k Hk1 Hk2. destruct (has_api_key k v); [reflexivity|]. now apply H3.
Qed.

(** X14: on a table whose API keys are pairwise distinct, after
    [regenerate_api_key] returns a new key the old key of the user finds no
    one, the new key finds the user, every other key finds whom it found
    before, and no email has changed. *)
Theorem X14_regenerate_revokes_old_key (token_hex : nat -> string) (fuel : nat)
    (e : string) (rows rows' : list User) (drawn drawn' : nat)
    (user : User) (new_key : string) :
  NoDup (api_key <$> rows) ->
  get_user_by_email e rows = Some user ->
  regenerate_api_key token_hex fuel e rows drawn = (rows', drawn', Returned new_key) ->
  get_user_by_api_key (api_key user) rows' = None /\
  get_user_by_api_key new_key rows' = Some (set_api_key new_key user) /\
  (forall k, k <> api_key user -> k <> new_key ->
     get_user_by_api_key k rows' = get_user_by_api_key k rows) /\
  email <$> rows' = email <$> rows.
Proof.
  intros Hnd Hfound. unfold regenerate_api_key, get_user_by_email in *.
  rewrite Hfound.
  pose proof (generate_api_key_spec token_hex rows fuel drawn) as Hgen.
  destruct (_generate_api_key token_hex fuel rows drawn) as [[key d]|]; [|discriminate].
  destruct Hgen as [Hkey _].
  destruct (existsb _ _); [discriminate|]. intros [= <- <- <-].
  destruct (regenerate_lookups e key rows user Hnd Hkey Hfound) as (H1 & H2 & H3).
  unfold get_user_by_api_key. repeat split; try assumption.
  apply update_first_emails.
Qed.

Lemma X14_regenerate_revokes_old_key_witness :
  let r := regenerate_api_key (fun _ => "key-9") 3 "alice@example.com"
             [Main.alice; Main.bob] 0 in
  get_user_by_api_key "key-1" r.1.1 = None /\
  get_user_by_api_key "key-9" r.1.1 = Some (set_api_key "key-9" Main.alice).
Proof.
  intros r.
  assert (Hr : r = (r.1.1, r.1.2, Returned "key-9")) by reflexivity.
  destruct (X14_regenerate_revokes_old_key (fun _ => "key-9") 3 "alice@example.com"
              [Main.alice; Main.bob] r.1.1 0%nat r.1.2 Main.alice "key-9") as (H1 & H2 & _).
  - apply (bool_decide_unpack _). vm_compute. exact I.
  - reflexivity.
  - exact Hr.
  - split; [exact H1|exact H2].
Defined.

(** The table that [increment_usage] commits. *)
Lemma increment_usage_table (e : string) (a b : Z) (rows : list User) :
  (get_user_by_email e rows = None -> increment_usage e a rows = rows) /\
  increment_usage e a (increment_usage e b rows) = increment_usage e (b + a) rows /\
  email <$> increment_usage e a rows = email <$> rows /\
  api_key <$> increment_usage e a rows = api_key <$> rows /\
  (forall e', e' <> e ->
     get_user_by_email e' (increment_usage e a rows) = get_user_by_email e' rows).
Proof.
  assert (Hpres : forall n v, has_email e (add_edits n v) = has_email e v) by reflexivity.
  split; [|split; [|split; [|split]]].
  - unfold increment_usage, get_user_by_email. now intros ->.
  - unfold increment_usage.
    destruct (query_first (has_email e) rows) as [u|] eqn:Hq; [|now rewrite Hq].
    rewrite (query_first_update_first _ _ _ _ (Hpres b) Hq).
    clear Hq. induction rows as [|v rows IH]; cbn [update_first]; [reflexivity|].
    destruct (has_email e v) eqn:He; cbn [update_first].
    + rewrite Hpres, He. f_equal. unfold add_edits. cbn. f_equal; lia.
    + rewrite He. f_equal. exact IH.
  - unfold increment_usage. destruct (query_first (has_email e) rows); [|reflexivity].
    induction rows as [|v rows IH]; cbn [update_first]; [reflexivity|].
    destruct (has_email e v); cbn [fmap list_fmap]; [reflexivity|]. f_equal. exact IH.
  - unfold increment_usage. destruct (query_first (has_email e) rows); [|reflexivity].
    induction rows as [|v rows IH]; cbn [update_first]; [reflexivity|].
    destruct (has_email e v); cbn [fmap list_fmap]; [reflexivity|]. f_equal. exact IH.
  - intros e' Hne. unfold increment_usage, get_user_by_email, query_first.
    destruct (List.find (has_email e) rows); [|reflexivity].
    induction rows as [|v rows IH]; cbn [update_first List.find]; [reflexivity|].
    destruct (has_email e v) eqn:He; cbn [List.find].
    + assert (has_email e' (add_edits a v) = false) as ->.
      { apply has_email_true in He. destruct (has_email e' (add_edits a v)) eqn:E;
          [|reflexivity]. apply has_email_true in E. cbn in E. congruence. }
      assert (has_email e' v = false) as ->; [|reflexivity].
      apply has_email_true in He. destruct (has_email e' v) eqn:E; [|reflexivity].
      apply has_email_true in E. congruence.
    + destruct (has_email e' v); [reflexivity|]. exact IH.
Qed.

Lemma update_first_storable (p : User -> bool) (f : User -> User) (rows : list User)
    (user : User) :
  query_first p rows = Some user -> Commit.storable (f user) = true ->
  Forall (fun u => Commit.storable u = true) rows ->
  Forall (fun u => Commit.storable u = true) (update_first p f rows).
Proof.
  unfold query_first. intros Hq Hf Hall. revert Hq.
  induction Hall as [|v rows Hv Hall IH]; cbn [List.find update_first]; [constructor|].
  destruct (p v).
  - intros [= ->]. now constructor.
  - intros Hq. constructor; [assumption|now apply IH].
Qed.

Lemma commit_increment_usage_cases (e : string) (a : Z) (rows : list User) :
  match get_user_by_email e rows with
  | None => Commit.increment_usage e a rows = (rows, None)
  | Some user =>
      if Commit.storable (add_edits a user)
      then Commit.increment_usage e a rows = (increment_usage e a rows, None)
      else Commit.increment_usage e a rows = (rows, Some Commit.OverflowError)
  end.
Proof.
  unfold Commit.increment_usage, increment_usage, get_user_by_email.
  destruct (query_first (has_email e) rows) as [user|]; [|reflexivity].
  now destruct (Commit.storable (add_edits a user)).
Qed.

(** X15: on a table whose counters are SQLite INTEGERs, [increment_usage]
    leaves the table as it is when no row has the email, and when the commit
    raises [OverflowError], which it does exactly when a counter of the user
    would leave the signed 64-bit range. When it returns, both counters of
    the user have grown by [edits] and are INTEGERs again, no email or API
    key has changed and the rows of the other emails are found as before;
    and two increments that return add up to one. *)
Theorem X15_increment_usage_adds_up (e : string) (a b : Z) (rows : list User) :
  Forall (fun u => Commit.storable u = true) rows ->
  (get_user_by_email e rows = None -> Commit.increment_usage e a rows = (rows, None)) /\
  (forall rows' err, Commit.increment_usage e a rows = (rows', Some err) ->
     rows' = rows /\
     exists user, get_user_by_email e rows = Some user /\
       (Commit.fits_integer (monthly_edits user + a) = false \/
        Commit.fits_integer (total_edits user + a) = false)) /\
  (forall user, get_user_by_email e rows = Some user ->
     Commit.fits_integer (monthly_edits user + a) = true ->
     Commit.fits_integer (total_edits user + a) = true ->
     exists rows', Commit.increment_usage e a rows = (rows', None)) /\
  (forall rows', Commit.increment_usage e a rows = (rows', None) ->
     rows' = increment_usage e a rows /\
     Forall (fun u => Commit.storable u = true) rows' /\
     email <$> rows' = email <$> rows /\
     api_key <$> rows' = api_key <$> rows /\
     (forall e', e' <> e -> get_user_by_email e' rows' = get_user_by_email e' rows) /\
     (forall user, get_user_by_email e rows = Some user ->
        get_user_by_email e rows' = Some (add_edits a user))) /\
  (forall rows1 rows2,
     Commit.increment_usage e b rows = (rows1, None) ->
     Commit.increment_usage e a rows1 = (rows2, None) ->
     Commit.increment_usage e (b + a) rows = (rows2, None)).
Proof.
  intros Hall.
  assert (Hpres : forall n v, has_email e (add_edits n v) = has_email e v) by reflexivity.
  pose proof (commit_increment_usage_cases e a rows) as Hcases.
  split; [|split; [|split; [|split]]].
  - intros Hnone. now rewrite Hnone in Hcases.
  - intros rows' err Hrun.
    destruct (get_user_by_email e rows) as [user|] eqn:Hq; [|congruence].
    destruct (Commit.storable (add_edits a user)) eqn:Hst; [congruence|].
    split; [congruence|]. exists user. split; [reflexivity|].
    unfold Commit.storable in Hst. cbn [add_edits monthly_edits total_edits] in Hst.
    now apply andb_false_iff in Hst.
  - intros user Hq H1 H2. rewrite Hq in Hcases.
    unfold Commit.storable in Hcases. cbn [add_edits monthly_edits total_edits] in Hcases.
    rewrite H1, H2 in Hcases. cbn [andb] in Hcases. eauto.
  - intros rows' Hrun.
    destruct (increment_usage_table e a 0 rows) as (Hnone & _ & Hemails & Hkeys & Hothers).
    destruct (get_user_by_email e rows) as [user|] eqn:Hq.
    + destruct (Commit.storable (add_edits a user)) eqn:Hst; [|congruence].
      assert (rows' = increment_usage e a rows) as -> by congruence.
      split; [reflexivity|]. split.
      { unfold increment_usage. unfold get_user_by_email in Hq. rewrite Hq.
        now apply (update_first_storable _ _ _ user). }
      repeat split; try assumption.
      intros user' [= <-]. unfold increment_usage, get_user_by_email in *. rewrite Hq.
      apply (query_first_update_first _ _ _ _ (Hpres a) Hq).
    + assert (rows' = rows) as -> by congruence.
      rewrite (Hnone eq_refl) in *. repeat split; try assumption; try reflexivity.
      discriminate.
  - intros rows1 rows2 H1 H2.
    pose proof (commit_increment_usage_cases e b rows) as Hb.
    pose proof (commit_increment_usage_cases e (b + a) rows) as Hba.
    destruct (get_user_by_email e rows) as [user|] eqn:Hq.
    + destruct (Commit.storable (add_edits b user)) eqn:Hsb; [|congruence].
      assert (rows1 = increment_usage e b rows) as -> by congruence.
      pose proof (commit_increment_usage_cases e a (increment_usage e b rows)) as Ha.
      assert (Hq1 : get_user_by_email e (increment_usage e b rows)
                    = Some (add_edits b user)).
      { unfold increment_usage, get_user_by_email in *. rewrite Hq.
        apply (query_first_update_first _ _ _ _ (Hpres b) Hq). }
      rewrite Hq1 in Ha.
      destruct (Commit.storable (add_edits a (add_edits b user))) eqn:Hsa; [|congruence].
      assert (rows2 = increment_usage e a (increment_usage e b rows)) as -> by congruence.
      assert (Hsum : add_edits a (add_edits b user) = add_edits (b + a) user).
      { unfold add_edits. cbn. f_equal; lia. }
      rewrite Hsum in Hsa. rewrite Hsa in Hba. rewrite Hba.
      now rewrite (proj1 (proj2 (increment_usage_table e a b rows))).
    + assert (rows1 = rows) as -> by congruence.
      rewrite H2 in Hcases. congruence.
Qed.

Lemma X15_increment_usage_adds_up_witness :
  Commit.increment_usage "nobody@example.com" 1 [Main.alice; Main.bob]
  = ([Main.alice; Main.bob], None) /\
  Commit.increment_usage "alice@example.com" 2 [Main.alice; Main.bob]
  = ([add_edits 1 (add_edits 1 Main.alice); Main.bob], None).
Proof.
  assert (Hall : Forall (fun u => Commit.storable u = true) [Main.alice; Main.bob])
    by (repeat constructor).
  destruct (X15_increment_usage_adds_up "nobody@example.com" 1 0 [Main.alice; Main.bob] Hall)
    as (H1 & _).
  destruct (X15_increment_usage_adds_up "alice@example.com" 1 1 [Main.alice; Main.bob] Hall)
    as (_ & _ & _ & _ & H5).
  split; [exact (H1 eq_refl)|].
  exact (H5 [add_edits 1 Main.alice; Main.bob]
            [add_edits 1 (add_edits 1 Main.alice); Main.bob] eq_refl eq_refl).
Defined.

(** ** POST /automation/run: repeated and unauthenticated calls *)

Section AutomationRunFacts.
Variable decode_access_token : string -> option (list (string * string)).

(** Authentication depends on the table only through the row found for
    the email of the token. *)
Lemma get_current_user_by_email (token : string) (rows : list User) (user : User) :
  get_current_user decode_access_token token rows = inr user ->
  forall rows2 user2,
    get_user_by_email (email user) rows2 = Some user2 ->
    get_current_user decode_access_token token rows2 = inr user2.
Proof.
  unfold get_current_user.
  destruct (decode_access_token token) as [[|kv payload]|]; try discriminate.
  destruct (payload_get "sub" (kv :: payload)) as [e|]; try discriminate.
  destruct (get_user_by_email e rows) as [u|] eqn:E; try discriminate.
  intros [= ->] rows2 user2 H2.
  unfold get_user_by_email in E. apply query_first_Some in E as [_ He].
  apply has_email_true in He. rewrite <- He, H2. reflexivity.
Qed.

Lemma add_edits_add_edits (a b : Z) (u : User) :
  add_edits a (add_edits b u) = add_edits (b + a) u.
Proof. unfold add_edits. cbn. f_equal; lia. Qed.

(** X16: [n] authenticated calls of [POST /automation/run], whatever the
    automation service answers to each of them, leave the user with both
    counters raised by exactly [n] and with the same email, API key and
    plan. *)
Theorem X16_n_runs_count_n (post_automation : nat -> string -> option nat)
    (n : nat) (token : string) (rows : list User) (user : User) :
  get_current_user decode_access_token token rows = inr user ->
  get_user_by_email (email user)
    (automation_runs decode_access_token post_automation n token rows)
  = Some (mkUser (email user) (hashed_password user) (api_key user)
            (monthly_edits user + Z.of_nat n) (total_edits user + Z.of_nat n)
            (plan_name user) (plan_renewal_date user)).
Proof.
  intros Hauth.
  change (get_user_by_email (email user)
            (automation_runs decode_access_token post_automation n token rows)
          = Some (add_edits (Z.of_nat n) user)).
  induction n as [|n IH].
  - cbn [automation_runs]. rewrite (get_current_user_found _ _ _ _ Hauth).
    f_equal. destruct user. unfold add_edits. cbn. f_equal; lia.
  - cbn [automation_runs].
    set (rows_n := automation_runs decode_access_token post_automation n token rows) in *.
    pose proof (get_current_user_by_email _ _ _ Hauth _ _ IH) as Hauth_n.
    unfold post_automation_run. rewrite Hauth_n. unfold automation_run. cbn [fst].
    change (email (add_edits (Z.of_nat n) user)) with (email user).
    destruct (increment_usage_found _ 1 _ _ IH) as [Hinc _].
    rewrite Hinc, add_edits_add_edits. do 2 f_equal. lia.
Qed.

(** X17: a call of [POST /automation/run] that is not authenticated is
    answered 401 when the token does not decode and 404 when it names no
    user; in both cases the table is left as it is and the answer does not
    depend on the automation service, which is not called. *)
Theorem X17_unauthenticated_run_changes_nothing (token : string) (rows : list User)
    (err : response) :
  get_current_user decode_access_token token rows = inl err ->
  (forall post_automation,
     post_automation_run decode_access_token post_automation token rows = (rows, err)) /\
  (decode_access_token token = None -> status_code err = 401%nat) /\
  (forall payload e, decode_access_token token = Some payload ->
     payload_get "sub" payload = Some e -> status_code err = 404%nat /\
     get_user_by_email e rows = None) /\
  (status_code err = 401%nat \/ status_code err = 404%nat) /\
  failure_status err = true.
Proof.
  intros Herr. split.
  { intros post. unfold post_automation_run. now rewrite Herr. }
  unfold get_current_user in Herr.
  destruct (decode_access_token token) as [[|kv payload]|].
  - simplify_eq. repeat split; intros; simplify_eq; cbn in *;
      try discriminate; auto.
  - destruct (payload_get "sub" (kv :: payload)) as [e|] eqn:Hsub.
    + destruct (get_user_by_email e rows) as [u|] eqn:E; [discriminate|].
      simplify_eq. repeat split; intros; simplify_eq; cbn [status_code];
        try discriminate; auto.
    + simplify_eq. repeat split; intros; simplify_eq; cbn [status_code];
        try discriminate; auto.
  - simplify_eq. repeat split; intros; simplify_eq; cbn in *;
      try discriminate; auto.
Qed.

End AutomationRunFacts.

Lemma X16_n_runs_count_n_witness :
  get_user_by_email "alice@example.com"
    (automation_runs decode_demo (fun n => if Nat.even n then service_unreachable
                                          else service_answers 200) 3
       "token-alice" [alice; bob])
  = Some (mkUser "alice@example.com" "hash" "key-1" (4 + 3) (9 + 3) "Free" None).
Proof.
  exact (X16_n_runs_count_n decode_demo
           (fun n => if Nat.even n then service_unreachable else service_answers 200)
           3 "token-alice" [alice; bob] alice eq_refl).
Defined.

Lemma X17_unauthenticated_run_changes_nothing_witness :
  post_automation_run decode_demo (service_answers 200) "forged" [alice; bob]
  = ([alice; bob], Response 401 (detail_body "Invalid authentication credentials")).
Proof.
  destruct (X17_unauthenticated_run_changes_nothing decode_demo "forged" [alice; bob]
              (Response 401 (detail_body "Invalid authentication credentials")) eq_refl)
    as [H _].
  exact (H (service_answers 200)).
Defined.

(** ** _normalize_password_for_bcrypt *)

Import Auth.

Lemma encode_char_length (ch : N) (b : list N) :
  PyStr.encode_char ch = Some b ->
  (1 <= length b <= 4)%nat /\
  ((ch < 128)%N -> b = [ch]) /\
  ((ch <= 0x10FFFF)%N -> Forall (fun x => (x < 256)%N) b).
Proof.
  unfold PyStr.encode_char.
  destruct (N.ltb_spec ch 0x80) as [H1|H1].
  { intros [= <-]. split; [simpl; lia|]. split; [reflexivity|].
    intros _. repeat constructor. lia. }
  destruct (N.ltb_spec ch 0x800) as [H2|H2].
  { intros [= <-]. split; [simpl; lia|]. split; [lia|]. intros _.
    assert (ch / 64 < 32)%N by (apply N.Div0.div_lt_upper_bound; lia).
    pose proof (N.mod_lt ch 64 ltac:(lia)).
    repeat constructor; lia. }
  destruct ((0xD800 <=? ch) && (ch <=? 0xDFFF))%N; [discriminate|].
  destruct (N.ltb_spec ch 0x10000) as [H3|H3].
  { intros [= <-]. split; [simpl; lia|]. split; [lia|]. intros _.
    assert (ch / 4096 < 16)%N by (apply N.Div0.div_lt_upper_bound; lia).
    pose proof (N.mod_lt (ch / 64) 64 ltac:(lia)).
    pose proof (N.mod_lt ch 64 ltac:(lia)).
    repeat constructor; lia. }
  intros [= <-]. split; [simpl; lia|]. split; [lia|]. intros Hmax.
  assert (ch / 262144 < 5)%N by (apply N.Div0.div_lt_upper_bound; lia).
  pose proof (N.mod_lt (ch / 4096) 64 ltac:(lia)).
  pose proof (N.mod_lt (ch / 64) 64 ltac:(lia)).
  pose proof (N.mod_lt ch 64 ltac:(lia)).
  repeat constructor; lia.
Qed.

Lemma encode_char_surrogate (ch : N) :
  PyStr.encode_char ch = None <-> PyStr.is_surrogate ch = true.
Proof.
  unfold PyStr.encode_char, PyStr.is_surrogate.
  destruct (N.ltb_spec ch 0x80) as [H1|H1].
  { split; [discriminate|]. intros H. exfalso. revert H. N_compare; discriminate. }
  destruct (N.ltb_spec ch 0x800) as [H2|H2].
  { split; [discriminate|]. intros H. exfalso. revert H. N_compare; discriminate. }
  destruct ((0xD800 <=? ch) && (ch <=? 0xDFFF))%N; [split; reflexivity|].
  destruct (ch <? 0x10000)%N; split; discriminate.
Qed.

Lemma encode_utf8_surrogate (s : PyStr.str) :
  PyStr.encode_utf8 s = None <-> existsb PyStr.is_surrogate s = true.
Proof.
  induction s as [|ch s IH]; cbn [PyStr.encode_utf8 existsb].
  - split; discriminate.
  - rewrite orb_true_iff, <- IH, <- encode_char_surrogate.
    destruct (PyStr.encode_char ch), (PyStr.encode_utf8 s); split; intros H;
      try discriminate; try reflexivity; auto.
    destruct H; discriminate.
Qed.

Lemma encode_utf8_length (s : PyStr.str) (b : list N) :
  PyStr.encode_utf8 s = Some b ->
  (length s <= length b <= 4 * length s)%nat /\
  (Forall (fun ch => (ch < 128)%N) s -> b = s) /\
  (Forall (fun ch => (ch <= 0x10FFFF)%N) s -> Forall (fun x => (x < 256)%N) b).
Proof.
  revert b. induction s as [|ch s IH]; cbn [PyStr.encode_utf8]; intros b.
  - intros [= <-]. split; [simpl; lia|]. split; [reflexivity|constructor].
  - destruct (PyStr.encode_char ch) as [bc|] eqn:Ec; [|discriminate].
    destruct (PyStr.encode_utf8 s) as [bs|]; [|discriminate].
    intros [= <-]. destruct (encode_char_length _ _ Ec) as (Hl & Ha & Hb).
    destruct (IH bs eq_refl) as (IHl & IHa & IHb).
    rewrite length_app. cbn [length]. split; [lia|]. split.
    + intros [Hc Hs]%Forall_cons. rewrite (Ha Hc), (IHa Hs). reflexivity.
    + intros [Hc Hs]%Forall_cons. apply Forall_app. auto.
Qed.

(** X18: given that a SHA-256 digest has 32 bytes, the value handed to
    bcrypt is never longer than 72 bytes: it is the UTF-8 encoding of the
    password itself when that has at most 72 bytes, and the digest of the
    encoding otherwise. A character takes one to four bytes, so a password
    of at most 18 characters, or of at most 72 ASCII characters, is handed
    on as it is. The function raises [UnicodeEncodeError] exactly when the
    password has a surrogate code point. *)
Theorem X18_normalized_password_fits_bcrypt (sha256 : list N -> list N)
    (password : PyStr.str) :
  (forall b, length (sha256 b) = 32%nat) ->
  (_normalize_password_for_bcrypt sha256 password = inl UnicodeEncodeError <->
   existsb PyStr.is_surrogate password = true) /\
  (forall e, _normalize_password_for_bcrypt sha256 password = inl e ->
     e = UnicodeEncodeError) /\
  (forall r, _normalize_password_for_bcrypt sha256 password = inr r ->
     (length r <= 72)%nat /\
     exists b, PyStr.encode_utf8 password = Some b /\
       (length password <= length b <= 4 * length password)%nat /\
       ((length b <= 72)%nat -> r = b) /\
       ((72 < length b)%nat -> r = sha256 b) /\
       ((length password <= 18)%nat -> r = b) /\
       (Forall (fun ch => (ch < 128)%N) password -> (length password <= 72)%nat ->
        r = password) /\
       (Forall (fun ch => (ch <= 0x10FFFF)%N) password ->
        Forall (fun x => (x < 256)%N) b)).
Proof.
  intros Hsha. unfold _normalize_password_for_bcrypt.
  pose proof (encode_utf8_surrogate password) as Hsur.
  pose proof (encode_utf8_length password) as Hlen.
  destruct (PyStr.encode_utf8 password) as [b|].
  - split; [split; [discriminate|]|].
    { intros H. apply Hsur in H. discriminate. }
    split; [discriminate|].
    intros r [= <-]. destruct (Hlen b eq_refl) as (Hl & Ha & Hb).
    destruct (Nat.ltb_spec 72 (length b)) as [Hlong|Hshort].
    + split; [rewrite Hsha; lia|]. exists b.
      repeat split; try assumption; try lia.
      intros Hascii Hmax. rewrite (Ha Hascii) in Hlong. lia.
    + split; [assumption|]. exists b.
      repeat split; try assumption; try lia; try reflexivity.
      intros Hascii _. exact (Ha Hascii).
  - split; [split; [intros _; now apply Hsur|reflexivity]|].
    split; [now intros e [= <-]|discriminate].
Qed.

Lemma X18_normalized_password_fits_bcrypt_witness :
  _normalize_password_for_bcrypt (fun _ => repeat 0%N 32) (PyStr.of_latin1 "correct horse")
  = inr (PyStr.of_latin1 "correct horse") /\
  _normalize_password_for_bcrypt (fun _ => repeat 0%N 32) (repeat 0x20AC%N 25)
  = inr (repeat 0%N 32).
Proof.
  destruct (X18_normalized_password_fits_bcrypt (fun _ => repeat 0%N 32)
              (PyStr.of_latin1 "correct horse") ltac:(reflexivity)) as (_ & _ & H1).
  destruct (X18_normalized_password_fits_bcrypt (fun _ => repeat 0%N 32)
              (repeat 0x20AC%N 25) ltac:(reflexivity)) as (_ & _ & H2).
  split.
  - destruct (H1 _ eq_refl) as (_ & b & _ & _ & _ & _ & _ & Hascii & _).
    rewrite <- Hascii; [reflexivity| |simpl; lia].
    apply (bool_decide_unpack _). vm_compute. exact I.
  - destruct (H2 _ eq_refl) as (_ & b & Hb & _ & _ & Hlong & _).
    injection Hb as <-.
    exact (f_equal (@inr Auth.exn (list N)) (Hlong ltac:(simpl; lia))).
Defined.

(** ** The automation service: API key and sheet selection *)

Import AutomationApp.

Lemma option_string_eqb_eq (a b : option string) :
  option_string_eqb a b = true <-> a = b.
Proof.
  destruct a as [x|], b as [y|]; cbn; try (split; congruence).
  rewrite String.eqb_eq. split; congruence.
Qed.

Section AppFacts.
Variable APP_API_KEY : option string.
Variable STATIC_SHEET_ID : option string.
Variable STATIC_SHEET_NAME : option string.
Variable BASE_URL : option string.
Variable open_fails : worksheet -> option string.

Local Abbreviation verify_api_key := (verify_api_key APP_API_KEY).
Local Abbreviation load_sheet := (load_sheet STATIC_SHEET_ID STATIC_SHEET_NAME open_fails).
Local Abbreviation run :=
  (run APP_API_KEY STATIC_SHEET_ID STATIC_SHEET_NAME BASE_URL open_fails).
Local Abbreviation run_dynamic :=
  (run_dynamic APP_API_KEY STATIC_SHEET_ID STATIC_SHEET_NAME BASE_URL open_fails).
Local Abbreviation health := (health APP_API_KEY).

(** X19: outside the documentation paths, a request whose [x-api-key]
    header differs from the configured key (a missing header against a set
    key included) is answered 401 by [/run], [/run-dynamic] and [/health],
    schedules nothing and opens no sheet; a request whose header equals the
    key (also none against none) passes, and [/run] then schedules exactly
    one task, on the sheet it loaded, behind the tasks already there. *)
Theorem X19_api_key_gates_the_run (x_api_key : option string) (path : string)
    (background_tasks : list task) :
  existsb (String.eqb path) allowed = false ->
  (x_api_key <> APP_API_KEY ->
   run x_api_key path background_tasks
     = (background_tasks, http_exception 401 "Unauthorized") /\
   (forall sheet_id sheet_name,
      run_dynamic sheet_id sheet_name x_api_key path background_tasks
      = (background_tasks, http_exception 401 "Unauthorized")) /\
   health x_api_key path = http_exception 401 "Unauthorized") /\
  (x_api_key = APP_API_KEY ->
   health x_api_key path = health_response "ok" /\
   forall sheet, load_sheet None None = inr sheet ->
     run x_api_key path background_tasks
     = ((background_tasks ++ [(sheet, BASE_URL)])%list,
        run_response "processing_started" "static")).
Proof.
  intros Hpath. split.
  - intros Hne.
    assert (Hv : verify_api_key x_api_key path = Some (http_exception 401 "Unauthorized")).
    { unfold AutomationApp.verify_api_key. rewrite Hpath.
      destruct (option_string_eqb x_api_key APP_API_KEY) eqn:E; [|reflexivity].
      now apply option_string_eqb_eq in E. }
    unfold AutomationApp.run, AutomationApp.run_dynamic, AutomationApp.health.
    rewrite Hv. auto.
  - intros Heq.
    assert (Hv : verify_api_key x_api_key path = None).
    { unfold AutomationApp.verify_api_key. rewrite Hpath.
      now rewrite (proj2 (option_string_eqb_eq _ _) Heq). }
    unfold AutomationApp.run, AutomationApp.health. rewrite Hv.
    split; [reflexivity|]. now intros sheet ->.
Qed.

(** X20: [load_sheet] takes the configured sheet, and the configured
    worksheet name, whenever the sheet id is missing or empty: the worksheet
    name given with it is ignored. So [/run-dynamic] with an empty
    [sheet_id] schedules what [/run] schedules, while its answer repeats the
    payload. With a sheet id, an empty or missing worksheet name selects
    the first sheet. *)
Theorem X20_empty_sheet_id_means_static_sheet (sheet_id sheet_name : option string) :
  (truthy_opt sheet_id = false -> load_sheet sheet_id sheet_name = load_sheet None None) /\
  (truthy_opt sheet_id = true -> truthy_opt sheet_name = false ->
   open_fails (sheet1 sheet_id) = None -> load_sheet sheet_id sheet_name = inr (sheet1 sheet_id)) /\
  (forall name x_api_key path background_tasks,
     (run_dynamic EmptyString name x_api_key path background_tasks).1
       = (run x_api_key path background_tasks).1 /\
     (forall tasks' a,
        run_dynamic EmptyString name x_api_key path background_tasks = (tasks', a) ->
        tasks' <> background_tasks ->
        a = run_dynamic_response "processing_started" "dynamic" EmptyString name)).
Proof.
  split; [|split].
  - intros Hid. unfold AutomationApp.load_sheet. now rewrite Hid.
  - intros Hid Hname Hopen. unfold AutomationApp.load_sheet. rewrite Hid. cbn [negb].
    destruct sheet_name as [name|]; [|now rewrite Hopen].
    cbn [truthy_opt] in Hname. now rewrite Hname, Hopen.
  - intros name key path tasks.
    unfold AutomationApp.run_dynamic, AutomationApp.run.
    destruct (verify_api_key key path) as [err|].
    { split; [reflexivity|]. intros tasks' a [= <- <-]. congruence. }
    assert (Hl : load_sheet (Some EmptyString) name = load_sheet None None) by reflexivity.
    rewrite Hl. destruct (load_sheet None None) as [msg|sheet].
    + split; [reflexivity|]. intros tasks' a [= <- <-]. congruence.
    + split; [reflexivity|]. now intros tasks' a [= <- <-].
Qed.

End AppFacts.

Lemma X19_api_key_gates_the_run_witness :
  run (Some "secret") (Some "sheet-1") None (Some "http://host") (fun _ => None)
      None "/run" []
    = ([], http_exception 401 "Unauthorized") /\
  run None (Some "sheet-1") None (Some "http://host") (fun _ => None) None "/run" []
    = ([(sheet1 (Some "sheet-1"), Some "http://host")],
       run_response "processing_started" "static").
Proof.
  destruct (X19_api_key_gates_the_run (Some "secret") (Some "sheet-1") None
              (Some "http://host") (fun _ => None) None "/run" [] eq_refl) as [H401 _].
  destruct (X19_api_key_gates_the_run None (Some "sheet-1") None
              (Some "http://host") (fun _ => None) None "/run" [] eq_refl) as [_ Hok].
  split.
  - exact (proj1 (H401 ltac:(discriminate))).
  - exact (proj2 (Hok eq_refl) _ eq_refl).
Defined.

Lemma X20_empty_sheet_id_means_static_sheet_witness :
  load_sheet (Some "sheet-1") (Some "Prices") (fun _ => None) (Some EmptyString) (Some "Other")
    = inr (named_worksheet (Some "sheet-1") "Prices") /\
  load_sheet (Some "sheet-1") (Some "Prices") (fun _ => None) (Some "sheet-2") None
    = inr (sheet1 (Some "sheet-2")).
Proof.
  destruct (X20_empty_sheet_id_means_static_sheet None (Some "sheet-1") (Some "Prices")
              None (fun _ => None) (Some EmptyString) (Some "Other"))
    as (Hstatic & _ & _).
  destruct (X20_empty_sheet_id_means_static_sheet None (Some "sheet-1") (Some "Prices")
              None (fun _ => None) (Some "sheet-2") None)
    as (_ & Hfirst & _).
  split.
  - rewrite (Hstatic eq_refl). reflexivity.
  - exact (Hfirst eq_refl eq_refl eq_refl).
Defined.

(** ** get_contrast_color: brighter badges keep black text *)

Lemma Qgt_bool_brightness (x : Z) : Qgt_bool (x # 1000) 160 = true <-> 160000 < x.
Proof.
  rewrite Qgt_bool_iff. unfold Qlt. cbn [Qnum Qden]. lia.
Qed.

(** X21: among colours of six hexadecimal digits, the text colour is
    monotone in the channels: if a colour gets black text, every colour
    whose red, green and blue are each at least as large gets black text
    too. *)
Theorem X21_contrast_color_monotone
    (c1 c2 c3 c4 c5 c6 e1 e2 e3 e4 e5 e6 : ascii)
    (d1 d2 d3 d4 d5 d6 f1 f2 f3 f4 f5 f6 : Z) :
  hex_digit c1 = Some d1 -> hex_digit c2 = Some d2 -> hex_digit c3 = Some d3 ->
  hex_digit c4 = Some d4 -> hex_digit c5 = Some d5 -> hex_digit c6 = Some d6 ->
  hex_digit e1 = Some f1 -> hex_digit e2 = Some f2 -> hex_digit e3 = Some f3 ->
  hex_digit e4 = Some f4 -> hex_digit e5 = Some f5 -> hex_digit e6 = Some f6 ->
  16 * d1 + d2 <= 16 * f1 + f2 ->
  16 * d3 + d4 <= 16 * f3 + f4 ->
  16 * d5 + d6 <= 16 * f5 + f6 ->
  get_contrast_color
    (String c1 (String c2 (String c3 (String c4 (String c5 (String c6 EmptyString))))))
    = "black" ->
  get_contrast_color
    (String e1 (String e2 (String e3 (String e4 (String e5 (String e6 EmptyString))))))
    = "black".
Proof.
  intros C1 C2 C3 C4 C5 C6 E1 E2 E3 E4 E5 E6 HR HG HB.
  rewrite (get_contrast_color_hex6 _ _ _ _ _ _ _ _ _ _ _ _ C1 C2 C3 C4 C5 C6).
  rewrite (get_contrast_color_hex6 _ _ _ _ _ _ _ _ _ _ _ _ E1 E2 E3 E4 E5 E6).
  destruct (Qgt_bool (((16 * d1 + d2) * 299 + (16 * d3 + d4) * 587
                       + (16 * d5 + d6) * 114) # 1000) 160) eqn:E; [|discriminate].
  apply Qgt_bool_brightness in E. intros _.
  assert (H : Qgt_bool (((16 * f1 + f2) * 299 + (16 * f3 + f4) * 587
                         + (16 * f5 + f6) * 114) # 1000) 160 = true)
    by (apply Qgt_bool_brightness; lia).
  now rewrite H.
Qed.

Lemma X21_contrast_color_monotone_witness :
  get_contrast_color "FFE080" = "black".
Proof.
  apply (X21_contrast_color_monotone "F" "F" "D" "7" "0" "0" "F" "F" "E" "0" "8" "0"
           15 15 13 7 0 0 15 15 14 0 8 0); try reflexivity; try lia.
Defined.

(** ** process_sheet: no cell is written for an image that failed *)

Section ProcessSheetWrites.
Variable get_all_values : gmap (nat * nat) string -> list (list string).
Variable compose_image_raises : string -> string -> string -> option string.
Variable update_cell_raises : nat -> nat -> string -> option string.
Variable BASE_URL : string.

Local Abbreviation row_result := (row_result compose_image_raises update_cell_raises BASE_URL).
Local Abbreviation rows_result := (rows_result compose_image_raises update_cell_raises BASE_URL).
Local Abbreviation run_process_sheet :=
  (run_process_sheet get_all_values compose_image_raises update_cell_raises BASE_URL).

Ltac row_cases H :=
  unfold Processor.row_result in H;
  repeat match type of H with
         | context [match ?x with _ => _ end] => destruct x eqn:?
         | context [if ?b then _ else _] => destruct b eqn:?
         end;
  simplify_eq.

(** [update_cell] is called for a row only after [compose_image] has
    returned for it. *)
Lemma rows_result_update_after_compose (values : list (list string)) (i : nat)
    (c c' : gmap (nat * nat) string) (evs : list event) (out : Processor.exn + unit)
    (r col : nat) (v : string) :
  rows_result i values c = (c', evs, out) ->
  Ev_update_cell r col v ∈ evs ->
  exists j row p t, values !! j = Some row /\ row !! 0%nat = Some p /\
    row !! 1%nat = Some t /\ r = (i + j)%nat /\
    compose_image_raises p t (output_path r) = None.
Proof.
  revert i c c' evs out. induction values as [|row values IH]; intros i c c' evs out H Hin.
  - cbn in H. simplify_eq. now apply elem_of_nil in Hin.
  - cbn [Processor.rows_result] in H.
    destruct (row_result i row c) as [[c1 evs1] o1] eqn:Hr.
    assert (Hhere : Ev_update_cell r col v ∈ evs1 ->
      exists p t, row !! 0%nat = Some p /\ row !! 1%nat = Some t /\ r = i /\
        compose_image_raises p t (output_path r) = None).
    { clear H. intros Hin1. row_cases Hr;
        repeat (apply elem_of_cons in Hin1 as [Hin1|Hin1]; simplify_eq);
        try (now apply elem_of_nil in Hin1); eauto 10. }
    assert (Hzero : Ev_update_cell r col v ∈ evs1 ->
      exists j row' p t, (row :: values) !! j = Some row' /\ row' !! 0%nat = Some p /\
        row' !! 1%nat = Some t /\ r = (i + j)%nat /\
        compose_image_raises p t (output_path r) = None).
    { intros Hin1. destruct (Hhere Hin1) as (p & t & ? & ? & ? & ?).
      exists 0%nat, row, p, t. rewrite Nat.add_0_r. auto. }
    destruct o1 as [e|[]]; [simplify_eq; auto|].
    destruct (rows_result (S i) values c1) as [[c2 evs2] o2] eqn:Hrs. simplify_eq.
    apply elem_of_app in Hin as [Hin|Hin]; [auto|].
    destruct (IH _ _ _ _ _ Hrs Hin) as (j & row' & p & t & ? & ? & ? & ? & ?).
    exists (S j), row', p, t. replace (i + S j)%nat with (S i + j)%nat by lia. auto.
Qed.

(** X22: when [compose_image] raises for a row, [update_cell] is never
    called on that row and all its cells are after the run what they were
    before: no URL is written for an image that was not made. *)
Theorem X22_no_write_after_failed_compose (sheet : gmap (nat * nat) string)
    (i : nat) (row : list string) (url price msg : string) :
  get_all_values sheet !! i = Some row ->
  row !! 0%nat = Some url -> row !! 1%nat = Some price ->
  compose_image_raises url price (output_path (S i)) = Some msg ->
  (forall col v, Ev_update_cell (S i) col v ∉ trace (run_process_sheet sheet).1) /\
  (forall col, cells (run_process_sheet sheet).1 !! (S i, col) = sheet !! (S i, col)).
Proof.
  intros Hi H0 H1 Hraise.
  rewrite (run_process_sheet_result get_all_values compose_image_raises
             update_cell_raises BASE_URL sheet).
  destruct (rows_result 1 (get_all_values sheet) sheet) as [[c evs] out] eqn:Hrs.
  assert (Hu : forall col v, Ev_update_cell (S i) col v ∉ evs).
  { intros col v Hin.
    destruct (rows_result_update_after_compose _ _ _ _ _ _ _ _ _ Hrs Hin)
      as (j & row' & p & t & Hj & Hp & Ht & Hk & Hnone).
    assert (j = i) as -> by lia. simplify_eq. }
  assert (Hcells : forall col, c !! (S i, col) = sheet !! (S i, col)).
  { intros col.
    destruct (rows_result_cells _ _ _ _ _ _ _ _ _ (S i) col Hrs) as [?|[v Hv]];
      [assumption|].
    now apply Hu in Hv. }
  destruct out as [e|[]]; cbn [fst trace cells]; (split; [|exact Hcells]);
    intros col v; rewrite ?app_comm_cons, ?elem_of_app, ?elem_of_cons, ?elem_of_nil;
    intros Hin; destruct_or?; simplify_eq; eapply Hu; eassumption.
Qed.

End ProcessSheetWrites.

Lemma X22_no_write_after_failed_compose_witness :
  (Ev_update_cell 1 3 "http://host/images/edited/edited_1.png"
     ∉ trace (run_process_sheet (fun _ => three_rows) (cannot_open "imgA.png")
                never_raises "http://host" ∅).1) /\
  (cells (run_process_sheet (fun _ => three_rows) (cannot_open "imgA.png")
            never_raises "http://host" ∅).1 !! (1%nat, 3%nat)
   = (∅ : gmap (nat * nat) string) !! (1%nat, 3%nat)).
Proof.
  destruct (X22_no_write_after_failed_compose (fun _ => three_rows)
              (cannot_open "imgA.png") never_raises "http://host" ∅
              0%nat ["imgA.png"; "$19.99"] "imgA.png" "$19.99"
              "cannot identify image file" eq_refl eq_refl eq_refl eq_refl)
    as [Hu Hc].
  split; [apply Hu | apply Hc].
Defined.

(** ** POST /user/api-key/regenerate *)

(** X23: for an authenticated user, [POST /user/api-key/regenerate]
    never answers with an error: when it answers, it gives a key that
    differs from the user's old key, and a later request with the same token
    is authenticated as the same user, whose [GET /user/api-key] shows
    exactly that key. *)
Theorem X23_regenerate_endpoint_rotates_key
    (decode_access_token : string -> option (list (string * string)))
    (token_hex : nat -> string) (fuel : nat) (token : string)
    (rows rows' : list User) (drawn drawn' : nat) (user : User) (a : Accounts.answer) :
  get_current_user decode_access_token token rows = inr user ->
  regenerate_api_key_endpoint token_hex fuel user rows drawn = (rows', drawn', Some a) ->
  exists new_key,
    a = api_key_response new_key /\ new_key <> api_key user /\
    get_current_user decode_access_token token rows' = inr (set_api_key new_key user) /\
    get_api_key (set_api_key new_key user) = api_key_response new_key.
Proof.
  intros Hauth. unfold regenerate_api_key_endpoint, regenerate_api_key.
  pose proof (get_current_user_found _ _ _ _ Hauth) as Hfound.
  unfold get_user_by_email in Hfound. rewrite Hfound.
  pose proof (generate_api_key_spec token_hex rows fuel drawn) as Hgen.
  destruct (_generate_api_key token_hex fuel rows drawn) as [[key d]|]; [|discriminate].
  destruct Hgen as [Hkey _].
  assert (Hoth : existsb (has_api_key key) (others (has_email (email user)) rows) = false).
  { apply existsb_false_query, query_first_None. intros u Hu.
    apply others_subset in Hu.
    destruct (has_api_key key u) eqn:E; [|reflexivity].
    apply has_api_key_true in E. exfalso. apply Hkey, list_elem_of_fmap. now exists u. }
  rewrite Hoth. intros [= <- <- <-].
  exists key. split; [reflexivity|]. split.
  - intros ->. apply Hkey, list_elem_of_fmap. exists user. split; [reflexivity|].
    now apply query_first_Some in Hfound as [? _].
  - split; [|reflexivity].
    apply (get_current_user_by_email _ _ _ _ Hauth).
    unfold get_user_by_email. now apply query_first_update_first.
Qed.

Lemma X23_regenerate_endpoint_rotates_key_witness :
  exists new_key,
    Some (api_key_response "key-9") = Some (api_key_response new_key) /\
    new_key <> "key-1".
Proof.
  pose (r := regenerate_api_key_endpoint (fun _ => "key-9") 3 alice [alice; bob] 0).
  assert (Hr : r = (r.1.1, r.1.2, Some (api_key_response "key-9"))) by reflexivity.
  destruct (X23_regenerate_endpoint_rotates_key decode_demo (fun _ => "key-9") 3
              "token-alice" [alice; bob] r.1.1 0%nat r.1.2 alice _ eq_refl Hr)
    as (k & Hk & Hne & _).
  exists k. split; [now rewrite Hk|exact Hne].
Defined.
